(** * Intelligent RTL Management: the direction engine

    A shallow embedding of the text-direction detector
    ([rtl-text-detector.js]) and of the plugin's direction engine (the
    main plugin file), with the properties of the specification stated
    over them.

    JavaScript strings are sequences of UTF-16 code units: [list Z].
    The plugin's instance fields are a record that every operation takes
    and returns; the host application (workspace, leaves, render tree,
    metadata cache) is a record of what the code asks of it. *)

From Stdlib Require Import ZArith String Ascii List Bool Lia.
From stdpp Require Import base decidable option list functions gmap strings.
Import ListNotations.

(** ** JavaScript values and strings *)

(** A string of UTF-16 code units. *)
Definition jsString := list Z.

(** The code units of an ASCII literal of the source. *)
Definition units (s : string) : jsString :=
  map (fun a => Z.of_nat (nat_of_ascii a)) (list_ascii_of_string s).

(** What the code can tell apart in a value it is handed: a string, or
    [undefined]/[null], or some other value, of which only truthiness is
    ever looked at. *)
Inductive JsValue :=
| JsUndefined
| JsNull
| JsString (s : jsString)
| JsOther (truthy : bool).

Definition truthy (v : JsValue) : bool :=
  match v with
  | JsUndefined | JsNull => false
  | JsString s => negb (Nat.eqb (length s) 0)
  | JsOther b => b
  end.

Fixpoint takeWhile {A} (p : A -> bool) (l : list A) : list A :=
  match l with
  | [] => []
  | x :: l' => if p x then x :: takeWhile p l' else []
  end.

Fixpoint dropWhile {A} (p : A -> bool) (l : list A) : list A :=
  match l with
  | [] => []
  | x :: l' => if p x then dropWhile p l' else l
  end.

(** [String.prototype.startsWith]. *)
Fixpoint startsWith (p s : jsString) : bool :=
  match p, s with
  | [], _ => true
  | _ :: _, [] => false
  | a :: p', b :: s' => (a =? b)%Z && startsWith p' s'
  end.

(** ECMAScript WhiteSpace and LineTerminator code points: the class [\s]
    of a regular expression, and what [String.prototype.trim] removes. *)
Definition isWhiteSpace (c : Z) : bool :=
  ((c =? 0x09) || (c =? 0x0A) || (c =? 0x0B) || (c =? 0x0C) || (c =? 0x0D)
   || (c =? 0x20) || (c =? 0xA0) || (c =? 0x1680)
   || ((0x2000 <=? c) && (c <=? 0x200A))
   || (c =? 0x2028) || (c =? 0x2029) || (c =? 0x202F) || (c =? 0x205F)
   || (c =? 0x3000) || (c =? 0xFEFF))%Z.

(** The class [\d]. *)
Definition isDigit (c : Z) : bool := ((0x30 <=? c) && (c <=? 0x39))%Z.

Definition trim (s : jsString) : jsString :=
  rev (dropWhile isWhiteSpace (rev (dropWhile isWhiteSpace s))).

(** ** Regular expressions of the detector

    Every pattern of [markdownPrefixes] is [^] followed by a sequence of
    quantified character classes.  [matchSeq] is the backtracking matcher
    for such a sequence: each quantifier is greedy, and gives characters
    back one at a time when the rest of the pattern fails. *)

Record Atom := mkAtom {
  atom_cls : Z -> bool;      (* the character class *)
  atom_min : nat;            (* least number of repetitions *)
  atom_max : option nat      (* most repetitions; None: unbounded *)
}.

Definition one (p : Z -> bool) := mkAtom p 1 (Some 1%nat).
Definition opt (p : Z -> bool) := mkAtom p 0 (Some 1%nat).
Definition star (p : Z -> bool) := mkAtom p 0 None.
Definition plus (p : Z -> bool) := mkAtom p 1 None.
Definition rep (p : Z -> bool) (lo hi : nat) := mkAtom p lo (Some hi).

Definition chr (a : ascii) (c : Z) : bool := (c =? Z.of_nat (nat_of_ascii a))%Z.
Definition anyOf (l : list ascii) (c : Z) : bool := existsb (fun a => chr a c) l.

(** Try [k (lo + d)], then [k (lo + d - 1)], ..., down to [k lo]. *)
Fixpoint tryDown {R} (k : nat -> option R) (lo d : nat) : option R :=
  match k (lo + d)%nat with
  | Some r => Some r
  | None => match d with
            | O => None
            | S d' => tryDown k lo d'
            end
  end.

(** The text left after a match of the sequence at the start of [s]. *)
Fixpoint matchSeq (r : list Atom) (s : jsString) : option jsString :=
  match r with
  | [] => Some s
  | a :: r' =>
      let run := length (takeWhile (atom_cls a) s) in
      let n := match atom_max a with
               | Some hi => Nat.min hi run
               | None => run
               end in
      if (n <? atom_min a)%nat then None
      else tryDown (fun k => matchSeq r' (skipn k s)) (atom_min a) (n - atom_min a)
  end.

(** [s.replace(/^.../, '')]: the matched prefix is removed; a string that
    does not match is returned as it is. *)
Definition replacePrefix (r : list Atom) (s : jsString) : jsString :=
  match matchSeq r s with
  | Some rest => rest
  | None => s
  end.

(** A pattern that is a plain sequence of characters, not anchored:
    [test] looks for it at every position. *)
Fixpoint literalTest (pat s : jsString) : bool :=
  startsWith pat s ||
  match s with
  | [] => false
  | _ :: s' => literalTest pat s'
  end.

(** ** Unicode data

    The General_Category tables behind [\p{P}], [\p{S}], [\p{Z}], [\p{C}]
    and [\p{L}] belong to the JavaScript runtime.  Each is taken as a
    predicate on the code point that a single code unit denotes under the
    [u] flag (a lone surrogate is a code point of category Cs). *)
Class UnicodeData := {
  uniP : Z -> bool;
  uniS : Z -> bool;
  uniZ : Z -> bool;
  uniC : Z -> bool;
  uniL : Z -> bool
}.

(** ** rtl-text-detector.js *)

Inductive DirectionSetting := ltr | rtl | auto.

#[global] Instance DirectionSetting_eq_dec : EqDecision DirectionSetting.
Proof. solve_decision. Defined.

(** Each entry is a pattern written without brackets, such as
    [/\u0590-\u05FF/]: the character U+0590, a hyphen, the character
    U+05FF. *)
Definition HEBREW_RANGES : list jsString :=
  [ [0x0590; 0x2D; 0x05FF]%Z ].

Definition ARABIC_RANGES : list jsString :=
  [ [0x0600; 0x2D; 0x06FF]%Z; [0x0750; 0x2D; 0x077F]%Z;
    [0x08A0; 0x2D; 0x08FF]%Z; [0xFB50; 0x2D; 0xFDFF]%Z;
    [0xFE70; 0x2D; 0xFEFF]%Z ].

Definition RTL_RANGES : list jsString := HEBREW_RANGES ++ ARABIC_RANGES.

Definition isRtlChar (char : jsString) : bool :=
  if (Nat.eqb (length char) 0) || negb (Nat.eqb (length char) 1) then false
  else existsb (fun range => literalTest range char) RTL_RANGES.

Definition taskListPrefix : list Atom :=
  [ star isWhiteSpace; one (chr "-"); star isWhiteSpace; one (chr "[");
    star isWhiteSpace; opt (anyOf ["x"; "X"]%char); star isWhiteSpace;
    one (chr "]"); star isWhiteSpace ].

Definition unorderedListPrefix : list Atom :=
  [ star isWhiteSpace; one (anyOf ["-"; "*"; "+"]%char); plus isWhiteSpace ].

Definition orderedListPrefix : list Atom :=
  [ star isWhiteSpace; plus isDigit; one (anyOf ["."; ")"]%char);
    plus isWhiteSpace ].

Definition headerPrefix : list Atom :=
  [ star isWhiteSpace; rep (chr "#") 1 6; plus isWhiteSpace ].

Definition blockquotePrefix : list Atom :=
  [ star isWhiteSpace; plus (chr ">"); star isWhiteSpace ].

Definition markdownPrefixes : list (list Atom) :=
  [ taskListPrefix; unorderedListPrefix; orderedListPrefix; headerPrefix;
    blockquotePrefix ].

(** The loop [for (const prefixRegex of markdownPrefixes)
    processedText = processedText.replace(prefixRegex, '')]. *)
Definition stripMarkdownPrefixes (s : jsString) : jsString :=
  fold_left (fun processedText prefixRegex => replacePrefix prefixRegex processedText)
            markdownPrefixes s.

Definition isBasicLatinLetter (c : Z) : bool :=
  (((0x61 <=? c) && (c <=? 0x7A)) || ((0x41 <=? c) && (c <=? 0x5A)))%Z.

(** The "first strong character" loop over the first [checkLength]
    characters: [Some d] when it returns [d], [None] when it runs out. *)
Fixpoint firstStrong (s : jsString) : option DirectionSetting :=
  match s with
  | [] => None
  | c :: s' =>
      if isRtlChar [c] then Some rtl
      else if isBasicLatinLetter c then Some ltr
      else firstStrong s'
  end.

Definition countIf {A} (p : A -> bool) (l : list A) : Z :=
  Z.of_nat (length (List.filter p l)).

Section Detector.
Context `{UnicodeData}.

(** [/^[\s\d\p{P}\p{S}\p{Z}\p{C}]*$/u.test(char)] for a one-unit [char]. *)
Definition isNeutral (c : Z) : bool :=
  isWhiteSpace c || isDigit c || uniP c || uniS c || uniZ c || uniC c.

(** The text from step 1 to step 3: prefixes removed, trimmed, leading
    neutral characters skipped. *)
Definition preprocess (textBlock : jsString) : jsString :=
  let processedText := stripMarkdownPrefixes textBlock in
  let processedText := trim processedText in
  let firstSignificantCharIndex := length (takeWhile isNeutral processedText) in
  skipn firstSignificantCharIndex processedText.

(** Step 5.  [rtlCharCount / totalScriptChars > 0.4] is compared as
    [5 * rtlCharCount > 2 * totalScriptChars]; the two agree for every
    pair of counts that a string can give. *)
Definition majority (processedText : jsString) : DirectionSetting :=
  let rtlCharCount := countIf (fun c => isRtlChar [c]) processedText in
  let totalScriptChars := countIf uniL processedText in
  if (totalScriptChars =? 0)%Z then ltr
  else if (2 * totalScriptChars <? 5 * rtlCharCount)%Z then rtl
  else ltr.

Definition getBlockDirection (textBlock : JsValue) : DirectionSetting :=
  match textBlock with
  | JsString s =>
      if negb (truthy textBlock) then ltr
      else if startsWith (units "```") s then ltr
      else
        let processedText := preprocess s in
        if Nat.eqb (length processedText) 0 then ltr
        else
          let checkLength := Nat.min (length processedText) 200 in
          match firstStrong (firstn checkLength processedText) with
          | Some d => d
          | None => majority processedText
          end
  | _ => ltr
  end.
End Detector.


(** ** The host application

    Nodes of the render tree are known by identity only.  The engine never
    changes the shape of the tree, so the tree is given by what the code
    asks of it: selector queries, containment in [document.body], the
    chain of parents of a node, the text of an element. *)

Definition Element := positive.

Record TFile := mkTFile {
  path : string;
  basename : string;
  extension : string
}.

#[global] Instance TFile_eq_dec : EqDecision TFile.
Proof. solve_decision. Defined.

Inductive ViewClass := MarkdownView | OtherView.

#[global] Instance ViewClass_eq_dec : EqDecision ViewClass.
Proof. solve_decision. Defined.

Record View := mkView {
  view_class : ViewClass;        (* [view instanceof MarkdownView] *)
  viewType : string;             (* [view.getViewType()] *)
  view_file : option TFile;      (* [view.file] *)
  containerEl : Element          (* [view.containerEl] *)
}.

Record Leaf := mkLeaf {
  leaf_id : string;
  leaf_view : View
}.

(** The outcome of a call into the host that may throw. *)
Inductive Completion (A : Type) :=
| Normal (a : A)
| Throw.
Arguments Normal {A} a.
Arguments Throw {A}.

#[global] Instance Completion_ret : MRet Completion := fun A a => Normal a.

#[global] Instance Completion_bind : MBind Completion :=
  fun A B k c =>
    match c with
    | Normal a => k a
    | Throw => Throw
    end.

(** [try { body } catch (e) { handler }] *)
Definition tryCatch {A} (body : Completion A) (handler : Completion A) : Completion A :=
  match body with
  | Normal a => Normal a
  | Throw => handler
  end.

Record CachedMetadata := mkCache {
  frontmatter : option (gmap string JsValue)
}.

(** A mutation record; the engine also builds records that have a
    [target] only, written here with an empty type and no added nodes. *)
Record MutationRecord := mkMutation {
  mutation_type : string;
  target : Element;
  addedNodes : list Element
}.

(** What the engine asks of the host, with the answers in the shape the
    code uses them: the value of [getActiveViewOfType(MarkdownView)] is
    read through [.view.file] and [.view.containerEl], as a leaf is; the
    walk [targetNode = targetNode.parentNode] of the mutation handler
    runs over [pathToBody]. *)
Record Host := mkHost {
  leaves : list Leaf;                                   (* [workspace.iterateAllLeaves] *)
  getActiveFile : option TFile;                         (* [workspace.getActiveFile()] *)
  getActiveMarkdownLeaf : option Leaf;                  (* [workspace.getActiveViewOfType(MarkdownView)] *)
  leftSplit : Element;                                  (* [workspace.leftSplit.containerEl] *)
  rightSplit : Element;                                 (* [workspace.rightSplit.containerEl] *)
  querySelector : Element -> string -> option Element;
  querySelectorAll : Element -> string -> list Element;
  bodyContains : Element -> bool;                       (* [document.body.contains(el)] *)
  isElement : Element -> bool;                          (* [node instanceof Element] *)
  isHTMLElement : Element -> bool;                      (* [node instanceof HTMLElement] *)
  pathToBody : Element -> list Element;                 (* the node, its parentNode, ..., below [document.body] *)
  textContent : Element -> jsString;
  getFileCache : TFile -> Completion (option CachedMetadata)
}.

(** [workspace.getLeavesOfType(MarkdownView)] *)
Definition getMarkdownLeaves (h : Host) : list Leaf :=
  List.filter (fun l => bool_decide (view_class (leaf_view l) = MarkdownView)) (leaves h).

(** ** Settings *)

Record UiContainerSettings := mkUi { direction : DirectionSetting }.

Record IntelligentRtlSettings := mkSettings {
  globalDefaultDirection : DirectionSetting;
  editor : UiContainerSettings;
  leftSidebar : UiContainerSettings;
  rightSidebar : UiContainerSettings;
  fileExplorer : UiContainerSettings;
  searchResults : UiContainerSettings;
  tagPane : UiContainerSettings;
  canvasCard : UiContainerSettings;
  enableAdvancedTextDetection : bool;
  mySetting : string
}.

Definition DEFAULT_SETTINGS : IntelligentRtlSettings :=
  {| globalDefaultDirection := auto;
     editor := mkUi auto;
     leftSidebar := mkUi ltr;
     rightSidebar := mkUi ltr;
     fileExplorer := mkUi ltr;
     searchResults := mkUi auto;
     tagPane := mkUi auto;
     canvasCard := mkUi auto;
     enableAdvancedTextDetection := true;
     mySetting := "default" |}.

(** ** The state the engine writes *)

(** What the engine reads and writes on an element. *)
Record ElementState := mkElem {
  classList : list string;
  data_direction : option DirectionSetting;             (* [dataset.direction] *)
  data_effective_direction : option DirectionSetting    (* [data-effective-direction] *)
}.

(** The attributes of every element, and the record of every value
    written to a [data-effective-direction] attribute, oldest first. *)
Record Dom := mkDom {
  attrs : Element -> ElementState;
  effectiveWrites : list (Element * DirectionSetting)
}.

(** A [MutationObserver]: the targets it watches. *)
Definition MutationObserver := gset Element.

Record Plugin := mkPlugin {
  settings : IntelligentRtlSettings;
  editorMutationObserver : option MutationObserver;
  observedEditorElements : gset Element;
  activeNoteOverride : option DirectionSetting;
  canvasObserver : option MutationObserver;
  observedCanvasContainers : gset Element
}.

Record World := mkWorld {
  host : Host;
  dom : Dom;
  plugin : Plugin;
  (** the calls of [fileManager.processFrontMatter], oldest first *)
  frontmatterWrites : list (TFile * option DirectionSetting)
}.

Definition withDom (w : World) (d : Dom) : World :=
  mkWorld (host w) d (plugin w) (frontmatterWrites w).

Definition withPlugin (w : World) (p : Plugin) : World :=
  mkWorld (host w) (dom w) p (frontmatterWrites w).

Definition withHost (w : World) (h : Host) : World :=
  mkWorld h (dom w) (plugin w) (frontmatterWrites w).

Definition withSettings (p : Plugin) (s : IntelligentRtlSettings) : Plugin :=
  mkPlugin s (editorMutationObserver p) (observedEditorElements p)
           (activeNoteOverride p) (canvasObserver p) (observedCanvasContainers p).

Definition withOverride (p : Plugin) (o : option DirectionSetting) : Plugin :=
  mkPlugin (settings p) (editorMutationObserver p) (observedEditorElements p)
           o (canvasObserver p) (observedCanvasContainers p).

(** *** Element operations *)

Definition onElement (el : Element) (f : ElementState -> ElementState) (d : Dom) : Dom :=
  mkDom (<[el := f (attrs d el)]> (attrs d)) (effectiveWrites d).

Definition classList_remove (names : list string) (el : Element) : Dom -> Dom :=
  onElement el (fun s =>
    mkElem (List.filter (fun c => negb (bool_decide (c ∈ names))) (classList s))
           (data_direction s) (data_effective_direction s)).

Definition classList_add (name : string) (el : Element) : Dom -> Dom :=
  onElement el (fun s =>
    mkElem (if bool_decide (name ∈ classList s) then classList s else classList s ++ [name])
           (data_direction s) (data_effective_direction s)).

Definition classList_contains (d : Dom) (el : Element) (name : string) : bool :=
  bool_decide (name ∈ classList (attrs d el)).

Definition set_data_direction (v : DirectionSetting) (el : Element) : Dom -> Dom :=
  onElement el (fun s => mkElem (classList s) (Some v) (data_effective_direction s)).

Definition remove_data_effective_direction (el : Element) : Dom -> Dom :=
  onElement el (fun s => mkElem (classList s) (data_direction s) None).

(** [element.dataset.effectiveDirection = v], and the same write through
    [setAttribute('data-effective-direction', v)]. *)
Definition set_data_effective_direction (v : DirectionSetting) (el : Element) (d : Dom) : Dom :=
  mkDom (<[el := mkElem (classList (attrs d el)) (data_direction (attrs d el)) (Some v)]> (attrs d))
        (effectiveWrites d ++ [(el, v)]).

Definition directionName (d : DirectionSetting) : string :=
  match d with
  | ltr => "ltr"
  | rtl => "rtl"
  | auto => "auto"
  end.

(** The template [`${dir}-mode`]. *)
Definition modeClass (d : DirectionSetting) : string := directionName d +:+ "-mode".

(** ** The plugin

    Console output, notices and the text of the status-bar item are left
    out: nothing the engine does depends on them. *)

(** The two observers and their bookkeeping sets are passed around as
    references to the plugin's fields; [ObserverKind] says which pair a
    call was given. *)
Inductive ObserverKind := EditorObserver | CanvasObserver.

Definition observerOf (k : ObserverKind) (p : Plugin) : option MutationObserver :=
  match k with
  | EditorObserver => editorMutationObserver p
  | CanvasObserver => canvasObserver p
  end.

Definition observedSetOf (k : ObserverKind) (p : Plugin) : gset Element :=
  match k with
  | EditorObserver => observedEditorElements p
  | CanvasObserver => observedCanvasContainers p
  end.

Definition withObserver (k : ObserverKind) (p : Plugin) (o : option MutationObserver) : Plugin :=
  match k with
  | EditorObserver =>
      mkPlugin (settings p) o (observedEditorElements p)
               (activeNoteOverride p) (canvasObserver p) (observedCanvasContainers p)
  | CanvasObserver =>
      mkPlugin (settings p) (editorMutationObserver p) (observedEditorElements p)
               (activeNoteOverride p) o (observedCanvasContainers p)
  end.

Definition withObservedSet (k : ObserverKind) (p : Plugin) (s : gset Element) : Plugin :=
  match k with
  | EditorObserver =>
      mkPlugin (settings p) (editorMutationObserver p) s
               (activeNoteOverride p) (canvasObserver p) (observedCanvasContainers p)
  | CanvasObserver =>
      mkPlugin (settings p) (editorMutationObserver p) (observedEditorElements p)
               (activeNoteOverride p) (canvasObserver p) s
  end.

(** [Set.prototype.add] on a set whose iteration order matters. *)
Definition setAdd (el : Element) (l : list Element) : list Element :=
  if bool_decide (el ∈ l) then l else l ++ [el].

(** [this.activeNoteOverride || this.settings.editor.direction]; the
    three direction strings are all truthy. *)
Definition directionToApply (p : Plugin) : DirectionSetting :=
  match activeNoteOverride p with
  | Some d => d
  | None => direction (editor (settings p))
  end.

(** [userDirectionForThisEditor] of [handleEditorMutationInner]. *)
Definition userDirectionForThisEditor (p : Plugin) : DirectionSetting :=
  let userDirection := direction (editor (settings p)) in
  match activeNoteOverride p with
  | Some o => o
  | None => userDirection
  end.

(** [card.querySelector('.canvas-card-content') ||
     card.querySelector('.canvas-card-text') || card] *)
Definition cardContentOf (h : Host) (card : Element) : Element :=
  match querySelector h card ".canvas-card-content" with
  | Some c => c
  | None => match querySelector h card ".canvas-card-text" with
            | Some c => c
            | None => card
            end
  end.

(** The status-bar click handler's choice of the next override. *)
Definition nextDirection (currentOverride : option DirectionSetting) : option DirectionSetting :=
  match currentOverride with
  | Some ltr => Some rtl
  | Some rtl => Some auto
  | Some auto => None
  | None => Some ltr
  end.

(** [['ltr', 'rtl', 'auto'].includes(v)], with the member found. *)
Definition includedDirection (v : JsValue) : option DirectionSetting :=
  match v with
  | JsString s =>
      if bool_decide (s = units "ltr") then Some ltr
      else if bool_decide (s = units "rtl") then Some rtl
      else if bool_decide (s = units "auto") then Some auto
      else None
  | _ => None
  end.

(** [fm?.direction] *)
Definition directionFromFm (fm : option (gmap string JsValue)) : JsValue :=
  match fm with
  | Some m => default JsUndefined (m !! "direction")
  | None => JsUndefined
  end.

(** The body of the [try] of [handleFileOpen]: the override read for
    [file]. *)
Definition readOverride (h : Host) (file : option TFile) : Completion (option DirectionSetting) :=
  match file with
  | Some f =>
      if String.eqb (extension f) "md" then
        fileCache ← getFileCache h f;
        let fm := fileCache ≫= frontmatter in
        let v := directionFromFm fm in
        mret (if truthy v then includedDirection v else None)
      else mret None
  | None => mret None
  end.

Section Engine.
Context `{UnicodeData}.

Definition applyDirectionToElement (w : World) (element : option Element)
           (direction : DirectionSetting) : World :=
  match element with
  | None => w
  | Some el =>
      if negb (bodyContains (host w) el) then w
      else
        let d := set_data_direction direction el (dom w) in
        let d := classList_remove ["ltr-mode"; "rtl-mode"; "auto-mode"; "auto-detect-direction"] el d in
        let d := remove_data_effective_direction el d in
        let '(effectiveDirection, d) :=
          match direction with
          | auto =>
              let d := classList_add "auto-detect-direction" el d in
              if enableAdvancedTextDetection (settings (plugin w)) then
                let detectedDir := getBlockDirection (JsString (textContent (host w) el)) in
                (detectedDir, set_data_effective_direction detectedDir el d)
              else
                let effectiveDirection :=
                  if bool_decide (globalDefaultDirection (settings (plugin w)) = auto)
                  then ltr else globalDefaultDirection (settings (plugin w)) in
                (effectiveDirection, set_data_effective_direction effectiveDirection el d)
          | _ => (direction, set_data_effective_direction direction el d)
          end in
        withDom w (classList_add (modeClass effectiveDirection) el d)
  end.

(** The walk from [mutation.target] up the parents to the first observed
    editor content element. *)
Definition observedEditorOf (w : World) (targetNode : Element) : option Element :=
  List.find (fun n => isElement (host w) n
                      && classList_contains (dom w) n "cm-content"
                      && bool_decide (n ∈ observedEditorElements (plugin w)))
            (pathToBody (host w) targetNode).

Definition changedEditorElements (w : World) (mutations : list MutationRecord) : list Element :=
  fold_left (fun changed mutation =>
               match observedEditorOf w (target mutation) with
               | Some el => setAdd el changed
               | None => changed
               end) mutations [].

Definition owningLeaf (h : Host) (editorContentElement : Element) : option Leaf :=
  List.find (fun l => bool_decide (querySelector h (containerEl (leaf_view l)) ".cm-content"
                                   = Some editorContentElement))
            (getMarkdownLeaves h).

(** The body of [changedEditorElements.forEach]. *)
Definition reclassifyEditor (w : World) (editorContentElement : Element) : World :=
  match getActiveFile (host w), owningLeaf (host w) editorContentElement with
  | Some activeFile, Some leaf =>
      if negb (bool_decide (view_file (leaf_view leaf) = Some activeFile)) then w
      else if bool_decide (userDirectionForThisEditor (plugin w) = auto)
              && enableAdvancedTextDetection (settings (plugin w)) then
        let detectedDir := getBlockDirection (JsString (textContent (host w) editorContentElement)) in
        let currentEffectiveDir := data_effective_direction (attrs (dom w) editorContentElement) in
        if bool_decide (currentEffectiveDir = Some detectedDir) then w
        else
          let d := set_data_effective_direction detectedDir editorContentElement (dom w) in
          let d := classList_remove ["ltr-mode"; "rtl-mode"] editorContentElement d in
          withDom w (classList_add (modeClass detectedDir) editorContentElement d)
      else w
  | _, _ => w
  end.

Definition handleEditorMutationInner (w : World) (mutations : list MutationRecord) : World :=
  fold_left reclassifyEditor (changedEditorElements w mutations) w.

Definition handleCanvasMutation (w : World) (mutations : list MutationRecord) : World :=
  fold_left (fun w mutation =>
    if String.eqb (mutation_type mutation) "childList" then
      fold_left (fun w node =>
        if isHTMLElement (host w) node && classList_contains (dom w) node "canvas-card" then
          applyDirectionToElement w (Some (cardContentOf (host w) node))
                                  (direction (canvasCard (settings (plugin w))))
        else w) (addedNodes mutation) w
    else w) mutations w.

Definition refreshActiveEditorDirection (w : World) : World :=
  match getActiveMarkdownLeaf (host w) with
  | Some activeLeaf =>
      match view_file (leaf_view activeLeaf),
            querySelector (host w) (containerEl (leaf_view activeLeaf)) ".cm-content" with
      | Some _, Some editorContentElement =>
          let dir := directionToApply (plugin w) in
          let w1 := applyDirectionToElement w (Some editorContentElement) dir in
          if bool_decide (dir = auto)
             && enableAdvancedTextDetection (settings (plugin w1))
             && bool_decide (is_Some (editorMutationObserver (plugin w1)))
             && bool_decide (editorContentElement ∈ observedEditorElements (plugin w1))
          then handleEditorMutationInner w1 [mkMutation EmptyString editorContentElement []]
          else w1
      | _, _ => w
      end
  | None => w
  end.

Definition manageObserver (k : ObserverKind) (w : World) (element : option Element)
           (shouldObserve : bool) (logName : string) : World :=
  match observerOf k (plugin w), element with
  | Some targets, Some el =>
      if shouldObserve then
        if bool_decide (el ∈ observedSetOf k (plugin w)) then w
        else
          let p := withObserver k (plugin w) (Some (targets ∪ {[el]})) in
          let p := withObservedSet k p (observedSetOf k p ∪ {[el]}) in
          let w1 := withPlugin w p in
          if String.prefix "editor-" logName && classList_contains (dom w1) el "cm-content"
          then handleEditorMutationInner w1 [mkMutation EmptyString el []]
          else w1
      else w
  | _, _ => w
  end.

Definition cleanupOldObservers (k : ObserverKind) (w : World)
           (currentElementsToObserve : gset Element) : World :=
  match observerOf k (plugin w) with
  | None => w
  | Some targets =>
      let observedSet := observedSetOf k (plugin w) in
      let newObservedSet : gset Element :=
        filter (fun el => bodyContains (host w) el ∧ el ∈ currentElementsToObserve) observedSet in
      let p := if Nat.eqb (size newObservedSet) 0 && Nat.ltb 0 (size observedSet)
               then withObserver k (plugin w) (Some ∅)     (* [observer.disconnect()] *)
               else plugin w in
      withPlugin w (withObservedSet k p newObservedSet)
  end.

(** The first [iterateAllLeaves] callback of [applyAllUiSettings]; the
    two sets are [currentEditorCMContentElements] and
    [currentCanvasViewContentElements]. *)
Definition applyLeafEditorOrCanvas (acc : World * gset Element * gset Element) (leaf : Leaf)
  : World * gset Element * gset Element :=
  let '(w, currentEditorCMContentElements, currentCanvasViewContentElements) := acc in
  let view := leaf_view leaf in
  if bool_decide (view_class view = MarkdownView) then
    match querySelector (host w) (containerEl view) ".cm-content" with
    | Some editorCMContent =>
        let dir :=
          match getActiveFile (host w), activeNoteOverride (plugin w) with
          | Some activeFile, Some o =>
              if bool_decide (view_file view = Some activeFile) then o
              else direction (editor (settings (plugin w)))
          | _, _ => direction (editor (settings (plugin w)))
          end in
        let w1 := applyDirectionToElement w (Some editorCMContent) dir in
        let w2 := manageObserver EditorObserver w1 (Some editorCMContent)
                    (bool_decide (dir = auto) && enableAdvancedTextDetection (settings (plugin w1)))
                    ("editor-" +:+ leaf_id leaf) in
        (w2, currentEditorCMContentElements ∪ {[editorCMContent]}, currentCanvasViewContentElements)
    | None => acc
    end
  else if String.eqb (viewType view) "canvas" then
    let canvasViewContainer := containerEl view in
    let '(w1, currentCanvas) :=
      match querySelector (host w) canvasViewContainer ".canvas-nodes" with
      | Some canvasNodesElement =>
          (manageObserver CanvasObserver w (Some canvasNodesElement) true
                          ("canvas-nodes-" +:+ leaf_id leaf),
           currentCanvasViewContentElements ∪ {[canvasNodesElement]})
      | None => (w, currentCanvasViewContentElements)
      end in
    let cards := querySelectorAll (host w) canvasViewContainer ".canvas-card" in
    let w2 := fold_left (fun w card =>
                applyDirectionToElement w (Some (cardContentOf (host w) card))
                                        (direction (canvasCard (settings (plugin w)))))
                        cards w1 in
    (w2, currentEditorCMContentElements, currentCanvas)
  else acc.

(** The second [iterateAllLeaves] callback of [applyAllUiSettings]. *)
Definition applyLeafOther (w : World) (leaf : Leaf) : World :=
  let view := leaf_view leaf in
  let targetElement := containerEl view in
  let query sel := querySelector (host w) (containerEl view) sel in
  if String.eqb (viewType view) "file-explorer" then
    applyDirectionToElement w (Some (default targetElement (query ".nav-files-container")))
                            (direction (fileExplorer (settings (plugin w))))
  else if String.eqb (viewType view) "search" then
    applyDirectionToElement w (Some (default targetElement (query ".search-results-container")))
                            (direction (searchResults (settings (plugin w))))
  else if String.eqb (viewType view) "tag" then
    applyDirectionToElement w
      (Some (default (default targetElement (query ".view-content")) (query ".tag-pane-tags")))
      (direction (tagPane (settings (plugin w))))
  else w.

Definition applyAllUiSettings (w : World) : World :=
  let '(w, currentEditorCMContentElements, currentCanvasViewContentElements) :=
    fold_left applyLeafEditorOrCanvas (leaves (host w)) (w, ∅, ∅) in
  let w := cleanupOldObservers EditorObserver w currentEditorCMContentElements in
  let w := cleanupOldObservers CanvasObserver w currentCanvasViewContentElements in
  let w := applyDirectionToElement w (Some (leftSplit (host w)))
                                   (direction (leftSidebar (settings (plugin w)))) in
  let w := applyDirectionToElement w (Some (rightSplit (host w)))
                                   (direction (rightSidebar (settings (plugin w)))) in
  fold_left applyLeafOther (leaves (host w)) w.

Definition handleFileOpen (w : World) (file : option TFile) : Completion World :=
  override ← tryCatch (readOverride (host w) file) (mret None);
  let w := withPlugin w (withOverride (plugin w) override) in
  mret (refreshActiveEditorDirection w).

Definition clearActiveNoteOverrideAndRefreshEditor (w : World) : World :=
  let needsUpdate := bool_decide (activeNoteOverride (plugin w) ≠ None) in
  let w := withPlugin w (withOverride (plugin w) None) in
  if needsUpdate then refreshActiveEditorDirection w else w.

(** The call of [fileManager.processFrontMatter] is recorded; a failure
    of the host there is caught and leaves the engine as it is. *)
Definition updateNoteFrontmatterDirection (w : World) (file : TFile)
           (direction : option DirectionSetting) : World :=
  mkWorld (host w) (dom w) (plugin w) (frontmatterWrites w ++ [(file, direction)]).

Definition setNoteDirection (w : World) (direction : option DirectionSetting) : World :=
  match getActiveFile (host w) with
  | Some activeFile =>
      if negb (String.eqb (extension activeFile) "md") then w
      else
        let w := withPlugin w (withOverride (plugin w) direction) in
        let w := updateNoteFrontmatterDirection w activeFile direction in
        refreshActiveEditorDirection w
  | None => w
  end.

(** The click listener of the status-bar item. *)
Definition statusBarClick (w : World) : World :=
  match getActiveFile (host w) with
  | Some activeFile =>
      if negb (String.eqb (extension activeFile) "md") then w
      else setNoteDirection w (nextDirection (activeNoteOverride (plugin w)))
  | None => w
  end.

Definition saveSettings (w : World) : World := applyAllUiSettings w.

(** [onload]; [stored] is what [loadData] gives for the settings, the
    defaults standing in when nothing was stored. *)
Definition onload (w : World) (stored : option IntelligentRtlSettings) : Completion World :=
  let w := withPlugin w (withSettings (plugin w) (default DEFAULT_SETTINGS stored)) in
  let w := applyAllUiSettings w in
  let w := withPlugin w (withObserver EditorObserver (plugin w) (Some ∅)) in
  let w := withPlugin w (withObserver CanvasObserver (plugin w) (Some ∅)) in
  match getActiveFile (host w) with
  | Some activeFile => handleFileOpen w (Some activeFile)
  | None => mret w
  end.

Definition onunload (w : World) : World :=
  withPlugin w (mkPlugin (settings (plugin w)) None ∅ (activeNoteOverride (plugin w)) None ∅).

(** What can happen to a loaded plugin. *)
Inductive Event :=
| EvLoad (stored : option IntelligentRtlSettings)
| EvUnload
| EvHostChanged (h : Host)                              (* the user or the host changes the workspace *)
| EvFileOpen (file : option TFile)                      (* ['file-open'] *)
| EvActiveLeafChange (leaf : option Leaf)               (* ['active-leaf-change'] *)
| EvStatusBarClick
| EvCommand (dir : option DirectionSetting)             (* the four commands of [addCommands] *)
| EvSettingsChanged (s : IntelligentRtlSettings)        (* a control of the settings tab *)
| EvEditorMutations (mutations : list MutationRecord)   (* the debounced handler runs *)
| EvCanvasMutations (mutations : list MutationRecord).

Definition handle (w : World) (ev : Event) : Completion World :=
  match ev with
  | EvLoad stored => onload w stored
  | EvUnload => mret (onunload w)
  | EvHostChanged h => mret (withHost w h)
  | EvFileOpen file => handleFileOpen w file
  | EvActiveLeafChange leaf =>
      match leaf with
      | Some l =>
          match view_class (leaf_view l), view_file (leaf_view l) with
          | MarkdownView, Some f => handleFileOpen w (Some f)
          | _, _ => mret (clearActiveNoteOverrideAndRefreshEditor w)
          end
      | None => mret (clearActiveNoteOverrideAndRefreshEditor w)
      end
  | EvStatusBarClick => mret (statusBarClick w)
  | EvCommand dir => mret (setNoteDirection w dir)
  | EvSettingsChanged s => mret (saveSettings (withPlugin w (withSettings (plugin w) s)))
  | EvEditorMutations mutations => mret (handleEditorMutationInner w mutations)
  | EvCanvasMutations mutations => mret (handleCanvasMutation w mutations)
  end.

Fixpoint run (w : World) (evs : list Event) : Completion World :=
  match evs with
  | [] => mret w
  | ev :: evs' => w' ← handle w ev; run w' evs'
  end.
End Engine.

(** ** [debounce]

    Timers are the host's: [setTimeout] gives a new id and queues the
    call for [now + delay]; [clearTimeout] drops the queued call with that
    id, if it is still there.  Time is a counter that the host advances;
    a queued call runs when its time has come. *)

Section Debounce.
Context {Args : Type}.

Record Timer := mkTimer {
  timer_id : nat;
  timer_due : Z;
  timer_args : Args
}.

Record Timers := mkTimers {
  now : Z;
  nextId : nat;
  queue : list Timer;          (* in the order of creation *)
  invoked : list Args          (* the calls of [func] made so far, oldest first *)
}.

(** The closure that [debounce] returns, with its captured [timeoutId]. *)
Record Debounced := mkDebounced {
  delay : Z;
  timeoutId : option nat
}.

Definition debounce (delay : Z) : Debounced := mkDebounced delay None.

Definition clearTimeout (id : nat) (t : Timers) : Timers :=
  mkTimers (now t) (nextId t)
           (List.filter (fun tm => negb (Nat.eqb (timer_id tm) id)) (queue t))
           (invoked t).

Definition setTimeout (args : Args) (delay : Z) (t : Timers) : nat * Timers :=
  (nextId t,
   mkTimers (now t) (S (nextId t))
            (queue t ++ [mkTimer (nextId t) (now t + delay)%Z args])
            (invoked t)).

(** A call of the debounced function. *)
Definition callDebounced (d : Debounced) (args : Args) (t : Timers) : Debounced * Timers :=
  let t := match timeoutId d with
           | Some id => clearTimeout id t
           | None => t
           end in
  let '(id, t) := setTimeout args (delay d) t in
  (mkDebounced (delay d) (Some id), t).

(** The host's clock reaches [time]: the queued calls that are due run. *)
Definition advanceTo (time : Z) (t : Timers) : Timers :=
  let due := List.filter (fun tm => (timer_due tm <=? time)%Z) (queue t) in
  let later := List.filter (fun tm => negb (timer_due tm <=? time)%Z) (queue t) in
  mkTimers (Z.max (now t) time) (nextId t) later (invoked t ++ map timer_args due).

(** Notifications arrive at the given times; each is passed to the
    debounced function when the clock has reached its time. *)
Fixpoint deliver (d : Debounced) (t : Timers) (notifications : list (Z * Args))
  : Debounced * Timers :=
  match notifications with
  | [] => (d, t)
  | (time, args) :: rest =>
      let '(d, t) := callDebounced d args (advanceTo time t) in
      deliver d t rest
  end.

(** The calls of [func] made when the notifications have been delivered
    and the clock has run on until nothing is queued. *)
Definition invocations (d : Debounced) (start : Z) (notifications : list (Z * Args)) : list Args :=
  let '(d, t) := deliver d (mkTimers start 0 [] []) notifications in
  let last := fold_left Z.max (map timer_due (queue t)) (now t) in
  invoked (advanceTo last t).

(** One call is queued: the one asked for at [time] with [args]. *)
Definition oneQueued (d : Debounced) (t : Timers) (time : Z) (args : Args) : Prop :=
  exists id, timeoutId d = Some id
             /\ queue t = [mkTimer id (time + delay d)%Z args]
             /\ now t = time.
End Debounce.

Arguments Timer : clear implicits.
Arguments Timers : clear implicits.

(** [this.debounce(this.handleEditorMutationInner.bind(this), 500)] *)
Definition debouncedHandleEditorMutation : Debounced := debounce 500.

(** The gaps between consecutive arrival times. *)
Fixpoint gaps (times : list Z) : list Z :=
  match times with
  | a :: ((b :: _) as rest) => (b - a)%Z :: gaps rest
  | _ => []
  end.

(** ** Data for running the model *)

(** The General_Category tables restricted to Basic Latin; every code
    unit above U+007F is given no category. *)
Definition basicLatinData : UnicodeData :=
  {| uniP := fun c => existsb (Z.eqb c)
                        [0x21; 0x22; 0x23; 0x25; 0x26; 0x27; 0x28; 0x29; 0x2A; 0x2C; 0x2D;
                         0x2E; 0x2F; 0x3A; 0x3B; 0x3F; 0x40; 0x5B; 0x5C; 0x5D; 0x5F; 0x7B;
                         0x7D]%Z;
     uniS := fun c => existsb (Z.eqb c)
                        [0x24; 0x2B; 0x3C; 0x3D; 0x3E; 0x5E; 0x60; 0x7C; 0x7E]%Z;
     uniZ := fun c => (c =? 0x20)%Z;
     uniC := fun c => ((0 <=? c) && (c <=? 0x1F) || (c =? 0x7F))%Z;
     uniL := isBasicLatinLetter |}.

(** The text [# shalom olam] in Hebrew letters: a heading marker, then
    U+05E9 U+05DC U+05D5 U+05DD, a space, U+05E2 U+05D5 U+05DC U+05DD. *)
Definition hebrewHeading : jsString :=
  [0x23; 0x20; 0x05E9; 0x05DC; 0x05D5; 0x05DD; 0x20; 0x05E2; 0x05D5; 0x05DC; 0x05DD]%Z.

(** A workspace with one markdown leaf, showing the active note [note.md];
    element 10 is the leaf's container and element 11 its [.cm-content]. *)
Definition noteFile : TFile := mkTFile "note.md" "note" "md".

Definition editorLeaf : Leaf := mkLeaf "L1" (mkView MarkdownView "markdown" (Some noteFile) 10%positive).

Definition oneEditorHost : Host :=
  {| leaves := [editorLeaf];
     getActiveFile := Some noteFile;
     getActiveMarkdownLeaf := Some editorLeaf;
     leftSplit := 1%positive;
     rightSplit := 2%positive;
     querySelector := fun el sel =>
       if bool_decide (el = 10%positive) && String.eqb sel ".cm-content" then Some 11%positive else None;
     querySelectorAll := fun _ _ => [];
     bodyContains := fun _ => true;
     isElement := fun _ => true;
     isHTMLElement := fun _ => true;
     pathToBody := fun el => if bool_decide (el = 11%positive) then [11%positive; 10%positive] else [el];
     textContent := fun el => if bool_decide (el = 11%positive) then units "hello" else [];
     getFileCache := fun _ => Normal (Some (mkCache None)) |}.

Definition oneEditorDom : Dom :=
  mkDom (fun el => mkElem (if bool_decide (el = 11%positive) then ["cm-content"] else []) None None) [].

(** The plugin once [onload] has made its two observers. *)
Definition loadedPlugin (s : IntelligentRtlSettings) (o : option DirectionSetting) : Plugin :=
  mkPlugin s (Some ∅) ∅ o (Some ∅) ∅.

Definition oneEditorWorld : World :=
  mkWorld oneEditorHost oneEditorDom (loadedPlugin DEFAULT_SETTINGS None) [].

Definition withEditorDirection (s : IntelligentRtlSettings) (d : DirectionSetting) : IntelligentRtlSettings :=
  mkSettings (globalDefaultDirection s) (mkUi d) (leftSidebar s) (rightSidebar s)
             (fileExplorer s) (searchResults s) (tagPane s) (canvasCard s)
             (enableAdvancedTextDetection s) (mySetting s).

(** The stripping step as the specification words it: of the five
    patterns, tried in their order, the first that matches is removed, and
    the text is otherwise left alone. *)
Fixpoint specStripFirstPrefix_of (prefixes : list (list Atom)) (s : jsString) : jsString :=
  match prefixes with
  | [] => s
  | prefixRegex :: others =>
      match matchSeq prefixRegex s with
      | Some rest => rest
      | None => specStripFirstPrefix_of others s
      end
  end.

Definition specStripFirstPrefix (s : jsString) : jsString :=
  specStripFirstPrefix_of markdownPrefixes s.

(** A text that starts with none of what the last three patterns look
    for: no white space, digit, [#] or [>] in front. *)
Definition startsPlain (rest : jsString) : bool :=
  match rest with
  | [] => true
  | c :: _ => negb (isWhiteSpace c || isDigit c || chr "#" c || chr ">" c)
  end.

(** ** What a pass of the engine leaves alone *)

(** A direction that can be rendered. *)
Definition concrete (v : DirectionSetting) : Prop := v = ltr \/ v = rtl.

(** [d'] has the writes of [d] and after them only concrete ones. *)
Definition writesExtend (d d' : Dom) : Prop :=
  exists new, effectiveWrites d' = effectiveWrites d ++ new
              /\ Forall (fun ev => concrete (snd ev)) new.

(** From [w] to [w'] the host, the settings and the override are the
    same, and the writes made are concrete. *)
Definition reconciles (w w' : World) : Prop :=
  host w' = host w
  /\ settings (plugin w') = settings (plugin w)
  /\ activeNoteOverride (plugin w') = activeNoteOverride (plugin w)
  /\ writesExtend (dom w) (dom w').

(** The outcome of opening [file] in [w]: [handleFileOpen] completes, and
    leaves [o] as the override. *)
Definition overrideAfterOpen `{UnicodeData} (w : World) (file : TFile)
           (o : option DirectionSetting) : Prop :=
  exists w', handleFileOpen w (Some file) = Normal w' /\ activeNoteOverride (plugin w') = o.

(** The one-editor workspace with an override on the active note. *)
Definition overrideWorld (o : DirectionSetting) : World :=
  mkWorld oneEditorHost oneEditorDom (loadedPlugin DEFAULT_SETTINGS (Some o)) [].

(** The one-editor workspace with detection as given and a global
    default. *)
Definition detectionWorld (detection : bool) (globalDefault : DirectionSetting) : World :=
  mkWorld oneEditorHost oneEditorDom
          (loadedPlugin (mkSettings globalDefault (mkUi auto) (mkUi ltr) (mkUi ltr) (mkUi ltr)
                                    (mkUi auto) (mkUi auto) (mkUi auto) detection "default")
                        None) [].

(** The one-editor workspace over a metadata cache that answers [c]. *)
Definition cacheWorld (c : Completion (option CachedMetadata)) : World :=
  mkWorld (mkHost (leaves oneEditorHost) (getActiveFile oneEditorHost)
                  (getActiveMarkdownLeaf oneEditorHost) (leftSplit oneEditorHost)
                  (rightSplit oneEditorHost) (querySelector oneEditorHost)
                  (querySelectorAll oneEditorHost) (bodyContains oneEditorHost)
                  (isElement oneEditorHost) (isHTMLElement oneEditorHost)
                  (pathToBody oneEditorHost) (textContent oneEditorHost)
                  (fun _ => c))
          oneEditorDom (loadedPlugin DEFAULT_SETTINGS None) [].

Definition rtlFrontmatter : gmap string JsValue := {[ "direction" := JsString (units "rtl") ]}.

(** The editor's observer and its set are kept, or grow. *)
Definition editorObservedLe (p p' : Plugin) : Prop :=
  observedEditorElements p ⊆ observedEditorElements p'
  /\ (is_Some (editorMutationObserver p) -> is_Some (editorMutationObserver p')).


(** The one-editor workspace after the editor setting has been changed
    from auto-detect to left-to-right: the editor element is observed, as
    the pass made under auto-detect left it. *)
Definition observedLtrWorld : World :=
  mkWorld oneEditorHost oneEditorDom
          (mkPlugin (withEditorDirection DEFAULT_SETTINGS ltr)
                    (Some {[ 11%positive ]}) {[ 11%positive ]} None (Some ∅) ∅) [].

(** ** Further definitions for the properties of the detector *)

(** The characters that the five patterns of [markdownPrefixes] can
    consume: white space, digits, and the marker characters
    [- * + [ ] x X . ) # >]. *)
Definition markerChar (c : Z) : bool :=
  isWhiteSpace c || isDigit c
  || anyOf ["-"; "*"; "+"; "["; "]"; "x"; "X"; "."; ")"; "#"; ">"]%char c.

(** The first character of a text, if any, is outside the class. *)
Definition startsOutside (p : Z -> bool) (s : jsString) : Prop :=
  match s with
  | [] => True
  | c :: _ => p c = false
  end.

(** [n] copies of [#]. *)
Definition hashes (n : nat) : jsString := repeat 0x23%Z n.

(** How many characters the first, greedy attempt of an atom takes. *)
Definition greedyCount (a : Atom) (s : jsString) : nat :=
  match atom_max a with
  | Some hi => Nat.min hi (length (takeWhile (atom_cls a) s))
  | None => length (takeWhile (atom_cls a) s)
  end.

(** ** Further definitions for the properties of the engine *)

(** The classes that [applyDirectionToElement] takes off an element
    before it marks it. *)
Definition directionClasses : list string :=
  ["ltr-mode"; "rtl-mode"; "auto-mode"; "auto-detect-direction"].

(** The direction that [applyDirectionToElement] resolves [direction] to
    on [el]: its local [effectiveDirection]. *)
Definition effectiveDirectionOf `{UnicodeData} (w : World) (el : Element)
           (direction : DirectionSetting) : DirectionSetting :=
  match direction with
  | auto =>
      if enableAdvancedTextDetection (settings (plugin w))
      then getBlockDirection (JsString (textContent (host w) el))
      else if bool_decide (globalDefaultDirection (settings (plugin w)) = auto)
           then ltr else globalDefaultDirection (settings (plugin w))
  | _ => direction
  end.

(** The class list that [applyDirectionToElement] leaves: the classes it
    does not manage, in their order, then [auto-detect-direction] for an
    auto-detect setting, then the mode class. *)
Definition markedClasses (classes : list string) (direction effective : DirectionSetting)
  : list string :=
  List.filter (fun c => negb (bool_decide (c ∈ directionClasses))) classes
  ++ (if bool_decide (direction = auto) then ["auto-detect-direction"] else [])
  ++ [modeClass effective].

(** An element's mark is coherent: the class of the effective direction
    it carries is on it, and the class of the opposite direction is
    not. *)
Definition coherentMark (s : ElementState) : Prop :=
  forall v, data_effective_direction s = Some v ->
            modeClass v ∈ classList s
            /\ (forall v', concrete v' -> v' <> v -> modeClass v' ∉ classList s).

Definition coherentDom (d : Dom) : Prop := forall e, coherentMark (attrs d e).

(** Whether the mutation handler has something to write on [el]: the
    conditions of its [forEach] body hold and the attribute differs from
    what the detector gives. *)
Definition needsReclassify `{UnicodeData} (w : World) (el : Element) : bool :=
  match getActiveFile (host w), owningLeaf (host w) el with
  | Some activeFile, Some leaf =>
      bool_decide (view_file (leaf_view leaf) = Some activeFile)
      && bool_decide (userDirectionForThisEditor (plugin w) = auto)
      && enableAdvancedTextDetection (settings (plugin w))
      && negb (bool_decide (data_effective_direction (attrs (dom w) el)
                            = Some (getBlockDirection (JsString (textContent (host w) el)))))
  | _, _ => false
  end.

(** The callback that [updateNoteFrontmatterDirection] hands to
    [processFrontMatter]: [if (direction === null) delete fm.direction;
    else fm.direction = direction]. *)
Definition frontmatterUpdate (direction : option DirectionSetting)
           (fm : gmap string JsValue) : gmap string JsValue :=
  match direction with
  | None => delete "direction" fm
  | Some d => <["direction" := JsString (units (directionName d))]> fm
  end.


(** [el] is the editor content element of a markdown leaf of the
    workspace. *)
Definition liveEditor (h : Host) (el : Element) : Prop :=
  exists leaf, In leaf (leaves h)
               /\ view_class (leaf_view leaf) = MarkdownView
               /\ querySelector h (containerEl (leaf_view leaf)) ".cm-content" = Some el.

(** [el] is the [.canvas-nodes] element of a canvas leaf of the
    workspace. *)
Definition liveCanvas (h : Host) (el : Element) : Prop :=
  exists leaf, In leaf (leaves h)
               /\ view_class (leaf_view leaf) <> MarkdownView
               /\ viewType (leaf_view leaf) = "canvas"
               /\ querySelector h (containerEl (leaf_view leaf)) ".canvas-nodes" = Some el.

(** The observer of kind [k] and its set are kept, or grow. *)
Definition observedLe (k : ObserverKind) (p p' : Plugin) : Prop :=
  observedSetOf k p ⊆ observedSetOf k p'
  /\ (is_Some (observerOf k p) -> is_Some (observerOf k p')).

(** The set that the first loop of [applyAllUiSettings] collects for the
    observer of kind [k]. *)
Definition currentOf (k : ObserverKind) (acc : World * gset Element * gset Element)
  : gset Element :=
  match k with
  | EditorObserver => acc.1.2
  | CanvasObserver => acc.2
  end.

Definition liveOf (k : ObserverKind) (h : Host) (el : Element) : Prop :=
  match k with
  | EditorObserver => liveEditor h el
  | CanvasObserver => liveCanvas h el
  end.



(** The plugin object as its class declares it, before [onload]. *)
Definition newPlugin (s : IntelligentRtlSettings) : Plugin :=
  mkPlugin s None ∅ None None ∅.

(** The one-editor workspace before the plugin is loaded. *)
Definition unloadedWorld : World :=
  mkWorld oneEditorHost oneEditorDom (newPlugin DEFAULT_SETTINGS) [].

(** The one-editor workspace with the editor set to left-to-right, the
    active note overridden to auto-detect, and the editor observed. *)
Definition autoOverrideWorld : World :=
  mkWorld oneEditorHost oneEditorDom
          (mkPlugin (withEditorDirection DEFAULT_SETTINGS ltr)
                    (Some {[ 11%positive ]}) {[ 11%positive ]} (Some auto) (Some ∅) ∅) [].

(** * Properties *)

(** ** The detector *)

Lemma startsWith_length (p s : jsString) :
  startsWith p s = true -> (length p <= length s)%nat.
Proof.
  revert s. induction p as [|a p IH]; intros [|b s]; simpl; try lia; try discriminate.
  intros Hm. apply andb_true_iff in Hm as [_ Hm]. apply IH in Hm. lia.
Qed.

Lemma literalTest_length (pat s : jsString) :
  literalTest pat s = true -> (length pat <= length s)%nat.
Proof.
  induction s as [|c s IH]; simpl; intros Hm.
  - rewrite orb_false_r in Hm. now apply startsWith_length in Hm.
  - apply orb_true_iff in Hm as [Hm|Hm].
    + now apply startsWith_length in Hm.
    + apply IH in Hm. lia.
Qed.

Lemma RTL_RANGES_length (range : jsString) :
  In range RTL_RANGES -> length range = 3%nat.
Proof.
  unfold RTL_RANGES, HEBREW_RANGES, ARABIC_RANGES. simpl.
  intros Hin. repeat (destruct Hin as [<-|Hin]; [reflexivity|]). destruct Hin.
Qed.

(** No string passes [isRtlChar]: a string of one unit is shorter than
    every pattern of [RTL_RANGES]. *)
Lemma isRtlChar_false (char : jsString) : isRtlChar char = false.
Proof.
  unfold isRtlChar.
  destruct (Nat.eqb (length char) 0 || negb (Nat.eqb (length char) 1)) eqn:Hguard; [reflexivity|].
  apply orb_false_iff in Hguard as [_ Hone].
  apply negb_false_iff, Nat.eqb_eq in Hone.
  apply not_true_is_false. intros Hex.
  apply existsb_exists in Hex as (range & Hin & Hm).
  apply literalTest_length in Hm. apply RTL_RANGES_length in Hin. lia.
Qed.

Lemma firstStrong_ltr_or_none (s : jsString) :
  firstStrong s = None \/ firstStrong s = Some ltr.
Proof.
  induction s as [|c s IH]; simpl; [now left|].
  rewrite isRtlChar_false. destruct (isBasicLatinLetter c); [now right|exact IH].
Qed.

Lemma countIf_isRtlChar (s : jsString) : countIf (fun c => isRtlChar [c]) s = 0%Z.
Proof.
  unfold countIf. induction s as [|c s IH]; simpl; [reflexivity|].
  rewrite isRtlChar_false. exact IH.
Qed.

Lemma countIf_nonneg {A} (p : A -> bool) (l : list A) : (0 <= countIf p l)%Z.
Proof. unfold countIf. lia. Qed.

Section DetectorProperties.
Context `{UnicodeData}.

Lemma majority_ltr (s : jsString) : majority s = ltr.
Proof.
  unfold majority. rewrite countIf_isRtlChar.
  destruct (countIf uniL s =? 0)%Z; [reflexivity|].
  pose proof (countIf_nonneg uniL s) as Hnn.
  destruct (2 * countIf uniL s <? 5 * 0)%Z eqn:Hlt; [|reflexivity].
  apply Z.ltb_lt in Hlt. lia.
Qed.

Lemma getBlockDirection_ltr (textBlock : JsValue) : getBlockDirection textBlock = ltr.
Proof.
  destruct textBlock as [| |s|b]; try reflexivity.
  unfold getBlockDirection.
  destruct (negb (truthy (JsString s))); [reflexivity|].
  destruct (startsWith (units "```") s); [reflexivity|].
  cbv zeta.
  destruct (Nat.eqb (length (preprocess s)) 0); [reflexivity|].
  destruct (firstStrong_ltr_or_none
              (firstn (Nat.min (length (preprocess s)) 200) (preprocess s))) as [-> | ->].
  - apply majority_ltr.
  - reflexivity.
Qed.

(** C2.  No string passes [isRtlChar]: a pattern of [RTL_RANGES] can
    only be found in a text of three units or more, and [isRtlChar]
    looks at texts of one unit.  So neither the first-strong-character
    scan nor the majority vote ever answers ['rtl'], and the detector
    answers ['ltr'] for every input. *)
Theorem isRtlChar_never_holds_detector_always_ltr :
  (forall range s,
      In range RTL_RANGES -> literalTest range s = true -> (3 <= length s)%nat)
  /\ (forall char, isRtlChar char = false)
  /\ (forall s, firstStrong s <> Some rtl)
  /\ (forall s, majority s = ltr)
  /\ (forall textBlock, getBlockDirection textBlock = ltr).
Proof.
  split; [|split; [|split; [|split]]].
  - intros range s Hin Hm. apply literalTest_length in Hm.
    apply RTL_RANGES_length in Hin. lia.
  - exact isRtlChar_false.
  - intros s. destruct (firstStrong_ltr_or_none s) as [-> | ->]; discriminate.
  - exact majority_ltr.
  - exact getBlockDirection_ltr.
Qed.

(** C1.  The detector on the heading [# shalom olam] written in Hebrew
    letters: the heading marker is removed, the first character left is
    U+05E9, a letter of the Hebrew block, and the answer is ['ltr'], not
    ['rtl']. *)
Theorem getBlockDirection_hebrew_heading_is_ltr :
  stripMarkdownPrefixes hebrewHeading
  = [0x05E9; 0x05DC; 0x05D5; 0x05DD; 0x20; 0x05E2; 0x05D5; 0x05DC; 0x05DD]%Z
  /\ (0x0590 <= 0x05E9 <= 0x05FF)%Z
  /\ getBlockDirection (JsString hebrewHeading) = ltr
  /\ getBlockDirection (JsString hebrewHeading) <> rtl.
Proof.
  split; [reflexivity|]. split; [lia|].
  rewrite getBlockDirection_ltr. split; [reflexivity|discriminate].
Qed.
End DetectorProperties.

Lemma isRtlChar_never_holds_detector_always_ltr_witness :
  (3 <= length [0x0590; 0x2D; 0x05FF]%Z)%nat
  /\ isRtlChar [0x05E9]%Z = false
  /\ @getBlockDirection basicLatinData (JsString hebrewHeading) = ltr.
Proof.
  destruct (@isRtlChar_never_holds_detector_always_ltr basicLatinData)
    as (Hlen & Hchar & _ & _ & Hdir).
  split; [|split; [apply Hchar|apply Hdir]].
  apply (Hlen [0x0590; 0x2D; 0x05FF]%Z [0x0590; 0x2D; 0x05FF]%Z).
  - simpl. auto.
  - reflexivity.
Defined.

(** The examples of the specification that need no letter outside Basic
    Latin. *)
Example classify_code_fence :
  @getBlockDirection basicLatinData
    (JsString (units "```js" ++ [0x0A]%Z ++ units "console.log(1)")) = ltr.
Proof. reflexivity. Qed.

Example classify_ordered_list :
  @preprocess basicLatinData (units "1. Hello world") = units "Hello world"
  /\ @getBlockDirection basicLatinData (JsString (units "1. Hello world")) = ltr.
Proof. split; reflexivity. Qed.

Example classify_empty : @getBlockDirection basicLatinData (JsString []) = ltr.
Proof. reflexivity. Qed.

Example classify_non_string : @getBlockDirection basicLatinData JsNull = ltr.
Proof. reflexivity. Qed.

(** ** Prefix stripping *)

Ltac eval_class p :=
  repeat match goal with
         | |- context [p ?x] =>
             let v := eval vm_compute in (p x) in
             match v with
             | true => change (p x) with true
             | false => change (p x) with false
             end
         end.

Ltac eval_classes :=
  eval_class isWhiteSpace; eval_class isDigit;
  repeat match goal with
         | |- context [chr ?a ?x] =>
             let v := eval vm_compute in (chr a x) in
             match v with
             | true => change (chr a x) with true
             | false => change (chr a x) with false
             end
         | |- context [anyOf ?l ?x] =>
             let v := eval vm_compute in (anyOf l x) in
             match v with
             | true => change (anyOf l x) with true
             | false => change (anyOf l x) with false
             end
         end.

Ltac eval_units :=
  repeat match goal with
         | |- context [units ?s] =>
             let v := eval vm_compute in (units s) in change (units s) with v
         end.

Section Stripping.
#[local] Arguments isWhiteSpace : simpl never.
#[local] Arguments isDigit : simpl never.
#[local] Arguments chr : simpl never.
#[local] Arguments anyOf : simpl never.

Lemma startsPlain_cons (c : Z) (tl : jsString) :
  startsPlain (c :: tl) = true ->
  isWhiteSpace c = false /\ isDigit c = false /\ chr "#" c = false /\ chr ">" c = false.
Proof.
  unfold startsPlain. intros Hp. apply negb_true_iff in Hp.
  apply orb_false_iff in Hp as [Hp Hq]. apply orb_false_iff in Hp as [Hp Hh].
  apply orb_false_iff in Hp as [Hws Hd]. auto.
Qed.

(** A pattern [\s*] then a class that must occur does not match a text
    whose first character is neither white space nor of that class. *)
Lemma matchSeq_no_start (a : Atom) (r : list Atom) (c : Z) (tl : jsString) :
  isWhiteSpace c = false -> atom_cls a c = false -> (1 <= atom_min a)%nat ->
  matchSeq (star isWhiteSpace :: a :: r) (c :: tl) = None.
Proof.
  intros Hws Ha Hmin.
  cbn. rewrite Hws. cbn. rewrite Ha. cbn.
  destruct (atom_max a) as [hi|]; cbn.
  - rewrite Nat.min_0_r. destruct (atom_min a); [lia|reflexivity].
  - destruct (atom_min a); [lia|reflexivity].
Qed.

Lemma matchSeq_no_start_nil (a : Atom) (r : list Atom) :
  (1 <= atom_min a)%nat ->
  matchSeq (star isWhiteSpace :: a :: r) [] = None.
Proof.
  intros Hmin. cbn.
  destruct (atom_max a) as [hi|]; cbn.
  - rewrite Nat.min_0_r. destruct (atom_min a); [lia|reflexivity].
  - destruct (atom_min a); [lia|reflexivity].
Qed.

Lemma replace_task_marker (rest : jsString) :
  replacePrefix taskListPrefix (units "- [ ] - " ++ rest) = units "- " ++ rest.
Proof.
  unfold replacePrefix, taskListPrefix, star, plus, one, opt, rep.
  eval_units. cbn.
  repeat (eval_classes; cbn).
  reflexivity.
Qed.

Lemma replace_bullet_marker (c : Z) (tl : jsString) :
  isWhiteSpace c = false ->
  replacePrefix unorderedListPrefix (units "- " ++ c :: tl) = c :: tl.
Proof.
  intros Hws.
  unfold replacePrefix, unorderedListPrefix, star, plus, one, opt, rep.
  eval_units. cbn.
  repeat (eval_classes; rewrite ?Hws; cbn).
  reflexivity.
Qed.

Lemma replace_header_marker (rest : jsString) :
  replacePrefix headerPrefix (units "# - " ++ rest) = units "- " ++ rest.
Proof.
  unfold replacePrefix, headerPrefix, star, plus, one, opt, rep.
  eval_units. cbn.
  repeat (eval_classes; cbn).
  reflexivity.
Qed.

Lemma replacePrefix_no_start (a : Atom) (r : list Atom) (s : jsString) :
  match s with
  | [] => True
  | c :: _ => isWhiteSpace c = false /\ atom_cls a c = false
  end ->
  (1 <= atom_min a)%nat ->
  replacePrefix (star isWhiteSpace :: a :: r) s = s.
Proof.
  intros Hs Hmin. unfold replacePrefix. destruct s as [|c tl].
  - now rewrite matchSeq_no_start_nil.
  - destruct Hs as [Hws Ha]. now rewrite matchSeq_no_start.
Qed.

Lemma strip_unfold (s : jsString) :
  stripMarkdownPrefixes s
  = replacePrefix blockquotePrefix
      (replacePrefix headerPrefix
         (replacePrefix orderedListPrefix
            (replacePrefix unorderedListPrefix
               (replacePrefix taskListPrefix s)))).
Proof. reflexivity. Qed.

(** C4, as amended.  Each of the five patterns is applied in its turn to
    the text the earlier ones left, so a task-list marker and a
    bullet-list marker in a row are both removed; a pattern whose turn
    has passed is not tried again, so a bullet-list marker after a
    heading marker stays. *)
Theorem strip_applies_every_prefix_in_turn :
  (forall s,
      stripMarkdownPrefixes s
      = replacePrefix blockquotePrefix
          (replacePrefix headerPrefix
             (replacePrefix orderedListPrefix
                (replacePrefix unorderedListPrefix
                   (replacePrefix taskListPrefix s)))))
  /\ (forall rest,
         startsPlain rest = true ->
         stripMarkdownPrefixes (units "- [ ] - " ++ rest) = rest)
  /\ (forall rest,
         stripMarkdownPrefixes (units "# - " ++ rest) = units "- " ++ rest).
Proof.
  split; [exact strip_unfold|]. split.
  - intros rest Hp. rewrite strip_unfold, replace_task_marker.
    destruct rest as [|c tl].
    + reflexivity.
    + apply startsPlain_cons in Hp as (Hws & Hd & Hh & Hq).
      rewrite (replace_bullet_marker c tl Hws).
      unfold orderedListPrefix, headerPrefix, blockquotePrefix.
      rewrite (replacePrefix_no_start (plus isDigit) _ (c :: tl)) by (simpl; auto).
      rewrite (replacePrefix_no_start (rep (chr "#") 1 6) _ (c :: tl)) by (simpl; auto).
      apply replacePrefix_no_start; simpl; auto.
  - intros rest. rewrite strip_unfold.
    assert (Htask : replacePrefix taskListPrefix (units "# - " ++ rest) = units "# - " ++ rest).
    { unfold taskListPrefix. apply replacePrefix_no_start; [|auto]. split; reflexivity. }
    assert (Hbullet : replacePrefix unorderedListPrefix (units "# - " ++ rest)
                      = units "# - " ++ rest).
    { unfold unorderedListPrefix. apply replacePrefix_no_start; [|auto]. split; reflexivity. }
    assert (Hordered : replacePrefix orderedListPrefix (units "# - " ++ rest)
                       = units "# - " ++ rest).
    { unfold orderedListPrefix. apply replacePrefix_no_start; [|auto]. split; reflexivity. }
    rewrite Htask, Hbullet, Hordered, replace_header_marker.
    unfold blockquotePrefix. apply replacePrefix_no_start; [|auto]. split; reflexivity.
Qed.
End Stripping.

(** C4, as it is worded, at the text [- [ ] - abc]: the wording leaves
    [- abc], the code leaves [abc]. *)
Lemma strip_task_then_bullet_counterexample :
  specStripFirstPrefix (units "- [ ] - abc") = units "- abc"
  /\ stripMarkdownPrefixes (units "- [ ] - abc") = units "abc"
  /\ stripMarkdownPrefixes (units "- [ ] - abc") <> specStripFirstPrefix (units "- [ ] - abc").
Proof. split; [reflexivity|]. split; [reflexivity|]. vm_compute. discriminate. Qed.

Lemma strip_applies_every_prefix_in_turn_witness :
  startsPlain (units "abc") = true
  /\ stripMarkdownPrefixes (units "- [ ] - " ++ units "abc") = units "abc".
Proof.
  split; [reflexivity|].
  apply (proj1 (proj2 strip_applies_every_prefix_in_turn) (units "abc")). reflexivity.
Defined.

(** ** Frame properties of the engine *)

Lemma writesExtend_refl (d : Dom) : writesExtend d d.
Proof. exists []. rewrite app_nil_r. auto. Qed.

Lemma writesExtend_trans (d1 d2 d3 : Dom) :
  writesExtend d1 d2 -> writesExtend d2 d3 -> writesExtend d1 d3.
Proof.
  intros (n1 & E1 & F1) (n2 & E2 & F2). exists (n1 ++ n2). split.
  - rewrite E2, E1. now rewrite app_assoc.
  - apply Forall_app. auto.
Qed.

Lemma writesExtend_onElement (el : Element) (f : ElementState -> ElementState) (d : Dom) :
  writesExtend d (onElement el f d).
Proof. exists []. simpl. rewrite app_nil_r. auto. Qed.

Lemma writesExtend_set (v : DirectionSetting) (el : Element) (d : Dom) :
  concrete v -> writesExtend d (set_data_effective_direction v el d).
Proof. intros Hv. exists [(el, v)]. simpl. auto. Qed.

Lemma reconciles_refl (w : World) : reconciles w w.
Proof. repeat split; auto using writesExtend_refl. Qed.

Lemma reconciles_trans (w1 w2 w3 : World) :
  reconciles w1 w2 -> reconciles w2 w3 -> reconciles w1 w3.
Proof.
  intros (Hh1 & Hs1 & Ho1 & Hw1) (Hh2 & Hs2 & Ho2 & Hw2).
  repeat split; try congruence. eauto using writesExtend_trans.
Qed.

Lemma reconciles_withDom (w : World) (d : Dom) :
  writesExtend (dom w) d -> reconciles w (withDom w d).
Proof. intros Hd. repeat split; auto. Qed.

Lemma reconciles_fold {A} (f : World -> A -> World) (l : list A) (w : World) :
  (forall w x, reconciles w (f w x)) -> reconciles w (fold_left f l w).
Proof.
  intros Hf. revert w. induction l as [|x l IH]; intros w; simpl.
  - apply reconciles_refl.
  - eapply reconciles_trans; [apply Hf|apply IH].
Qed.


Section EngineFrame.
Context `{UnicodeData}.

Lemma getBlockDirection_concrete (v : JsValue) : concrete (getBlockDirection v).
Proof. rewrite getBlockDirection_ltr. now left. Qed.

Lemma applyDirectionToElement_reconciles (w : World) (element : option Element)
      (direction : DirectionSetting) :
  reconciles w (applyDirectionToElement w element direction).
Proof.
  unfold applyDirectionToElement.
  destruct element as [el|]; [|apply reconciles_refl].
  destruct (negb (bodyContains (host w) el)); [apply reconciles_refl|].
  set (d0 := remove_data_effective_direction el _).
  assert (Hd0 : writesExtend (dom w) d0).
  { subst d0. unfold remove_data_effective_direction, classList_remove, set_data_direction.
    eapply writesExtend_trans; [|apply writesExtend_onElement].
    eapply writesExtend_trans; [|apply writesExtend_onElement].
    apply writesExtend_onElement. }
  assert (Hstep : forall v d, writesExtend (dom w) d -> concrete v ->
            reconciles w (withDom w (classList_add (modeClass v) el
                                       (set_data_effective_direction v el d)))).
  { intros v d Hd Hv. apply reconciles_withDom.
    eapply writesExtend_trans; [exact Hd|].
    eapply writesExtend_trans; [apply writesExtend_set, Hv|apply writesExtend_onElement]. }
  destruct direction.
  - apply Hstep; [exact Hd0|now left].
  - apply Hstep; [exact Hd0|now right].
  - assert (Hd1 : writesExtend (dom w) (classList_add "auto-detect-direction" el d0)).
    { eapply writesExtend_trans; [exact Hd0|apply writesExtend_onElement]. }
    destruct (enableAdvancedTextDetection (settings (plugin w))).
    + apply Hstep; [exact Hd1|apply getBlockDirection_concrete].
    + apply Hstep; [exact Hd1|].
      destruct (globalDefaultDirection (settings (plugin w))); simpl;
        [now left|now right|now left].
Qed.

Lemma reclassifyEditor_reconciles (w : World) (el : Element) :
  reconciles w (reclassifyEditor w el).
Proof.
  unfold reclassifyEditor.
  repeat case_match; try apply reconciles_refl.
  apply reconciles_withDom.
  eapply writesExtend_trans; [apply writesExtend_set, getBlockDirection_concrete|].
  eapply writesExtend_trans; apply writesExtend_onElement.
Qed.

Lemma handleEditorMutationInner_reconciles (w : World) (mutations : list MutationRecord) :
  reconciles w (handleEditorMutationInner w mutations).
Proof. apply reconciles_fold, reclassifyEditor_reconciles. Qed.

Lemma handleCanvasMutation_reconciles (w : World) (mutations : list MutationRecord) :
  reconciles w (handleCanvasMutation w mutations).
Proof.
  apply reconciles_fold. intros w1 m.
  destruct (String.eqb (mutation_type m) "childList"); [|apply reconciles_refl].
  apply reconciles_fold. intros w2 node.
  case_match; [apply applyDirectionToElement_reconciles|apply reconciles_refl].
Qed.

Lemma refreshActiveEditorDirection_reconciles (w : World) :
  reconciles w (refreshActiveEditorDirection w).
Proof.
  unfold refreshActiveEditorDirection.
  repeat case_match; try apply reconciles_refl.
  - eapply reconciles_trans;
      [apply applyDirectionToElement_reconciles|apply handleEditorMutationInner_reconciles].
  - apply applyDirectionToElement_reconciles.
Qed.

Lemma reconciles_withPlugin (w : World) (p : Plugin) :
  settings p = settings (plugin w) ->
  activeNoteOverride p = activeNoteOverride (plugin w) ->
  reconciles w (withPlugin w p).
Proof. intros Hs Ho. repeat split; auto using writesExtend_refl. Qed.

Lemma manageObserver_reconciles (k : ObserverKind) (w : World) (element : option Element)
      (shouldObserve : bool) (logName : string) :
  reconciles w (manageObserver k w element shouldObserve logName).
Proof.
  unfold manageObserver.
  repeat case_match; try apply reconciles_refl.
  - eapply reconciles_trans; [|apply handleEditorMutationInner_reconciles].
    apply reconciles_withPlugin; destruct k; reflexivity.
  - apply reconciles_withPlugin; destruct k; reflexivity.
Qed.

Lemma cleanupOldObservers_reconciles (k : ObserverKind) (w : World) (current : gset Element) :
  reconciles w (cleanupOldObservers k w current).
Proof.
  unfold cleanupOldObservers.
  repeat case_match; try apply reconciles_refl;
    apply reconciles_withPlugin; destruct k; reflexivity.
Qed.

Lemma applyLeafEditorOrCanvas_reconciles (acc : World * gset Element * gset Element)
      (leaf : Leaf) :
  reconciles acc.1.1 (applyLeafEditorOrCanvas acc leaf).1.1.
Proof.
  destruct acc as [[w ed] cv]. unfold applyLeafEditorOrCanvas.
  destruct (bool_decide (view_class (leaf_view leaf) = MarkdownView)).
  - destruct (querySelector (host w) (containerEl (leaf_view leaf)) ".cm-content");
      [|apply reconciles_refl].
    cbn [fst].
    eapply reconciles_trans;
      [apply applyDirectionToElement_reconciles|apply manageObserver_reconciles].
  - destruct (String.eqb (viewType (leaf_view leaf)) "canvas"); [|apply reconciles_refl].
    destruct (querySelector (host w) (containerEl (leaf_view leaf)) ".canvas-nodes");
      cbn [fst].
    + eapply reconciles_trans; [apply manageObserver_reconciles|].
      apply reconciles_fold. intros. apply applyDirectionToElement_reconciles.
    + apply reconciles_fold. intros. apply applyDirectionToElement_reconciles.
Qed.

Lemma applyLeafOther_reconciles (w : World) (leaf : Leaf) :
  reconciles w (applyLeafOther w leaf).
Proof.
  unfold applyLeafOther.
  repeat case_match; try apply reconciles_refl; apply applyDirectionToElement_reconciles.
Qed.

Lemma fold_applyLeafEditorOrCanvas_reconciles (l : list Leaf)
      (acc : World * gset Element * gset Element) :
  reconciles acc.1.1 (fold_left applyLeafEditorOrCanvas l acc).1.1.
Proof.
  revert acc. induction l as [|leaf l IH]; intros acc; simpl.
  - apply reconciles_refl.
  - eapply reconciles_trans; [apply applyLeafEditorOrCanvas_reconciles|apply IH].
Qed.

Lemma applyAllUiSettings_reconciles (w : World) :
  reconciles w (applyAllUiSettings w).
Proof.
  unfold applyAllUiSettings.
  pose proof (fold_applyLeafEditorOrCanvas_reconciles (leaves (host w)) (w, ∅, ∅)) as Hfold.
  destruct (fold_left applyLeafEditorOrCanvas (leaves (host w)) (w, ∅, ∅)) as [[w1 ed] cv].
  simpl in Hfold.
  eapply reconciles_trans; [exact Hfold|].
  eapply reconciles_trans; [apply cleanupOldObservers_reconciles|].
  eapply reconciles_trans; [apply cleanupOldObservers_reconciles|].
  eapply reconciles_trans; [apply applyDirectionToElement_reconciles|].
  eapply reconciles_trans; [apply applyDirectionToElement_reconciles|].
  apply reconciles_fold, applyLeafOther_reconciles.
Qed.
End EngineFrame.

(** ** Debouncing *)

Lemma last_cons_default {A} (a x : A) (l : list A) : List.last (a :: l) x = List.last l a.
Proof.
  revert a x. induction l as [|b l IH]; intros a x; [reflexivity|].
  change (List.last (a :: b :: l) x) with (List.last (b :: l) x).
  now rewrite (IH b x), (IH b a).
Qed.

Lemma gaps_head_le_last (times : list Z) : forall t0,
  Forall (fun g => 0 <= g)%Z (gaps (t0 :: times)) -> (t0 <= List.last times t0)%Z.
Proof.
  induction times as [|t1 times IH]; intros t0 Hgaps; [simpl; lia|].
  simpl in Hgaps. apply Forall_cons_iff in Hgaps as [Hgap Hgaps].
  rewrite <- last_cons_default with (x := t0). rewrite last_cons_default.
  specialize (IH t1 Hgaps). rewrite last_cons_default. lia.
Qed.

(** Times in order that lie within one window of the first are each
    within one window of the one before. *)
Lemma gaps_within_span (D : Z) (times : list Z) : forall t0,
  Forall (fun g => 0 <= g)%Z (gaps (t0 :: times)) ->
  (List.last times t0 - t0 < D)%Z ->
  Forall (fun g => 0 <= g < D)%Z (gaps (t0 :: times)).
Proof.
  induction times as [|t1 times IH]; intros t0 Hgaps Hspan; [constructor|].
  simpl in Hgaps |- *. apply Forall_cons_iff in Hgaps as [Hgap Hgaps].
  rewrite last_cons_default in Hspan.
  pose proof (gaps_head_le_last times t1 Hgaps) as Hle.
  constructor; [lia|]. apply IH; [exact Hgaps|lia].
Qed.

Section DebounceProperties.
Context {Args : Type}.
Implicit Types (d : Debounced) (t : Timers Args) (args : Args).

Lemma notify_first d t args (time : Z) :
  queue t = [] -> timeoutId d = None -> (now t <= time)%Z ->
  let '(d', t') := callDebounced d args (advanceTo time t) in
  oneQueued d' t' time args /\ delay d' = delay d /\ invoked t' = invoked t.
Proof.
  intros Hq Hid Hnow.
  unfold callDebounced, setTimeout, advanceTo. rewrite Hid, Hq. simpl.
  rewrite app_nil_r. split; [|auto].
  exists (nextId t). simpl. rewrite Z.max_r by lia. auto.
Qed.

(** The next notification comes before the queued call is due: the
    queued call is dropped for a new one. *)
Lemma notify_early d t (time : Z) args (time' : Z) args' :
  oneQueued d t time args -> (time <= time' < time + delay d)%Z ->
  let '(d', t') := callDebounced d args' (advanceTo time' t) in
  oneQueued d' t' time' args' /\ delay d' = delay d /\ invoked t' = invoked t.
Proof.
  intros (id & Hid & Hq & Hnow) Hgap.
  unfold callDebounced, setTimeout, clearTimeout, advanceTo. rewrite Hid, Hq. simpl.
  destruct (Z.leb_spec (time + delay d) time') as [Hle|_]; [lia|]. simpl.
  rewrite Nat.eqb_refl. simpl. rewrite app_nil_r. split; [|auto].
  exists (nextId t). rewrite Hnow, Z.max_r by lia. auto.
Qed.

(** The next notification comes after the queued call was due: the
    queued call has run. *)
Lemma notify_late d t (time : Z) args (time' : Z) args' :
  oneQueued d t time args -> (0 <= delay d)%Z -> (time + delay d < time')%Z ->
  let '(d', t') := callDebounced d args' (advanceTo time' t) in
  oneQueued d' t' time' args' /\ delay d' = delay d /\ invoked t' = invoked t ++ [args].
Proof.
  intros (id & Hid & Hq & Hnow) Hdelay Hgap.
  unfold callDebounced, setTimeout, clearTimeout, advanceTo. rewrite Hid, Hq. simpl.
  destruct (Z.leb_spec (time + delay d) time') as [_|Hlt]; [|lia]. simpl.
  split; [|auto].
  exists (nextId t). rewrite Hnow, Z.max_r by lia. auto.
Qed.

Lemma deliver_burst (rest : list (Z * Args)) : forall d t (time : Z) args,
  oneQueued d t time args ->
  Forall (fun g => 0 <= g < delay d)%Z (gaps (time :: map fst rest)) ->
  let '(d', t') := deliver d t rest in
  oneQueued d' t' (fst (List.last rest (time, args))) (snd (List.last rest (time, args)))
  /\ delay d' = delay d /\ invoked t' = invoked t.
Proof.
  induction rest as [|[time' args'] rest IH]; intros d t time args Hone Hgaps.
  - simpl. auto.
  - simpl in Hgaps. apply Forall_cons_iff in Hgaps as [Hgap Hgaps].
    cbn [deliver].
    pose proof (notify_early d t time args time' args' Hone ltac:(lia)) as Hstep.
    destruct (callDebounced d args' (advanceTo time' t)) as [d1 t1].
    destruct Hstep as (Hone1 & Hd1 & Hi1).
    rewrite <- Hd1 in Hgaps.
    specialize (IH d1 t1 time' args' Hone1 Hgaps).
    destruct (deliver d1 t1 rest) as [d2 t2].
    rewrite last_cons_default. destruct IH as (? & ? & ?).
    repeat split; [assumption|congruence|congruence].
Qed.

Lemma deliver_spaced (rest : list (Z * Args)) : forall d t (time : Z) args,
  oneQueued d t time args -> (0 <= delay d)%Z ->
  Forall (fun g => delay d < g)%Z (gaps (time :: map fst rest)) ->
  let '(d', t') := deliver d t rest in
  oneQueued d' t' (fst (List.last rest (time, args))) (snd (List.last rest (time, args)))
  /\ delay d' = delay d
  /\ invoked t' ++ [snd (List.last rest (time, args))] = invoked t ++ args :: map snd rest.
Proof.
  induction rest as [|[time' args'] rest IH]; intros d t time args Hone Hdelay Hgaps.
  - simpl. auto.
  - simpl in Hgaps. apply Forall_cons_iff in Hgaps as [Hgap Hgaps].
    cbn [deliver].
    pose proof (notify_late d t time args time' args' Hone Hdelay ltac:(lia)) as Hstep.
    destruct (callDebounced d args' (advanceTo time' t)) as [d1 t1].
    destruct Hstep as (Hone1 & Hd1 & Hi1).
    rewrite <- Hd1 in Hgaps, Hdelay.
    specialize (IH d1 t1 time' args' Hone1 Hdelay Hgaps).
    destruct (deliver d1 t1 rest) as [d2 t2].
    rewrite last_cons_default. destruct IH as (? & ? & Hinv).
    repeat split; [assumption|congruence|].
    rewrite Hinv, Hi1. cbn [map snd]. now rewrite <- app_assoc.
Qed.

(** When one call is queued and the clock runs on, that call is made. *)
Lemma flush_oneQueued d t (time : Z) args :
  oneQueued d t time args ->
  invoked (advanceTo (fold_left Z.max (map timer_due (queue t)) (now t)) t)
  = invoked t ++ [args].
Proof.
  intros (id & Hid & Hq & Hnow). unfold advanceTo. rewrite Hq. simpl.
  destruct (Z.leb_spec (time + delay d) (Z.max (now t) (time + delay d))) as [_|Hlt];
    [reflexivity|lia].
Qed.

(** C8.  Notifications that all come within 500 time units of the
    first (more generally: each less than 500 after the one before)
    lead to exactly one call of the handler, with the arguments of the
    last notification; notifications that each come more than 500 time
    units after the one before lead to one call each, in their order,
    with their own arguments. *)
Theorem debounce_burst_one_spaced_each (start : Z) (first : Z * Args)
        (rest : list (Z * Args)) :
  (start <= fst first)%Z ->
  (Forall (fun g => 0 <= g)%Z (gaps (map fst (first :: rest))) ->
   (fst (List.last rest first) - fst first < 500)%Z ->
   invocations debouncedHandleEditorMutation start (first :: rest)
   = [snd (List.last rest first)])
  /\ (Forall (fun g => 0 <= g < 500)%Z (gaps (map fst (first :: rest))) ->
      invocations debouncedHandleEditorMutation start (first :: rest)
      = [snd (List.last rest first)])
  /\ (Forall (fun g => 500 < g)%Z (gaps (map fst (first :: rest))) ->
      invocations debouncedHandleEditorMutation start (first :: rest)
      = map snd (first :: rest)
      /\ length (invocations debouncedHandleEditorMutation start (first :: rest))
         = length (first :: rest)).
Proof.
  intros Hstart. destruct first as [time1 args1].
  pose proof (notify_first debouncedHandleEditorMutation (mkTimers start 0 [] []) args1 time1
                eq_refl eq_refl Hstart) as Hfirst.
  unfold invocations. cbn [deliver].
  destruct (callDebounced debouncedHandleEditorMutation args1
              (advanceTo time1 (mkTimers start 0 [] []))) as [d1 t1].
  destruct Hfirst as (Hone & Hd & Hi). simpl in Hd, Hi.
  assert (Hburst : Forall (fun g => 0 <= g < 500)%Z (gaps (time1 :: map fst rest)) ->
                   (let '(_, t) := deliver d1 t1 rest in
                    invoked (advanceTo (fold_left Z.max (map timer_due (queue t)) (now t)) t))
                   = [snd (List.last rest (time1, args1))]).
  { intros Hgaps.
    pose proof (deliver_burst rest d1 t1 time1 args1 Hone) as Hrun.
    rewrite Hd in Hrun. specialize (Hrun Hgaps).
    destruct (deliver d1 t1 rest) as [d2 t2]. destruct Hrun as (Hone2 & _ & Hi2).
    rewrite (flush_oneQueued _ _ _ _ Hone2), Hi2, Hi. reflexivity. }
  split; [|split].
  - intros Hgaps Hspan. cbn [map fst] in Hgaps. apply Hburst.
    apply gaps_within_span; [exact Hgaps|].
    cbn [fst] in Hspan.
    replace (List.last (map fst rest) time1) with (fst (List.last rest (time1, args1)));
      [exact Hspan|].
    clear. revert time1 args1. induction rest as [|[t a] rest IH]; intros time1 args1;
      [reflexivity|].
    cbn [map fst]. rewrite !last_cons_default. apply IH.
  - intros Hgaps. cbn [map fst] in Hgaps. now apply Hburst.
  - intros Hgaps. cbn [map fst] in Hgaps.
    pose proof (deliver_spaced rest d1 t1 time1 args1 Hone) as Hrun.
    rewrite Hd in Hrun. specialize (Hrun ltac:(lia) Hgaps).
    destruct (deliver d1 t1 rest) as [d2 t2]. destruct Hrun as (Hone2 & _ & Hi2).
    rewrite (flush_oneQueued _ _ _ _ Hone2), Hi2, Hi.
    split; [reflexivity|]. simpl. now rewrite length_map.
Qed.
End DebounceProperties.

Lemma debounce_burst_one_spaced_each_witness :
  invocations debouncedHandleEditorMutation 0%Z [(0%Z, "a"); (100%Z, "b"); (499%Z, "c")]
  = ["c"]
  /\ invocations debouncedHandleEditorMutation 0%Z [(0%Z, "a"); (501%Z, "b"); (1002%Z, "c")]
     = ["a"; "b"; "c"].
Proof.
  split.
  - apply (proj1 (debounce_burst_one_spaced_each 0%Z (0%Z, "a") [(100%Z, "b"); (499%Z, "c")]
                    ltac:(simpl; lia))).
    + simpl. repeat constructor; lia.
    + simpl. lia.
  - apply (proj2 (proj2 (debounce_burst_one_spaced_each 0%Z (0%Z, "a") [(501%Z, "b"); (1002%Z, "c")]
                           ltac:(simpl; lia)))).
    simpl. repeat constructor; lia.
Defined.

(** ** Resolution of a region's direction *)

Section Resolution.
Context `{UnicodeData}.
#[local] Arguments getBlockDirection : simpl never.

Lemma reclassifyEditor_data_direction (w : World) (el e : Element) :
  data_direction (attrs (dom (reclassifyEditor w el)) e) = data_direction (attrs (dom w) e).
Proof.
  unfold reclassifyEditor. repeat case_match; try reflexivity.
  simpl. unfold insert, fn_insert. repeat case_decide; subst; reflexivity.
Qed.

Lemma handleEditorMutationInner_data_direction (w : World) (mutations : list MutationRecord)
      (e : Element) :
  data_direction (attrs (dom (handleEditorMutationInner w mutations)) e)
  = data_direction (attrs (dom w) e).
Proof.
  unfold handleEditorMutationInner.
  generalize (changedEditorElements w mutations) as changed. intros changed.
  revert w. induction changed as [|el changed IH]; intros w; simpl; [reflexivity|].
  rewrite IH. apply reclassifyEditor_data_direction.
Qed.

(** What [applyDirectionToElement] leaves on an element of the page. *)
Lemma applyDirectionToElement_attrs (w : World) (el : Element) (direction : DirectionSetting) :
  bodyContains (host w) el = true ->
  let effectiveDirection :=
    match direction with
    | auto =>
        if enableAdvancedTextDetection (settings (plugin w))
        then getBlockDirection (JsString (textContent (host w) el))
        else if bool_decide (globalDefaultDirection (settings (plugin w)) = auto)
             then ltr else globalDefaultDirection (settings (plugin w))
    | _ => direction
    end in
  let s := attrs (dom (applyDirectionToElement w (Some el) direction)) el in
  data_direction s = Some direction
  /\ data_effective_direction s = Some effectiveDirection
  /\ modeClass effectiveDirection ∈ classList s.
Proof.
  intros Hbody. unfold applyDirectionToElement. rewrite Hbody. cbn [negb].
  assert (Hadd : forall (name : string) (l : list string),
             name ∈ (if bool_decide (name ∈ l) then l else l ++ [name])).
  { intros name l. case_bool_decide; [assumption|]. apply elem_of_app. right. now left. }
  destruct direction; [| |destruct (enableAdvancedTextDetection (settings (plugin w)))];
    simpl; unfold insert, fn_insert; repeat (rewrite decide_True by reflexivity; simpl);
    repeat split; apply Hadd.
Qed.
End Resolution.

(** ** The engine's operations *)

Section EngineProperties.
Context `{UnicodeData}.
#[local] Arguments getBlockDirection : simpl never.

(** C6.  For an element of the page whose setting is auto-detect: with
    detection off, the direction applied is the global default, or
    left-to-right when the global default is auto-detect too; with
    detection on, it is what the detector gives for the element's
    text. *)
Theorem auto_falls_back_to_global_default (w : World) (el : Element) :
  bodyContains (host w) el = true ->
  let applied := attrs (dom (applyDirectionToElement w (Some el) auto)) el in
  (enableAdvancedTextDetection (settings (plugin w)) = false ->
   data_effective_direction applied
   = Some (match globalDefaultDirection (settings (plugin w)) with
           | auto => ltr
           | concreteDefault => concreteDefault
           end)
   /\ modeClass (match globalDefaultDirection (settings (plugin w)) with
                 | auto => ltr
                 | concreteDefault => concreteDefault
                 end) ∈ classList applied)
  /\ (enableAdvancedTextDetection (settings (plugin w)) = true ->
      data_effective_direction applied
      = Some (getBlockDirection (JsString (textContent (host w) el)))
      /\ modeClass (getBlockDirection (JsString (textContent (host w) el)))
           ∈ classList applied).
Proof.
  intros Hbody applied.
  pose proof (applyDirectionToElement_attrs w el auto Hbody) as (_ & Heff & Hcls).
  fold applied in Heff, Hcls. split; intros Hdet; rewrite Hdet in Heff, Hcls.
  - destruct (globalDefaultDirection (settings (plugin w))); simpl in Heff, Hcls; auto.
  - auto.
Qed.

Lemma setNoteDirection_override (w : World) (file : TFile) (direction : option DirectionSetting) :
  getActiveFile (host w) = Some file -> extension file = "md" ->
  activeNoteOverride (plugin (setNoteDirection w direction)) = direction
  /\ host (setNoteDirection w direction) = host w.
Proof.
  intros Hfile Hext. unfold setNoteDirection.
  rewrite Hfile, Hext, String.eqb_refl. cbn [negb].
  match goal with
  | |- context [refreshActiveEditorDirection ?w0] =>
      destruct (refreshActiveEditorDirection_reconciles w0) as (Hh & _ & Hov & _)
  end.
  rewrite Hov, Hh. split; reflexivity.
Qed.

Lemma statusBarClick_override (w : World) (file : TFile) :
  getActiveFile (host w) = Some file -> extension file = "md" ->
  activeNoteOverride (plugin (statusBarClick w)) = nextDirection (activeNoteOverride (plugin w))
  /\ host (statusBarClick w) = host w.
Proof.
  intros Hfile Hext. unfold statusBarClick.
  rewrite Hfile, Hext, String.eqb_refl. cbn [negb].
  now apply setNoteDirection_override with (file := file).
Qed.

Lemma statusBarClick_idle (w : World) :
  (forall file, getActiveFile (host w) = Some file -> extension file <> "md") ->
  statusBarClick w = w.
Proof.
  intros Hno. unfold statusBarClick.
  destruct (getActiveFile (host w)) as [file|]; [|reflexivity].
  destruct (String.eqb_spec (extension file) "md") as [Hmd|_]; [|reflexivity].
  now destruct (Hno file eq_refl).
Qed.

Lemma statusBarClick_iter (w : World) (file : TFile) (n : nat) :
  getActiveFile (host w) = Some file -> extension file = "md" ->
  activeNoteOverride (plugin (Nat.iter n statusBarClick w))
  = Nat.iter n nextDirection (activeNoteOverride (plugin w))
  /\ host (Nat.iter n statusBarClick w) = host w.
Proof.
  intros Hfile Hext. induction n as [|n [IHo IHh]]; [split; reflexivity|].
  rewrite !Nat.iter_succ.
  destruct (statusBarClick_override (Nat.iter n statusBarClick w) file) as [Ho Hh];
    [now rewrite IHh|assumption|].
  rewrite Ho, Hh, IHo, IHh. split; reflexivity.
Qed.

(** C7.  The status-bar click takes the override from none to
    left-to-right, to right-to-left, to auto-detect and back to none,
    and so on; four clicks bring any override back to itself. *)
Theorem status_bar_cycle (w : World) :
  (nextDirection None = Some ltr
   /\ nextDirection (Some ltr) = Some rtl
   /\ nextDirection (Some rtl) = Some auto
   /\ nextDirection (Some auto) = None)
  /\ activeNoteOverride (plugin (Nat.iter 4 statusBarClick w))
     = activeNoteOverride (plugin w)
  /\ (forall file,
         getActiveFile (host w) = Some file -> extension file = "md" ->
         activeNoteOverride (plugin (statusBarClick w))
         = nextDirection (activeNoteOverride (plugin w))
         /\ (activeNoteOverride (plugin w) = None ->
             map (fun n => activeNoteOverride (plugin (Nat.iter n statusBarClick w)))
                 [1; 2; 3; 4; 5; 6; 7; 8]%nat
             = [Some ltr; Some rtl; Some auto; None;
                Some ltr; Some rtl; Some auto; None])).
Proof.
  split; [repeat split|]. split.
  - destruct (getActiveFile (host w)) as [file|] eqn:Hfile.
    + destruct (String.eqb_spec (extension file) "md") as [Hmd|Hmd].
      * rewrite (proj1 (statusBarClick_iter w file 4 Hfile Hmd)).
        destruct (activeNoteOverride (plugin w)) as [[| |]|]; reflexivity.
      * assert (Hidle : statusBarClick w = w).
        { apply statusBarClick_idle. intros f Hf. congruence. }
        cbn [Nat.iter nat_rect]. now rewrite !Hidle.
    + assert (Hidle : statusBarClick w = w).
      { apply statusBarClick_idle. intros f Hf. congruence. }
      cbn [Nat.iter nat_rect]. now rewrite !Hidle.
  - intros file Hfile Hext. split.
    + exact (proj1 (statusBarClick_iter w file 1 Hfile Hext)).
    + intros Hnone. cbn [map].
      rewrite !(proj1 (statusBarClick_iter w file _ Hfile Hext)), Hnone. reflexivity.
Qed.

Lemma tryCatch_readOverride (h : Host) (file : option TFile) :
  exists o, tryCatch (readOverride h file) (mret None) = Normal o.
Proof. destruct (readOverride h file) as [o|]; simpl; eauto. Qed.

Lemma handleFileOpen_normal (w : World) (file : option TFile) (o : option DirectionSetting) :
  tryCatch (readOverride (host w) file) (mret None) = Normal o ->
  handleFileOpen w file
  = Normal (refreshActiveEditorDirection (withPlugin w (withOverride (plugin w) o))).
Proof. intros Hread. unfold handleFileOpen. rewrite Hread. reflexivity. Qed.

Lemma handleFileOpen_override (w : World) (file : option TFile) (o : option DirectionSetting) :
  tryCatch (readOverride (host w) file) (mret None) = Normal o ->
  exists w', handleFileOpen w file = Normal w' /\ activeNoteOverride (plugin w') = o.
Proof.
  intros Hread. rewrite (handleFileOpen_normal _ _ _ Hread).
  eexists. split; [reflexivity|].
  match goal with
  | |- context [refreshActiveEditorDirection ?w0] =>
      destruct (refreshActiveEditorDirection_reconciles w0) as (_ & _ & Hov & _)
  end.
  rewrite Hov. reflexivity.
Qed.

(** C9.  Opening a markdown note: a front matter whose [direction] is
    one of ["ltr"], ["rtl"], ["auto"] makes that the override; a read
    that throws, no cache, no front matter, no [direction] key, or a
    value that is none of the three strings, gives no override; and
    [handleFileOpen] completes normally for every file and every state
    of the host. *)
Theorem handleFileOpen_reads_override (w : World) (file : TFile) :
  extension file = "md" ->
  (forall fm d,
      getFileCache (host w) file = Normal (Some (mkCache (Some fm))) ->
      fm !! "direction" = Some (JsString (units (directionName d))) ->
      overrideAfterOpen w file (Some d))
  /\ (getFileCache (host w) file = Throw -> overrideAfterOpen w file None)
  /\ (getFileCache (host w) file = Normal None -> overrideAfterOpen w file None)
  /\ (getFileCache (host w) file = Normal (Some (mkCache None)) ->
      overrideAfterOpen w file None)
  /\ (forall fm,
         getFileCache (host w) file = Normal (Some (mkCache (Some fm))) ->
         fm !! "direction" = None ->
         overrideAfterOpen w file None)
  /\ (forall fm v,
         getFileCache (host w) file = Normal (Some (mkCache (Some fm))) ->
         fm !! "direction" = Some v ->
         v <> JsString (units "ltr") -> v <> JsString (units "rtl") ->
         v <> JsString (units "auto") ->
         overrideAfterOpen w file None)
  /\ (forall anyFile, exists w', handleFileOpen w anyFile = Normal w').
Proof.
  intros Hext.
  assert (Hread : forall r,
             getFileCache (host w) file = r ->
             readOverride (host w) (Some file)
             = (fileCache ← r;
                let v := directionFromFm (fileCache ≫= frontmatter) in
                mret (if truthy v then includedDirection v else None))).
  { intros r <-. unfold readOverride. rewrite Hext, String.eqb_refl. reflexivity. }
  repeat split.
  - intros fm d Hcache Hkey. apply handleFileOpen_override.
    rewrite (Hread _ Hcache). simpl. rewrite Hkey. destruct d; reflexivity.
  - intros Hcache. apply handleFileOpen_override. now rewrite (Hread _ Hcache).
  - intros Hcache. apply handleFileOpen_override. now rewrite (Hread _ Hcache).
  - intros Hcache. apply handleFileOpen_override. now rewrite (Hread _ Hcache).
  - intros fm Hcache Hkey. apply handleFileOpen_override.
    rewrite (Hread _ Hcache). simpl. now rewrite Hkey.
  - intros fm v Hcache Hkey Hl Hr Ha. apply handleFileOpen_override.
    rewrite (Hread _ Hcache). simpl. rewrite Hkey. simpl.
    destruct v as [| |s|b]; simpl; try reflexivity.
    + repeat (case_bool_decide; [congruence|]). now destruct (negb _).
    + now destruct b.
  - intros anyFile. destruct (tryCatch_readOverride (host w) anyFile) as [o Ho].
    destruct (handleFileOpen_override w anyFile o Ho) as (w' & Hw' & _). eauto.
Qed.
End EngineProperties.

(** ** Every write of an effective direction *)

Section Writes.
Context `{UnicodeData}.
#[local] Arguments getBlockDirection : simpl never.

Lemma reconciles_writes (w w' : World) : reconciles w w' -> writesExtend (dom w) (dom w').
Proof. now intros (_ & _ & _ & Hw). Qed.

Lemma handleFileOpen_writes (w : World) (file : option TFile) :
  exists w', handleFileOpen w file = Normal w' /\ writesExtend (dom w) (dom w').
Proof.
  destruct (tryCatch_readOverride (host w) file) as [o Ho].
  rewrite (handleFileOpen_normal _ _ _ Ho). eexists. split; [reflexivity|].
  exact (reconciles_writes _ _ (refreshActiveEditorDirection_reconciles
                                  (withPlugin w (withOverride (plugin w) o)))).
Qed.

Lemma clearActiveNoteOverrideAndRefreshEditor_writes (w : World) :
  writesExtend (dom w) (dom (clearActiveNoteOverrideAndRefreshEditor w)).
Proof.
  unfold clearActiveNoteOverrideAndRefreshEditor.
  destruct (bool_decide (activeNoteOverride (plugin w) ≠ None)).
  - exact (reconciles_writes _ _ (refreshActiveEditorDirection_reconciles
                                    (withPlugin w (withOverride (plugin w) None)))).
  - apply writesExtend_refl.
Qed.

Lemma setNoteDirection_writes (w : World) (direction : option DirectionSetting) :
  writesExtend (dom w) (dom (setNoteDirection w direction)).
Proof.
  unfold setNoteDirection.
  destruct (getActiveFile (host w)) as [activeFile|]; [|apply writesExtend_refl].
  destruct (negb (String.eqb (extension activeFile) "md")); [apply writesExtend_refl|].
  exact (reconciles_writes _ _ (refreshActiveEditorDirection_reconciles
           (updateNoteFrontmatterDirection
              (withPlugin w (withOverride (plugin w) direction)) activeFile direction))).
Qed.

Lemma statusBarClick_writes (w : World) :
  writesExtend (dom w) (dom (statusBarClick w)).
Proof.
  unfold statusBarClick.
  destruct (getActiveFile (host w)) as [activeFile|]; [|apply writesExtend_refl].
  destruct (negb (String.eqb (extension activeFile) "md")); [apply writesExtend_refl|].
  apply setNoteDirection_writes.
Qed.

Lemma onload_writes (w : World) (stored : option IntelligentRtlSettings) :
  exists w', onload w stored = Normal w' /\ writesExtend (dom w) (dom w').
Proof.
  unfold onload.
  set (w0 := withPlugin w (withSettings (plugin w) (default DEFAULT_SETTINGS stored))).
  pose proof (reconciles_writes _ _ (applyAllUiSettings_reconciles w0)) as Happly.
  set (w1 := applyAllUiSettings w0) in *.
  set (w2 := withPlugin (withPlugin w1 _) _).
  destruct (getActiveFile (host w2)) as [activeFile|].
  - destruct (handleFileOpen_writes w2 (Some activeFile)) as (w' & Hw' & Hext).
    exists w'. split; [exact Hw'|].
    eapply writesExtend_trans; [exact Happly|exact Hext].
  - exists w2. split; [reflexivity|exact Happly].
Qed.

Lemma handle_writes (w : World) (ev : Event) :
  exists w', handle w ev = Normal w' /\ writesExtend (dom w) (dom w').
Proof.
  destruct ev as [stored| |h|file|leaf| |dir|s|mutations|mutations]; cbn [handle].
  - apply onload_writes.
  - eexists. split; [reflexivity|apply writesExtend_refl].
  - eexists. split; [reflexivity|apply writesExtend_refl].
  - apply handleFileOpen_writes.
  - destruct leaf as [l|];
      [destruct (view_class (leaf_view l)), (view_file (leaf_view l))|];
      try apply handleFileOpen_writes;
      (eexists; split; [reflexivity|apply clearActiveNoteOverrideAndRefreshEditor_writes]).
  - eexists. split; [reflexivity|apply statusBarClick_writes].
  - eexists. split; [reflexivity|apply setNoteDirection_writes].
  - eexists. split; [reflexivity|].
    exact (reconciles_writes _ _ (applyAllUiSettings_reconciles
                                    (withPlugin w (withSettings (plugin w) s)))).
  - eexists. split; [reflexivity|].
    apply reconciles_writes, handleEditorMutationInner_reconciles.
  - eexists. split; [reflexivity|].
    apply reconciles_writes, handleCanvasMutation_reconciles.
Qed.

Lemma run_writes (evs : list Event) : forall w,
  exists w', run w evs = Normal w' /\ writesExtend (dom w) (dom w').
Proof.
  induction evs as [|ev evs IH]; intros w; cbn [run].
  - exists w. split; [reflexivity|apply writesExtend_refl].
  - destruct (handle_writes w ev) as (w1 & Hw1 & He1). rewrite Hw1.
    destruct (IH w1) as (w2 & Hw2 & He2). exists w2. split; [exact Hw2|].
    eapply writesExtend_trans; eassumption.
Qed.

Lemma concrete_not_auto (new : list (Element * DirectionSetting)) :
  Forall (fun ev => concrete (snd ev)) new ->
  Forall (fun ev => (snd ev = ltr \/ snd ev = rtl) /\ snd ev <> auto) new.
Proof.
  intros Hall. eapply List.Forall_impl; [|exact Hall].
  intros [e v] Hv. split; [exact Hv|].
  destruct Hv as [Hv|Hv]; simpl in *; congruence.
Qed.

(** C10.  Whatever happens to the plugin, and in whatever order, the
    values it writes to [data-effective-direction] are ['ltr'] or
    ['rtl'], never ['auto']: so for [applyDirectionToElement], for the
    mutation handler, and for every run of events; and every run
    completes. *)
Theorem effective_direction_is_concrete :
  (forall w element direction,
      exists new,
        effectiveWrites (dom (applyDirectionToElement w element direction))
        = effectiveWrites (dom w) ++ new
        /\ Forall (fun ev => (snd ev = ltr \/ snd ev = rtl) /\ snd ev <> auto) new)
  /\ (forall w mutations,
         exists new,
           effectiveWrites (dom (handleEditorMutationInner w mutations))
           = effectiveWrites (dom w) ++ new
           /\ Forall (fun ev => (snd ev = ltr \/ snd ev = rtl) /\ snd ev <> auto) new)
  /\ (forall w evs,
         exists w' new,
           run w evs = Normal w'
           /\ effectiveWrites (dom w') = effectiveWrites (dom w) ++ new
           /\ Forall (fun ev => (snd ev = ltr \/ snd ev = rtl) /\ snd ev <> auto) new).
Proof.
  repeat split.
  - intros w element direction.
    destruct (reconciles_writes _ _ (applyDirectionToElement_reconciles w element direction))
      as (new & Hnew & Hall).
    exists new. split; [exact Hnew|now apply concrete_not_auto].
  - intros w mutations.
    destruct (reconciles_writes _ _ (handleEditorMutationInner_reconciles w mutations))
      as (new & Hnew & Hall).
    exists new. split; [exact Hnew|now apply concrete_not_auto].
  - intros w evs. destruct (run_writes evs w) as (w' & Hrun & new & Hnew & Hall).
    exists w', new. repeat split; [exact Hrun|exact Hnew|now apply concrete_not_auto].
Qed.

End Writes.

(** ** The observed set across a pass *)

Section Observers.
Context `{UnicodeData}.

Lemma applyDirectionToElement_plugin (w : World) (element : option Element)
      (direction : DirectionSetting) :
  plugin (applyDirectionToElement w element direction) = plugin w.
Proof.
  unfold applyDirectionToElement.
  destruct element as [el|]; [|reflexivity].
  destruct (negb (bodyContains (host w) el)); [reflexivity|].
  destruct direction; try reflexivity.
  destruct (enableAdvancedTextDetection (settings (plugin w))); reflexivity.
Qed.

Lemma reclassifyEditor_plugin (w : World) (el : Element) :
  plugin (reclassifyEditor w el) = plugin w.
Proof. unfold reclassifyEditor. repeat case_match; reflexivity. Qed.

Lemma handleEditorMutationInner_plugin (w : World) (mutations : list MutationRecord) :
  plugin (handleEditorMutationInner w mutations) = plugin w.
Proof.
  unfold handleEditorMutationInner.
  generalize (changedEditorElements w mutations) as changed. intros changed.
  revert w. induction changed as [|el changed IH]; intros w; simpl; [reflexivity|].
  rewrite IH. apply reclassifyEditor_plugin.
Qed.

Lemma fold_applyDirectionToElement_plugin {A} (f : World -> A -> option Element)
      (g : World -> A -> DirectionSetting) (l : list A) (w : World) :
  plugin (fold_left (fun w x => applyDirectionToElement w (f w x) (g w x)) l w) = plugin w.
Proof.
  revert w. induction l as [|x l IH]; intros w; simpl; [reflexivity|].
  rewrite IH. apply applyDirectionToElement_plugin.
Qed.

Lemma applyLeafOther_plugin (w : World) (leaf : Leaf) :
  plugin (applyLeafOther w leaf) = plugin w.
Proof.
  unfold applyLeafOther. repeat case_match; try reflexivity; apply applyDirectionToElement_plugin.
Qed.

Lemma fold_applyLeafOther_plugin (l : list Leaf) (w : World) :
  plugin (fold_left applyLeafOther l w) = plugin w.
Proof.
  revert w. induction l as [|x l IH]; intros w; simpl; [reflexivity|].
  rewrite IH. apply applyLeafOther_plugin.
Qed.

Lemma editorObservedLe_refl (p : Plugin) : editorObservedLe p p.
Proof. split; [set_solver|auto]. Qed.

Lemma editorObservedLe_trans (p1 p2 p3 : Plugin) :
  editorObservedLe p1 p2 -> editorObservedLe p2 p3 -> editorObservedLe p1 p3.
Proof. intros [Hs1 Ho1] [Hs2 Ho2]. split; [set_solver|auto]. Qed.

Lemma manageObserver_editorObservedLe (k : ObserverKind) (w : World) (element : option Element)
      (shouldObserve : bool) (logName : string) :
  editorObservedLe (plugin w) (plugin (manageObserver k w element shouldObserve logName)).
Proof.
  unfold manageObserver.
  destruct (observerOf k (plugin w)) as [targets|] eqn:Hobs; [|apply editorObservedLe_refl].
  destruct element as [el|]; [|apply editorObservedLe_refl].
  destruct shouldObserve; [|apply editorObservedLe_refl].
  destruct (bool_decide (el ∈ observedSetOf k (plugin w))); [apply editorObservedLe_refl|].
  match goal with
  | |- editorObservedLe _ (plugin (if ?c then _ else _)) => destruct c
  end; rewrite ?handleEditorMutationInner_plugin;
    destruct k; simpl; split; simpl; try set_solver; auto.
Qed.

Lemma applyLeafEditorOrCanvas_observed (acc : World * gset Element * gset Element)
      (leaf : Leaf) :
  editorObservedLe (plugin acc.1.1) (plugin (applyLeafEditorOrCanvas acc leaf).1.1)
  /\ acc.1.2 ⊆ (applyLeafEditorOrCanvas acc leaf).1.2
  /\ (forall el,
         view_class (leaf_view leaf) = MarkdownView ->
         querySelector (host acc.1.1) (containerEl (leaf_view leaf)) ".cm-content" = Some el ->
         el ∈ (applyLeafEditorOrCanvas acc leaf).1.2).
Proof.
  destruct acc as [[w ed] cv]. unfold applyLeafEditorOrCanvas. cbn [fst snd].
  destruct (bool_decide (view_class (leaf_view leaf) = MarkdownView)) eqn:Hmd.
  - destruct (querySelector (host w) (containerEl (leaf_view leaf)) ".cm-content") as [el|];
      cbn [fst snd].
    + split; [|split; [set_solver|]].
      * eapply editorObservedLe_trans; [|apply manageObserver_editorObservedLe].
        rewrite applyDirectionToElement_plugin. apply editorObservedLe_refl.
      * intros el' _ Heq. simplify_eq. set_solver.
    + split; [apply editorObservedLe_refl|]. split; [set_solver|]. intros el' _ Heq. discriminate.
  - assert (Hnot : view_class (leaf_view leaf) <> MarkdownView).
    { intros Heq. rewrite (bool_decide_eq_true_2 _ Heq) in Hmd. discriminate. }
    destruct (String.eqb (viewType (leaf_view leaf)) "canvas").
    + destruct (querySelector (host w) (containerEl (leaf_view leaf)) ".canvas-nodes");
        cbn [fst snd]; rewrite fold_applyDirectionToElement_plugin.
      * split; [apply manageObserver_editorObservedLe|]. split; [set_solver|]. tauto.
      * split; [apply editorObservedLe_refl|]. split; [set_solver|]. tauto.
    + cbn [fst snd]. split; [apply editorObservedLe_refl|]. split; [set_solver|]. tauto.
Qed.

Lemma fold_applyLeafEditorOrCanvas_observed (l : list Leaf) :
  forall acc : World * gset Element * gset Element,
    editorObservedLe (plugin acc.1.1) (plugin (fold_left applyLeafEditorOrCanvas l acc).1.1)
    /\ acc.1.2 ⊆ (fold_left applyLeafEditorOrCanvas l acc).1.2
    /\ (forall leaf el,
           In leaf l ->
           view_class (leaf_view leaf) = MarkdownView ->
           querySelector (host acc.1.1) (containerEl (leaf_view leaf)) ".cm-content" = Some el ->
           el ∈ (fold_left applyLeafEditorOrCanvas l acc).1.2).
Proof.
  induction l as [|leaf0 l IH]; intros acc; cbn [fold_left].
  - split; [apply editorObservedLe_refl|]. split; [set_solver|]. intros leaf el [].
  - destruct (applyLeafEditorOrCanvas_observed acc leaf0) as (Hle0 & Hsub0 & Hin0).
    destruct (applyLeafEditorOrCanvas_reconciles acc leaf0) as (Hhost & _).
    destruct (IH (applyLeafEditorOrCanvas acc leaf0)) as (Hle & Hsub & Hin).
    split; [eapply editorObservedLe_trans; eassumption|].
    split; [intros x Hx; apply Hsub, Hsub0, Hx|].
    intros leaf el [<-|Hl] Hmd Hq.
    + apply Hsub, Hin0; assumption.
    + apply (Hin leaf el Hl Hmd). now rewrite Hhost.
Qed.

Lemma cleanupOldObservers_editor_keeps (w : World) (current : gset Element) (el : Element) :
  el ∈ observedEditorElements (plugin w) ->
  bodyContains (host w) el = true -> el ∈ current ->
  el ∈ observedEditorElements (plugin (cleanupOldObservers EditorObserver w current)).
Proof.
  intros Hobs Hbody Hcur. unfold cleanupOldObservers. cbn [observerOf observedSetOf].
  destruct (editorMutationObserver (plugin w)) as [targets|]; [|exact Hobs].
  match goal with
  | |- context [if ?c then _ else _] => destruct c
  end; cbn; apply elem_of_filter; rewrite Hbody; repeat split; auto.
Qed.

Lemma cleanupOldObservers_canvas_editor (w : World) (current : gset Element) :
  observedEditorElements (plugin (cleanupOldObservers CanvasObserver w current))
  = observedEditorElements (plugin w).
Proof.
  unfold cleanupOldObservers. cbn [observerOf observedSetOf].
  destruct (canvasObserver (plugin w)) as [targets|]; [|reflexivity].
  match goal with
  | |- context [if ?c then _ else _] => destruct c
  end; reflexivity.
Qed.

(** C3.  An editor content element that is observed, is on the page and
    belongs to a markdown leaf is still in [observedEditorElements] after
    a pass of [applyAllUiSettings], whatever direction its setting now
    resolves to: also when the editor setting has become a concrete
    direction. *)
Theorem observed_editor_kept_by_pass (w : World) (leaf : Leaf) (el : Element) :
  In leaf (leaves (host w)) ->
  view_class (leaf_view leaf) = MarkdownView ->
  querySelector (host w) (containerEl (leaf_view leaf)) ".cm-content" = Some el ->
  bodyContains (host w) el = true ->
  is_Some (editorMutationObserver (plugin w)) ->
  el ∈ observedEditorElements (plugin w) ->
  el ∈ observedEditorElements (plugin (applyAllUiSettings w))
  /\ settings (plugin (applyAllUiSettings w)) = settings (plugin w).
Proof.
  intros Hleaf Hmd Hq Hbody Hobserver Hobserved.
  split; [|apply applyAllUiSettings_reconciles].
  unfold applyAllUiSettings.
  destruct (fold_applyLeafEditorOrCanvas_observed (leaves (host w)) (w, ∅, ∅))
    as ([Hsub _] & _ & Hin).
  pose proof (fold_applyLeafEditorOrCanvas_reconciles (leaves (host w)) (w, ∅, ∅)) as (Hhost & _).
  specialize (Hin leaf el Hleaf Hmd Hq).
  destruct (fold_left applyLeafEditorOrCanvas (leaves (host w)) (w, ∅, ∅)) as [[w1 ed] cv].
  cbn [fst snd] in *.
  rewrite fold_applyLeafOther_plugin, !applyDirectionToElement_plugin,
    cleanupOldObservers_canvas_editor.
  apply cleanupOldObservers_editor_keeps; [set_solver|now rewrite Hhost|exact Hin].
Qed.
End Observers.

Lemma observed_editor_kept_by_pass_witness :
  direction (editor (settings (plugin observedLtrWorld))) = ltr
  /\ 11%positive ∈ observedEditorElements
                     (plugin (@applyAllUiSettings basicLatinData observedLtrWorld)).
Proof.
  split; [reflexivity|].
  apply (proj1 (@observed_editor_kept_by_pass basicLatinData observedLtrWorld editorLeaf
                  11%positive (or_introl eq_refl) eq_refl eq_refl eq_refl
                  (ex_intro _ _ eq_refl) (proj2 (elem_of_singleton _ _) eq_refl))).
Defined.

(** The same on a run of the plugin: a pass under the default settings
    observes the editor; the editor setting is then set to left-to-right
    and the pass that follows leaves the editor observed. *)
Example observed_editor_run :
  exists w1 w2,
    @run basicLatinData oneEditorWorld [EvSettingsChanged DEFAULT_SETTINGS] = Normal w1
    /\ observedEditorElements (plugin w1) = {[ 11%positive ]}
    /\ @run basicLatinData w1 [EvSettingsChanged (withEditorDirection DEFAULT_SETTINGS ltr)]
       = Normal w2
    /\ direction (editor (settings (plugin w2))) = ltr
    /\ data_effective_direction (attrs (dom w2) 11%positive) = Some ltr
    /\ observedEditorElements (plugin w2) = {[ 11%positive ]}
    /\ editorMutationObserver (plugin w2) = Some {[ 11%positive ]}.
Proof.
  eexists _, _. split; [reflexivity|]. split; [vm_compute; reflexivity|].
  split; [reflexivity|]. repeat split; vm_compute; reflexivity.
Qed.


(** ** The theorems at work on the one-editor workspace *)

Lemma auto_falls_back_to_global_default_witness :
  data_effective_direction
    (attrs (dom (@applyDirectionToElement basicLatinData (detectionWorld false rtl)
                   (Some 11%positive) auto)) 11%positive) = Some rtl
  /\ data_effective_direction
       (attrs (dom (@applyDirectionToElement basicLatinData (detectionWorld true rtl)
                      (Some 11%positive) auto)) 11%positive)
     = Some (@getBlockDirection basicLatinData (JsString (units "hello"))).
Proof.
  split.
  - exact (proj1 (proj1 (@auto_falls_back_to_global_default basicLatinData
                           (detectionWorld false rtl) 11%positive eq_refl) eq_refl)).
  - exact (proj1 (proj2 (@auto_falls_back_to_global_default basicLatinData
                           (detectionWorld true rtl) 11%positive eq_refl) eq_refl)).
Defined.

Lemma status_bar_cycle_witness :
  map (fun n => activeNoteOverride
                  (plugin (Nat.iter n (@statusBarClick basicLatinData) oneEditorWorld)))
      [1; 2; 3; 4; 5; 6; 7; 8]%nat
  = [Some ltr; Some rtl; Some auto; None; Some ltr; Some rtl; Some auto; None].
Proof.
  exact (proj2 (proj2 (proj2 (@status_bar_cycle basicLatinData oneEditorWorld))
                  noteFile eq_refl eq_refl) eq_refl).
Defined.

Lemma handleFileOpen_reads_override_witness :
  @overrideAfterOpen basicLatinData
     (cacheWorld (Normal (Some (mkCache (Some rtlFrontmatter))))) noteFile (Some rtl)
  /\ @overrideAfterOpen basicLatinData (cacheWorld Throw) noteFile None.
Proof.
  split.
  - apply (proj1 (@handleFileOpen_reads_override basicLatinData
                    (cacheWorld (Normal (Some (mkCache (Some rtlFrontmatter)))))
                    noteFile eq_refl) rtlFrontmatter rtl eq_refl).
    vm_compute. reflexivity.
  - apply (proj1 (proj2 (@handleFileOpen_reads_override basicLatinData
                           (cacheWorld Throw) noteFile eq_refl))).
    reflexivity.
Defined.

(** ** The matcher and the prefix patterns *)

Lemma takeWhile_dropWhile {A} (p : A -> bool) (l : list A) :
  takeWhile p l ++ dropWhile p l = l.
Proof.
  induction l as [|x l IH]; simpl; [reflexivity|].
  destruct (p x); simpl; [now rewrite IH|reflexivity].
Qed.

Lemma takeWhile_Forall {A} (p : A -> bool) (l : list A) :
  Forall (fun x => p x = true) (takeWhile p l).
Proof.
  induction l as [|x l IH]; simpl; [constructor|].
  destruct (p x) eqn:Hp; [constructor; assumption|constructor].
Qed.

Lemma skipn_takeWhile {A} (p : A -> bool) (l : list A) :
  skipn (length (takeWhile p l)) l = dropWhile p l.
Proof.
  induction l as [|x l IH]; simpl; [reflexivity|].
  destruct (p x); simpl; [exact IH|reflexivity].
Qed.

Lemma dropWhile_head {A} (p : A -> bool) (l : list A) :
  match dropWhile p l with
  | [] => True
  | c :: _ => p c = false
  end.
Proof.
  induction l as [|x l IH]; simpl; [exact I|].
  destruct (p x) eqn:Hp; [exact IH|exact Hp].
Qed.

Lemma firstn_takeWhile_Forall {A} (p : A -> bool) (l : list A) (k : nat) :
  (k <= length (takeWhile p l))%nat -> Forall (fun x => p x = true) (firstn k l).
Proof.
  revert k. induction l as [|x l IH]; intros k Hk.
  - destruct k; constructor.
  - destruct k as [|k]; [constructor|]. simpl in Hk |- *.
    destruct (p x) eqn:Hp; simpl in Hk; [|lia].
    constructor; [exact Hp|apply IH; lia].
Qed.

Lemma takeWhile_app_stop {A} (p : A -> bool) (run s : list A) :
  Forall (fun x => p x = true) run ->
  match s with [] => True | c :: _ => p c = false end ->
  takeWhile p (run ++ s) = run.
Proof.
  intros Hrun Hs. induction Hrun as [|x run Hx _ IH]; simpl.
  - destruct s as [|c s]; simpl; [reflexivity|now rewrite Hs].
  - now rewrite Hx, IH.
Qed.

Lemma tryDown_some {R} (k : nat -> option R) (lo d : nat) (r : R) :
  tryDown k lo d = Some r -> exists i, (lo <= i <= lo + d)%nat /\ k i = Some r.
Proof.
  induction d as [|d IH]; simpl.
  - destruct (k (lo + 0)%nat) eqn:Hk; [|discriminate].
    intros [= <-]. exists (lo + 0)%nat. split; [lia|exact Hk].
  - destruct (k (lo + S d)%nat) eqn:Hk.
    + intros [= <-]. exists (lo + S d)%nat. split; [lia|exact Hk].
    + intros Hd. destruct (IH Hd) as (i & Hi & Hki). exists i. split; [lia|exact Hki].
Qed.

Lemma tryDown_none {R} (k : nat -> option R) (lo d : nat) :
  (forall i, (lo <= i <= lo + d)%nat -> k i = None) -> tryDown k lo d = None.
Proof.
  induction d as [|d IH]; intros Hall; simpl.
  - now rewrite (Hall (lo + 0)%nat) by lia.
  - rewrite (Hall (lo + S d)%nat) by lia. apply IH. intros i Hi. apply Hall. lia.
Qed.

Lemma tryDown_top {R} (k : nat -> option R) (lo d : nat) (r : R) :
  k (lo + d)%nat = Some r -> tryDown k lo d = Some r.
Proof. intros Hk. destruct d; simpl; now rewrite Hk. Qed.

(** What a match removes is a leading part of the text, made of
    characters of the pattern's classes. *)
Lemma matchSeq_removes_prefix (r : list Atom) : forall (s rest : jsString),
  matchSeq r s = Some rest ->
  exists pre, s = pre ++ rest
              /\ Forall (fun c => Exists (fun a => atom_cls a c = true) r) pre.
Proof.
  induction r as [|a r IH]; intros s rest Hm.
  - simpl in Hm. injection Hm as <-. exists []. split; [reflexivity|constructor].
  - cbn [matchSeq] in Hm.
    set (run := length (takeWhile (atom_cls a) s)) in *.
    set (n := match atom_max a with Some hi => Nat.min hi run | None => run end) in *.
    destruct (n <? atom_min a)%nat eqn:Hlt; [discriminate|].
    apply Nat.ltb_ge in Hlt.
    apply tryDown_some in Hm as (k & Hk & Hm).
    assert (Hkrun : (k <= run)%nat).
    { subst n. destruct (atom_max a); lia. }
    destruct (IH _ _ Hm) as (pre & Hpre & Hall).
    exists (firstn k s ++ pre). split.
    + rewrite <- app_assoc, <- Hpre. now rewrite firstn_skipn.
    + apply Forall_app. split.
      * eapply List.Forall_impl; [|apply (firstn_takeWhile_Forall _ _ _ Hkrun)].
        intros c Hc. now apply Exists_cons_hd.
      * eapply List.Forall_impl; [|exact Hall]. intros c Hc. now apply Exists_cons_tl.
Qed.

(** The greedy attempt of the first atom succeeds when the rest of the
    pattern matches right after the longest run. *)
Lemma matchSeq_greedy (a : Atom) (r : list Atom) (run s rest : jsString) :
  Forall (fun c => atom_cls a c = true) run ->
  startsOutside (atom_cls a) s ->
  (atom_min a <= length run)%nat ->
  (forall hi, atom_max a = Some hi -> (length run <= hi)%nat) ->
  matchSeq r s = Some rest ->
  matchSeq (a :: r) (run ++ s) = Some rest.
Proof.
  intros Hrun Hs Hmin Hmax Hrest. cbn [matchSeq].
  rewrite (takeWhile_app_stop _ _ _ Hrun Hs).
  set (n := match atom_max a with Some hi => Nat.min hi (length run) | None => length run end).
  assert (Hn : n = length run).
  { subst n. destruct (atom_max a) as [hi|]; [|reflexivity]. specialize (Hmax hi eq_refl). lia. }
  rewrite Hn. destruct (Nat.ltb_spec (length run) (atom_min a)) as [Hlt|_]; [lia|].
  apply tryDown_top.
  replace (atom_min a + (length run - atom_min a))%nat with (length run) by lia.
  now rewrite skipn_app, skipn_all, Nat.sub_diag.
Qed.

Lemma chr_true (a : ascii) (c : Z) : chr a c = true -> c = Z.of_nat (nat_of_ascii a).
Proof. unfold chr. apply Z.eqb_eq. Qed.

Lemma anyOf_true (l : list ascii) (c : Z) :
  anyOf l c = true -> exists a, In a l /\ c = Z.of_nat (nat_of_ascii a).
Proof.
  unfold anyOf. intros Hex. apply existsb_exists in Hex as (a & Hin & Ha).
  exists a. split; [exact Hin|now apply chr_true].
Qed.

Lemma prefix_classes_marker (r : list Atom) (a : Atom) (c : Z) :
  In r markdownPrefixes -> In a r -> atom_cls a c = true -> markerChar c = true.
Proof.
  assert (Hws : isWhiteSpace c = true -> markerChar c = true).
  { intros Hc. unfold markerChar. now rewrite Hc. }
  assert (Hdg : isDigit c = true -> markerChar c = true).
  { intros Hc. unfold markerChar. rewrite Hc. now rewrite orb_true_r. }
  assert (Hchr : forall x, markerChar (Z.of_nat (nat_of_ascii x)) = true ->
                           chr x c = true -> markerChar c = true).
  { intros x Hx Hc. apply chr_true in Hc. now subst. }
  assert (Hany : forall l, forallb (fun x => markerChar (Z.of_nat (nat_of_ascii x))) l = true ->
                           anyOf l c = true -> markerChar c = true).
  { intros l Hl Hc. apply anyOf_true in Hc as (x & Hin & ->).
    rewrite forallb_forall in Hl. now apply Hl. }
  unfold markdownPrefixes, taskListPrefix, unorderedListPrefix, orderedListPrefix,
    headerPrefix, blockquotePrefix.
  intros Hr Ha.
  repeat (destruct Hr as [<-|Hr]; [
    repeat (destruct Ha as [<-|Ha]; [
      cbn [atom_cls star plus one opt rep];
      first [exact Hws | exact Hdg | apply Hchr; reflexivity | apply Hany; reflexivity]
    |]); destruct Ha
  |]); destruct Hr.
Qed.

Lemma replacePrefix_removes_markers (r : list Atom) (s : jsString) :
  In r markdownPrefixes ->
  exists pre, s = pre ++ replacePrefix r s /\ Forall (fun c => markerChar c = true) pre.
Proof.
  intros Hr. unfold replacePrefix. destruct (matchSeq r s) as [rest|] eqn:Hm.
  - destruct (matchSeq_removes_prefix r s rest Hm) as (pre & Hpre & Hall).
    exists pre. split; [exact Hpre|].
    eapply List.Forall_impl; [|exact Hall]. intros c Hc.
    apply List.Exists_exists in Hc as (a & Ha & Hcls). exact (prefix_classes_marker r a c Hr Ha Hcls).
  - exists []. split; [reflexivity|constructor].
Qed.

Lemma strip_removes_markers (s : jsString) :
  exists pre,
    s = pre ++ stripMarkdownPrefixes s
    /\ Forall (fun c => markerChar c = true) pre.
Proof.
  unfold stripMarkdownPrefixes.
  assert (Hgen : forall prefixes t,
             (forall r, In r prefixes -> In r markdownPrefixes) ->
             exists pre,
               t = pre ++ fold_left (fun processedText prefixRegex =>
                                       replacePrefix prefixRegex processedText) prefixes t
               /\ Forall (fun c => markerChar c = true) pre).
  { induction prefixes as [|r prefixes IH]; intros t Hin; cbn [fold_left].
    - exists []. split; [reflexivity|constructor].
    - destruct (replacePrefix_removes_markers r t (Hin r (or_introl eq_refl)))
        as (pre1 & Hpre1 & Hall1).
      destruct (IH (replacePrefix r t) (fun r' Hr' => Hin r' (or_intror Hr')))
        as (pre2 & Hpre2 & Hall2).
      exists (pre1 ++ pre2). split.
      + rewrite <- app_assoc, <- Hpre2. exact Hpre1.
      + apply Forall_app. split; assumption. }
  apply Hgen. auto.
Qed.

(** X1.  Prefix stripping takes characters away only at the front of the
    text, and only marker characters: white space, digits and
    [- * + [ ] x X . ) # >].  What is left is the input from some
    position on, unchanged. *)
Theorem stripMarkdownPrefixes_removes_leading_markers (s : jsString) :
  exists pre,
    s = pre ++ stripMarkdownPrefixes s
    /\ Forall (fun c => markerChar c = true) pre.
Proof. exact (strip_removes_markers s). Qed.

Lemma matchSeq_cons (a : Atom) (r : list Atom) (s : jsString) :
  matchSeq (a :: r) s
  = if (greedyCount a s <? atom_min a)%nat then None
    else tryDown (fun k => matchSeq r (skipn k s)) (atom_min a) (greedyCount a s - atom_min a).
Proof. reflexivity. Qed.

Lemma matchSeq_head_fail (a : Atom) (r : list Atom) (s : jsString) :
  startsOutside (atom_cls a) s -> (1 <= atom_min a)%nat -> matchSeq (a :: r) s = None.
Proof.
  intros Hs Hmin. cbn [matchSeq].
  assert (Hrun : takeWhile (atom_cls a) s = []).
  { destruct s as [|c s]; simpl in *; [reflexivity|now rewrite Hs]. }
  rewrite Hrun. simpl length.
  destruct (atom_max a) as [hi|]; rewrite ?Nat.min_0_r;
    destruct (Nat.ltb_spec 0 (atom_min a)); try reflexivity; lia.
Qed.

Lemma takeWhile_app_ge {A} (p : A -> bool) (run s : list A) :
  Forall (fun x => p x = true) run -> (length run <= length (takeWhile p (run ++ s)))%nat.
Proof.
  intros Hrun. induction Hrun as [|x run Hx _ IH]; simpl; [lia|].
  rewrite Hx. simpl. lia.
Qed.

Lemma hashes_Forall (n : nat) : Forall (fun c => chr "#" c = true) (hashes n).
Proof. unfold hashes. induction n; simpl; constructor; [reflexivity|assumption]. Qed.

Lemma skipn_hashes (j n : nat) (rest : jsString) :
  (j <= n)%nat -> skipn j (hashes n ++ rest) = hashes (n - j) ++ rest.
Proof.
  unfold hashes. revert n. induction j as [|j IH]; intros n Hj.
  - now rewrite Nat.sub_0_r.
  - destruct n as [|n]; [lia|]. simpl. apply IH. lia.
Qed.

Lemma hashes_starts_outside_ws (n : nat) (rest : jsString) :
  (1 <= n)%nat -> startsOutside isWhiteSpace (hashes n ++ rest).
Proof. destruct n as [|n]; [lia|]. intros _. reflexivity. Qed.

Lemma whitespace_not_hash (c : Z) : isWhiteSpace c = true -> chr "#" c = false.
Proof.
  intros Hws. destruct (chr "#" c) eqn:Hc; [|reflexivity].
  apply chr_true in Hc. subst. discriminate.
Qed.

Lemma skipn_run_starts {A} (p q : A -> bool) (run s : list A) (i : nat) :
  Forall (fun x => p x = true) run -> (forall x, p x = true -> q x = false) ->
  (i < length run)%nat ->
  match skipn i (run ++ s) with [] => True | c :: _ => q c = false end.
Proof.
  intros Hrun Hpq. revert i. induction Hrun as [|x run Hx _ IH]; intros i Hi; simpl in Hi.
  - lia.
  - destruct i as [|i]; simpl; [now apply Hpq|apply IH; lia].
Qed.

(** X2.  The heading pattern [#{1,6}] followed by white space: one to
    six [#] and the white space after them are removed, with any
    indentation before them; seven or more [#] are not a heading and the
    text stays as it is; so does a run of [#] with no white space after
    it. *)
Theorem header_prefix_one_to_six_hashes (n : nat) (rest : jsString) :
  (forall ind ws,
      (1 <= n <= 6)%nat ->
      Forall (fun c => isWhiteSpace c = true) ind ->
      Forall (fun c => isWhiteSpace c = true) ws -> ws <> [] ->
      startsOutside isWhiteSpace rest ->
      replacePrefix headerPrefix (ind ++ hashes n ++ ws ++ rest) = rest)
  /\ (forall ind,
         (7 <= n)%nat ->
         Forall (fun c => isWhiteSpace c = true) ind ->
         replacePrefix headerPrefix (ind ++ hashes n ++ rest) = ind ++ hashes n ++ rest)
  /\ (forall ind,
         (1 <= n)%nat ->
         Forall (fun c => isWhiteSpace c = true) ind ->
         startsOutside isWhiteSpace rest -> startsOutside (chr "#") rest ->
         replacePrefix headerPrefix (ind ++ hashes n ++ rest) = ind ++ hashes n ++ rest).
Proof.
  assert (Hfail : forall ind (s : jsString),
             Forall (fun c => isWhiteSpace c = true) ind ->
             startsOutside isWhiteSpace s ->
             matchSeq [rep (chr "#") 1 6; plus isWhiteSpace] s = None ->
             replacePrefix headerPrefix (ind ++ s) = ind ++ s).
  { intros ind s Hind Hs Hnone. unfold replacePrefix, headerPrefix.
    rewrite matchSeq_cons.
    change (atom_min (star isWhiteSpace)) with 0%nat.
    change (greedyCount (star isWhiteSpace) (ind ++ s))
      with (length (takeWhile isWhiteSpace (ind ++ s))).
    rewrite (takeWhile_app_stop _ _ _ Hind Hs).
    rewrite (proj2 (Nat.ltb_ge _ _)) by lia.
    rewrite tryDown_none; [reflexivity|].
    intros i Hi. cbv beta. destruct (Nat.eq_dec i (length ind)) as [->|Hne].
    - rewrite skipn_app, skipn_all, Nat.sub_diag. exact Hnone.
    - apply matchSeq_head_fail; [|simpl; lia].
      apply (skipn_run_starts isWhiteSpace (chr "#") ind s i Hind whitespace_not_hash). lia. }
  split; [|split].
  - intros ind ws Hn Hind Hws Hne Hrest.
    unfold replacePrefix, headerPrefix.
    rewrite (matchSeq_greedy (star isWhiteSpace) _ ind (hashes n ++ ws ++ rest) rest);
      [reflexivity|exact Hind|apply hashes_starts_outside_ws; lia|simpl; lia|discriminate|].
    apply (matchSeq_greedy (rep (chr "#") 1 6) _ (hashes n) (ws ++ rest) rest).
    + apply hashes_Forall.
    + destruct ws as [|c ws]; [congruence|]. simpl.
      apply whitespace_not_hash. now inversion Hws.
    + unfold hashes. rewrite repeat_length. simpl. lia.
    + intros hi [= <-]. unfold hashes. rewrite repeat_length. lia.
    + apply (matchSeq_greedy (plus isWhiteSpace) [] ws rest rest);
        [exact Hws|exact Hrest| |discriminate|reflexivity].
      destruct ws; [congruence|simpl; lia].
  - intros ind Hn Hind. apply Hfail; [exact Hind|apply hashes_starts_outside_ws; lia|].
    rewrite matchSeq_cons.
    change (atom_min (rep (chr "#") 1 6)) with 1%nat.
    change (greedyCount (rep (chr "#") 1 6) (hashes n ++ rest))
      with (Nat.min 6 (length (takeWhile (chr "#") (hashes n ++ rest)))).
    pose proof (takeWhile_app_ge (chr "#") (hashes n) rest (hashes_Forall n)) as Hrun.
    unfold hashes in Hrun at 1. rewrite repeat_length in Hrun.
    rewrite Nat.min_l by lia. rewrite (proj2 (Nat.ltb_ge _ _)) by lia.
    apply tryDown_none. intros j Hj. cbv beta.
    rewrite skipn_hashes by lia.
    apply matchSeq_head_fail; [apply hashes_starts_outside_ws; lia|simpl; lia].
  - intros ind Hn Hind Hrws Hrh. apply Hfail; [exact Hind|apply hashes_starts_outside_ws; lia|].
    rewrite matchSeq_cons.
    change (atom_min (rep (chr "#") 1 6)) with 1%nat.
    change (greedyCount (rep (chr "#") 1 6) (hashes n ++ rest))
      with (Nat.min 6 (length (takeWhile (chr "#") (hashes n ++ rest)))).
    rewrite (takeWhile_app_stop _ _ _ (hashes_Forall n) Hrh).
    assert (Hlen : length (hashes n) = n) by apply repeat_length.
    rewrite Hlen. rewrite (proj2 (Nat.ltb_ge _ _)) by lia.
    apply tryDown_none. intros j Hj. cbv beta.
    rewrite skipn_hashes by lia.
    apply matchSeq_head_fail; [|simpl; lia].
    destruct (Nat.eq_dec j n) as [->|Hne].
    + rewrite Nat.sub_diag. exact Hrws.
    + apply hashes_starts_outside_ws. lia.
Qed.

Lemma header_prefix_one_to_six_hashes_witness :
  replacePrefix headerPrefix (units "  ### title") = units "title"
  /\ replacePrefix headerPrefix (units "####### title") = units "####### title"
  /\ replacePrefix headerPrefix (units "#title") = units "#title".
Proof.
  split; [|split].
  - apply (proj1 (header_prefix_one_to_six_hashes 3 (units "title")) (units "  ") (units " ")).
    + lia.
    + repeat constructor.
    + repeat constructor.
    + discriminate.
    + reflexivity.
  - apply (proj1 (proj2 (header_prefix_one_to_six_hashes 7 (units " title"))) []).
    + lia.
    + constructor.
  - apply (proj2 (proj2 (header_prefix_one_to_six_hashes 1 (units "title"))) []).
    + lia.
    + constructor.
    + reflexivity.
    + reflexivity.
Defined.

Lemma digit_not_whitespace (c : Z) : isDigit c = true -> isWhiteSpace c = false.
Proof.
  intros Hd. unfold isDigit in Hd. apply andb_true_iff in Hd as [H1 H2].
  apply Z.leb_le in H1, H2. unfold isWhiteSpace.
  repeat match goal with
         | |- context [(c =? ?k)%Z] => rewrite (proj2 (Z.eqb_neq c k)) by lia
         end.
  rewrite (proj2 (Z.leb_gt 0x2000 c)) by lia. reflexivity.
Qed.

Lemma separator_cases (c : Z) :
  anyOf ["."; ")"]%char c = true -> c = 0x2E%Z \/ c = 0x29%Z.
Proof.
  intros Hc. apply anyOf_true in Hc as (a & Hin & ->).
  destruct Hin as [<-|[<-|[]]]; [now left|now right].
Qed.

Lemma digit_not_separator (c : Z) : isDigit c = true -> anyOf ["."; ")"]%char c = false.
Proof.
  intros Hd. destruct (anyOf ["."; ")"]%char c) eqn:Hc; [|reflexivity].
  apply separator_cases in Hc as [->| ->]; discriminate.
Qed.

Lemma whitespace_not_separator (c : Z) :
  isWhiteSpace c = true -> anyOf ["."; ")"]%char c = false.
Proof.
  intros Hw. destruct (anyOf ["."; ")"]%char c) eqn:Hc; [|reflexivity].
  apply separator_cases in Hc as [->| ->]; discriminate.
Qed.

Lemma separator_not_digit (c : Z) : anyOf ["."; ")"]%char c = true -> isDigit c = false.
Proof. intros Hc. apply separator_cases in Hc as [->| ->]; reflexivity. Qed.

Lemma takeWhile_cons_true {A} (p : A -> bool) (x : A) (l : list A) :
  p x = true -> takeWhile p (x :: l) = x :: takeWhile p l.
Proof. intros Hx. simpl. now rewrite Hx. Qed.

Lemma tryDown_zero {R} (k : nat -> option R) : tryDown k 0 0 = k 0%nat.
Proof. simpl. now destruct (k 0%nat). Qed.

Lemma startsOutside_app (p : Z -> bool) (l s : jsString) (c : Z) :
  p c = false -> startsOutside p ((c :: l) ++ s).
Proof. intros Hc. exact Hc. Qed.

Lemma startsOutside_run (p q : Z -> bool) (run s : jsString) :
  Forall (fun c => p c = true) run -> run <> [] ->
  (forall c, p c = true -> q c = false) ->
  startsOutside q (run ++ s).
Proof.
  intros Hrun Hne Hpq. destruct Hrun as [|c run Hc _]; [congruence|]. simpl. now apply Hpq.
Qed.

(** X3.  The ordered-list pattern: digits, then [.] or [)], then white
    space are removed, with any indentation before them.  Digits that are
    not followed by [.] or [)], and digits followed by [.] or [)] with no
    white space after it, are left in the text. *)
Theorem ordered_list_prefix_needs_separator_and_space (ds rest : jsString) :
  Forall (fun c => isDigit c = true) ds -> ds <> [] ->
  (forall ind sep ws,
      Forall (fun c => isWhiteSpace c = true) ind ->
      anyOf ["."; ")"]%char sep = true ->
      Forall (fun c => isWhiteSpace c = true) ws -> ws <> [] ->
      startsOutside isWhiteSpace rest ->
      replacePrefix orderedListPrefix (ind ++ ds ++ sep :: ws ++ rest) = rest)
  /\ (startsOutside isDigit rest -> startsOutside (anyOf ["."; ")"]%char) rest ->
      replacePrefix orderedListPrefix (ds ++ rest) = ds ++ rest)
  /\ (forall sep,
         anyOf ["."; ")"]%char sep = true ->
         startsOutside isWhiteSpace rest ->
         replacePrefix orderedListPrefix (ds ++ sep :: rest) = ds ++ sep :: rest).
Proof.
  intros Hds Hne.
  assert (Hfail : forall s : jsString,
             startsOutside isDigit s ->
             (forall j, (1 <= j <= length ds)%nat ->
                        matchSeq [one (anyOf ["."; ")"]%char); plus isWhiteSpace]
                                 (skipn j (ds ++ s)) = None) ->
             replacePrefix orderedListPrefix (ds ++ s) = ds ++ s).
  { intros s Hs Hall. unfold replacePrefix, orderedListPrefix.
    rewrite matchSeq_cons.
    change (atom_min (star isWhiteSpace)) with 0%nat.
    change (greedyCount (star isWhiteSpace) (ds ++ s))
      with (length (takeWhile isWhiteSpace (ds ++ s))).
    replace (takeWhile isWhiteSpace (ds ++ s)) with (@nil Z).
    2:{ destruct Hds as [|c ds' Hc _]; [congruence|]. simpl.
        now rewrite (digit_not_whitespace c Hc). }
    change (length (@nil Z) - 0)%nat with 0%nat.
    change (length (@nil Z) <? 0)%nat with false. cbv iota.
    rewrite tryDown_zero. change (skipn 0 (ds ++ s)) with (ds ++ s).
    rewrite matchSeq_cons.
    change (atom_min (plus isDigit)) with 1%nat.
    change (greedyCount (plus isDigit) (ds ++ s)) with (length (takeWhile isDigit (ds ++ s))).
    rewrite (takeWhile_app_stop _ _ _ Hds Hs).
    assert (Hlen : (1 <= length ds)%nat) by (destruct ds; [congruence|simpl; lia]).
    rewrite (proj2 (Nat.ltb_ge _ _)) by lia.
    rewrite tryDown_none; [reflexivity|].
    intros j Hj. apply Hall. lia. }
  split; [|split].
  - intros ind sep ws Hind Hsep Hws Hwne Hrest.
    unfold replacePrefix, orderedListPrefix.
    rewrite (matchSeq_greedy (star isWhiteSpace) _ ind (ds ++ sep :: ws ++ rest) rest);
      [reflexivity|exact Hind| |simpl; lia|discriminate|].
    { apply (startsOutside_run isDigit isWhiteSpace ds _ Hds Hne digit_not_whitespace). }
    apply (matchSeq_greedy (plus isDigit) _ ds (sep :: ws ++ rest) rest);
      [exact Hds|exact (separator_not_digit sep Hsep)| |discriminate|].
    { destruct ds; [congruence|simpl; lia]. }
    apply (matchSeq_greedy (one (anyOf ["."; ")"]%char)) _ [sep] (ws ++ rest) rest).
    + constructor; [exact Hsep|constructor].
    + apply (startsOutside_run isWhiteSpace _ ws rest Hws Hwne whitespace_not_separator).
    + simpl. lia.
    + intros hi [= <-]. simpl. lia.
    + apply (matchSeq_greedy (plus isWhiteSpace) [] ws rest rest);
        [exact Hws|exact Hrest| |discriminate|reflexivity].
      destruct ws; [congruence|simpl; lia].
  - intros Hrd Hrs. apply Hfail; [exact Hrd|].
    intros j Hj. apply matchSeq_head_fail; [|simpl; lia].
    destruct (Nat.eq_dec j (length ds)) as [->|Hlt].
    + rewrite skipn_app, skipn_all, Nat.sub_diag. exact Hrs.
    + apply (skipn_run_starts isDigit _ ds rest j Hds digit_not_separator). lia.
  - intros sep Hsep Hrest. apply Hfail; [exact (separator_not_digit sep Hsep)|].
    intros j Hj. destruct (Nat.eq_dec j (length ds)) as [->|Hlt].
    + rewrite skipn_app, skipn_all, Nat.sub_diag. cbn [skipn app].
      rewrite matchSeq_cons.
      change (atom_min (one (anyOf ["."; ")"]%char))) with 1%nat.
      change (greedyCount (one (anyOf ["."; ")"]%char)) (sep :: rest))
        with (Nat.min 1 (length (takeWhile (anyOf ["."; ")"]%char) (sep :: rest)))).
      assert (Hrun : (1 <= length (takeWhile (anyOf ["."; ")"]%char) (sep :: rest)))%nat).
      { rewrite (takeWhile_cons_true _ _ _ Hsep). simpl. lia. }
      rewrite Nat.min_l by lia. cbn [Nat.ltb Nat.leb Nat.sub].
      apply tryDown_none. intros i Hi. cbv beta.
      replace i with 1%nat by lia. cbn [skipn].
      apply matchSeq_head_fail; [exact Hrest|simpl; lia].
    + apply matchSeq_head_fail; [|simpl; lia].
      apply (skipn_run_starts isDigit _ ds (sep :: rest) j Hds digit_not_separator). lia.
Qed.

Lemma ordered_list_prefix_needs_separator_and_space_witness :
  replacePrefix orderedListPrefix (units " 12) Hello") = units "Hello"
  /\ replacePrefix orderedListPrefix (units "2024 was") = units "2024 was"
  /\ replacePrefix orderedListPrefix (units "1.5 is") = units "1.5 is".
Proof.
  split; [|split].
  - apply (proj1 (ordered_list_prefix_needs_separator_and_space (units "12") (units "Hello")
                    ltac:(repeat constructor) ltac:(discriminate))
                 (units " ") 0x29%Z (units " ")).
    + repeat constructor.
    + reflexivity.
    + repeat constructor.
    + discriminate.
    + reflexivity.
  - apply (proj1 (proj2 (ordered_list_prefix_needs_separator_and_space
                           (units "2024") (units " was")
                           ltac:(repeat constructor) ltac:(discriminate))));
      reflexivity.
  - apply (proj2 (proj2 (ordered_list_prefix_needs_separator_and_space
                           (units "1") (units "5 is")
                           ltac:(repeat constructor) ltac:(discriminate))) 0x2E%Z);
      reflexivity.
Defined.

Lemma trim_decompose (s : jsString) :
  exists w1 w2,
    s = w1 ++ trim s ++ w2
    /\ Forall (fun c => isWhiteSpace c = true) w1
    /\ Forall (fun c => isWhiteSpace c = true) w2.
Proof.
  exists (takeWhile isWhiteSpace s),
         (rev (takeWhile isWhiteSpace (rev (dropWhile isWhiteSpace s)))).
  split; [|split].
  - unfold trim. rewrite <- rev_app_distr, takeWhile_dropWhile, rev_involutive.
    symmetry. apply takeWhile_dropWhile.
  - apply takeWhile_Forall.
  - apply Forall_rev, takeWhile_Forall.
Qed.

Lemma trim_ends (s : jsString) :
  startsOutside isWhiteSpace (trim s) /\ startsOutside isWhiteSpace (rev (trim s)).
Proof.
  unfold trim. rewrite rev_involutive. split; [|apply dropWhile_head].
  pose proof (dropWhile_head isWhiteSpace s) as Hhead.
  pose proof (takeWhile_dropWhile isWhiteSpace (rev (dropWhile isWhiteSpace s))) as Hsplit.
  apply (f_equal (@rev Z)) in Hsplit. rewrite rev_app_distr, rev_involutive in Hsplit.
  destruct (rev (dropWhile isWhiteSpace (rev (dropWhile isWhiteSpace s)))) as [|c t];
    [exact I|].
  rewrite <- Hsplit in Hhead. exact Hhead.
Qed.

Section PreprocessProperties.
Context `{UnicodeData}.

(** X4.  The text the detector scans is one contiguous piece of the
    input: in front of it only marker characters and neutral characters
    were dropped, behind it only white space; the piece is empty or begins
    with a character that is not neutral, and it does not end in white
    space. *)
Theorem preprocess_keeps_contiguous_text (s : jsString) :
  exists pre post,
    s = pre ++ preprocess s ++ post
    /\ Forall (fun c => markerChar c || isNeutral c = true) pre
    /\ Forall (fun c => isWhiteSpace c = true) post
    /\ startsOutside isNeutral (preprocess s)
    /\ startsOutside isWhiteSpace (rev (preprocess s)).
Proof.
  destruct (strip_removes_markers s) as (p1 & Hp1 & Hm1).
  destruct (trim_decompose (stripMarkdownPrefixes s)) as (w1 & w2 & Hw & Hw1 & Hw2).
  unfold preprocess. rewrite skipn_takeWhile.
  set (t := trim (stripMarkdownPrefixes s)) in *.
  exists (p1 ++ w1 ++ takeWhile isNeutral t), w2.
  split; [|split; [|split; [|split]]].
  - rewrite <- !app_assoc. rewrite (app_assoc (takeWhile isNeutral t)).
    rewrite takeWhile_dropWhile. rewrite <- Hw. exact Hp1.
  - apply Forall_app. split; [|apply Forall_app; split].
    + eapply List.Forall_impl; [|exact Hm1]. intros c Hc. now rewrite Hc.
    + eapply List.Forall_impl; [|exact Hw1]. intros c Hc. unfold isNeutral.
      rewrite Hc. now rewrite orb_true_r.
    + eapply List.Forall_impl; [|apply takeWhile_Forall]. intros c Hc. cbv beta in Hc.
      rewrite Hc. now rewrite orb_true_r.
  - exact Hw2.
  - apply dropWhile_head.
  - pose proof (proj2 (trim_ends (stripMarkdownPrefixes s))) as Hend. fold t in Hend.
    pose proof (takeWhile_dropWhile isNeutral t) as Hsplit.
    destruct (dropWhile isNeutral t) as [|c d] eqn:Hd; [exact I|].
    rewrite <- Hsplit, rev_app_distr in Hend.
    destruct (rev (c :: d)) as [|x r] eqn:Hr; [|exact Hend].
    apply (f_equal (@length Z)) in Hr. rewrite length_rev in Hr.
    cbn [length] in Hr. discriminate Hr.
Qed.
End PreprocessProperties.

(** ** Marking an element *)

Lemma filter_filter_same {A} (f : A -> bool) (l : list A) :
  List.filter f (List.filter f l) = List.filter f l.
Proof.
  induction l as [|x l IH]; simpl; [reflexivity|].
  destruct (f x) eqn:Hf; simpl; [rewrite Hf; now rewrite IH|exact IH].
Qed.

Lemma filter_In_false {A} (f : A -> bool) (l : list A) (x : A) :
  f x = false -> ~ In x (List.filter f l).
Proof. intros Hf Hin. apply filter_In in Hin as [_ Hx]. congruence. Qed.

Lemma modeClass_directionClass (v : DirectionSetting) : modeClass v ∈ directionClasses.
Proof. destruct v; unfold directionClasses; set_solver. Qed.

Lemma not_directionClass_filter (classes : list string) (name : string) :
  name ∈ directionClasses ->
  name ∉ List.filter (fun c => negb (bool_decide (c ∈ directionClasses))) classes.
Proof.
  intros Hname Hin. apply list_elem_of_In in Hin.
  apply filter_In in Hin as [_ Hf].
  rewrite (bool_decide_eq_true_2 _ Hname) in Hf. discriminate.
Qed.

Section Marking.
Context `{UnicodeData}.
#[local] Arguments getBlockDirection : simpl never.

(** The state of [el] after [applyDirectionToElement]. *)
Lemma applyDirectionToElement_state (w : World) (el : Element) (direction : DirectionSetting) :
  bodyContains (host w) el = true ->
  attrs (dom (applyDirectionToElement w (Some el) direction)) el
  = mkElem (markedClasses (classList (attrs (dom w) el)) direction
                          (effectiveDirectionOf w el direction))
           (Some direction) (Some (effectiveDirectionOf w el direction)).
Proof.
  intros Hbody. unfold applyDirectionToElement. rewrite Hbody. cbn [negb].
  set (F := List.filter (fun c => negb (bool_decide (c ∈ directionClasses)))
                        (classList (attrs (dom w) el))).
  assert (Hauto : bool_decide ("auto-detect-direction" ∈ F) = false).
  { apply bool_decide_eq_false_2, not_directionClass_filter.
    unfold directionClasses. set_solver. }
  assert (Hmode : forall v, bool_decide (modeClass v ∈ F) = false).
  { intros v. apply bool_decide_eq_false_2, not_directionClass_filter,
      modeClass_directionClass. }
  assert (Hmode' : forall v, bool_decide (modeClass v ∈ F ++ ["auto-detect-direction"]) = false).
  { intros v. apply bool_decide_eq_false_2. intros Hin.
    apply elem_of_app in Hin as [Hin|Hin].
    - revert Hin. apply not_directionClass_filter, modeClass_directionClass.
    - apply list_elem_of_singleton in Hin. destruct v; discriminate. }
  unfold markedClasses, effectiveDirectionOf. fold F.
  destruct direction;
    [| |destruct (enableAdvancedTextDetection (settings (plugin w)))];
    cbn [dom withDom classList_add classList_remove set_data_direction
         remove_data_effective_direction set_data_effective_direction onElement attrs
         classList data_direction data_effective_direction];
    unfold insert, fn_insert; rewrite !decide_True by reflexivity;
    cbn [classList data_direction data_effective_direction];
    rewrite ?decide_True by reflexivity;
    cbn [classList data_direction data_effective_direction];
    fold directionClasses; fold F;
    rewrite ?Hauto, ?Hmode, ?Hmode';
    cbn [classList data_direction data_effective_direction];
    rewrite ?Hmode'; try rewrite <- app_assoc; reflexivity.
Qed.
End Marking.

Lemma markedClasses_again (classes : list string) (direction effective : DirectionSetting) :
  markedClasses (markedClasses classes direction effective) direction effective
  = markedClasses classes direction effective.
Proof.
  unfold markedClasses.
  set (f := fun c : string => negb (bool_decide (c ∈ directionClasses))).
  assert (Hdrop : forall l, Forall (fun c => c ∈ directionClasses) l -> List.filter f l = []).
  { induction 1 as [|c l Hc _ IH]; [reflexivity|]. simpl. unfold f at 1.
    now rewrite (bool_decide_eq_true_2 _ Hc). }
  rewrite !List.filter_app, filter_filter_same.
  rewrite (Hdrop (if bool_decide (direction = auto) then ["auto-detect-direction"] else [])).
  2:{ destruct (bool_decide (direction = auto)); [|constructor].
      constructor; [unfold directionClasses; set_solver|constructor]. }
  rewrite (Hdrop [modeClass effective]).
  2:{ constructor; [apply modeClass_directionClass|constructor]. }
  now rewrite !app_nil_r.
Qed.

Section MarkingProperties.
Context `{UnicodeData}.
#[local] Arguments getBlockDirection : simpl never.

Lemma applyDirectionToElement_host (w : World) (element : option Element)
      (direction : DirectionSetting) :
  host (applyDirectionToElement w element direction) = host w.
Proof. apply applyDirectionToElement_reconciles. Qed.

Lemma applyDirectionToElement_other (w : World) (element : option Element)
      (direction : DirectionSetting) (e : Element) :
  element <> Some e ->
  attrs (dom (applyDirectionToElement w element direction)) e = attrs (dom w) e.
Proof.
  intros Hne. unfold applyDirectionToElement.
  destruct element as [el|]; [|reflexivity].
  destruct (negb (bodyContains (host w) el)); [reflexivity|].
  assert (Hel : el <> e) by congruence.
  destruct direction;
    [| |destruct (enableAdvancedTextDetection (settings (plugin w)))];
    cbn [dom withDom classList_add classList_remove set_data_direction
         remove_data_effective_direction set_data_effective_direction onElement attrs];
    unfold insert, fn_insert; rewrite !decide_False by exact Hel; reflexivity.
Qed.

Lemma applyDirectionToElement_off_page (w : World) (el : Element)
      (direction : DirectionSetting) :
  bodyContains (host w) el = false -> applyDirectionToElement w (Some el) direction = w.
Proof. intros Hbody. unfold applyDirectionToElement. now rewrite Hbody. Qed.

(** X5.  Marking an element is idempotent and local: a second
    [applyDirectionToElement] with the same direction leaves every
    element's classes and attributes as the first one did; elements
    other than the one marked keep theirs; and an element that is not on
    the page, or no element, leaves the whole state as it is. *)
Theorem applyDirectionToElement_idempotent_and_local (w : World) (direction : DirectionSetting) :
  (forall el e,
      attrs (dom (applyDirectionToElement (applyDirectionToElement w (Some el) direction)
                                          (Some el) direction)) e
      = attrs (dom (applyDirectionToElement w (Some el) direction)) e)
  /\ (forall element e,
         element <> Some e ->
         attrs (dom (applyDirectionToElement w element direction)) e = attrs (dom w) e)
  /\ (forall el,
         bodyContains (host w) el = false ->
         applyDirectionToElement w (Some el) direction = w)
  /\ applyDirectionToElement w None direction = w.
Proof.
  split; [|split; [|split]].
  - intros el e.
    destruct (bodyContains (host w) el) eqn:Hbody.
    + destruct (decide (el = e)) as [<-|Hne].
      * set (w1 := applyDirectionToElement w (Some el) direction).
        assert (Hbody1 : bodyContains (host w1) el = true).
        { subst w1. now rewrite applyDirectionToElement_host. }
        rewrite (applyDirectionToElement_state w1 el direction Hbody1).
        assert (Heff : effectiveDirectionOf w1 el direction = effectiveDirectionOf w el direction).
        { unfold effectiveDirectionOf. subst w1.
          now rewrite applyDirectionToElement_host, applyDirectionToElement_plugin. }
        rewrite Heff. subst w1.
        rewrite (applyDirectionToElement_state w el direction Hbody).
        cbn [classList]. now rewrite markedClasses_again.
      * rewrite applyDirectionToElement_other by congruence. reflexivity.
    + rewrite (applyDirectionToElement_off_page w el direction Hbody).
      now rewrite (applyDirectionToElement_off_page w el direction Hbody).
  - intros element e Hne. now apply applyDirectionToElement_other.
  - intros el Hbody. now apply applyDirectionToElement_off_page.
  - reflexivity.
Qed.
End MarkingProperties.

Lemma applyDirectionToElement_idempotent_and_local_witness :
  attrs (dom (@applyDirectionToElement basicLatinData oneEditorWorld (Some 11%positive) rtl))
        10%positive
  = attrs (dom oneEditorWorld) 10%positive
  /\ @applyDirectionToElement basicLatinData observedLtrWorld None rtl = observedLtrWorld.
Proof.
  destruct (@applyDirectionToElement_idempotent_and_local basicLatinData oneEditorWorld rtl)
    as (_ & Hother & _ & _).
  split.
  - apply Hother. discriminate.
  - apply (@applyDirectionToElement_idempotent_and_local basicLatinData observedLtrWorld rtl).
Defined.

(** ** Invariants of the marks *)

Section DomInvariant.
Context `{UnicodeData}.
Variable P : Dom -> Prop.
Hypothesis P_apply : forall w element direction,
    P (dom w) -> P (dom (applyDirectionToElement w element direction)).
Hypothesis P_reclassify : forall w el, P (dom w) -> P (dom (reclassifyEditor w el)).

Lemma invariant_fold {A} (f : World -> A -> World) (l : list A) (w : World) :
  (forall w x, P (dom w) -> P (dom (f w x))) -> P (dom w) -> P (dom (fold_left f l w)).
Proof.
  intros Hf. revert w. induction l as [|x l IH]; intros w Hw; simpl; [exact Hw|].
  apply IH, Hf, Hw.
Qed.

Lemma invariant_handleEditorMutationInner (w : World) (mutations : list MutationRecord) :
  P (dom w) -> P (dom (handleEditorMutationInner w mutations)).
Proof. apply invariant_fold, P_reclassify. Qed.

Lemma invariant_handleCanvasMutation (w : World) (mutations : list MutationRecord) :
  P (dom w) -> P (dom (handleCanvasMutation w mutations)).
Proof.
  apply invariant_fold. intros w1 m Hw1.
  destruct (String.eqb (mutation_type m) "childList"); [|exact Hw1].
  revert Hw1. apply invariant_fold. intros w2 node Hw2.
  case_match; [now apply P_apply|exact Hw2].
Qed.

Lemma invariant_refreshActiveEditorDirection (w : World) :
  P (dom w) -> P (dom (refreshActiveEditorDirection w)).
Proof.
  intros Hw. unfold refreshActiveEditorDirection.
  repeat case_match; try exact Hw.
  - now apply invariant_handleEditorMutationInner, P_apply.
  - now apply P_apply.
Qed.

Lemma invariant_manageObserver (k : ObserverKind) (w : World) (element : option Element)
      (shouldObserve : bool) (logName : string) :
  P (dom w) -> P (dom (manageObserver k w element shouldObserve logName)).
Proof.
  intros Hw. unfold manageObserver.
  repeat case_match; try exact Hw.
  now apply invariant_handleEditorMutationInner.
Qed.

Lemma invariant_cleanupOldObservers (k : ObserverKind) (w : World) (current : gset Element) :
  P (dom w) -> P (dom (cleanupOldObservers k w current)).
Proof. intros Hw. unfold cleanupOldObservers. repeat case_match; exact Hw. Qed.

Lemma invariant_applyLeafEditorOrCanvas (acc : World * gset Element * gset Element)
      (leaf : Leaf) :
  P (dom acc.1.1) -> P (dom (applyLeafEditorOrCanvas acc leaf).1.1).
Proof.
  destruct acc as [[w ed] cv]. cbn [fst]. intros Hw. unfold applyLeafEditorOrCanvas.
  destruct (bool_decide (view_class (leaf_view leaf) = MarkdownView)).
  - destruct (querySelector (host w) (containerEl (leaf_view leaf)) ".cm-content");
      [|exact Hw].
    cbn [fst]. now apply invariant_manageObserver, P_apply.
  - destruct (String.eqb (viewType (leaf_view leaf)) "canvas"); [|exact Hw].
    destruct (querySelector (host w) (containerEl (leaf_view leaf)) ".canvas-nodes");
      cbn [fst].
    + apply invariant_fold; [intros; now apply P_apply|now apply invariant_manageObserver].
    + apply invariant_fold; [intros; now apply P_apply|exact Hw].
Qed.

Lemma invariant_applyAllUiSettings (w : World) :
  P (dom w) -> P (dom (applyAllUiSettings w)).
Proof.
  intros Hw. unfold applyAllUiSettings.
  assert (Hfold : forall l acc, P (dom acc.1.1) ->
                                P (dom (fold_left applyLeafEditorOrCanvas l acc).1.1)).
  { induction l as [|leaf l IH]; intros acc Hacc; simpl; [exact Hacc|].
    now apply IH, invariant_applyLeafEditorOrCanvas. }
  specialize (Hfold (leaves (host w)) (w, ∅, ∅) Hw).
  destruct (fold_left applyLeafEditorOrCanvas (leaves (host w)) (w, ∅, ∅)) as [[w1 ed] cv].
  cbn [fst] in Hfold.
  apply invariant_fold.
  - intros w2 leaf Hw2. unfold applyLeafOther. repeat case_match; try exact Hw2; now apply P_apply.
  - now apply P_apply, P_apply, invariant_cleanupOldObservers, invariant_cleanupOldObservers.
Qed.

Lemma invariant_handle (w : World) (ev : Event) :
  P (dom w) -> exists w', handle w ev = Normal w' /\ P (dom w').
Proof.
  intros Hw.
  assert (Hopen : forall w0 file, P (dom w0) ->
                    exists w', handleFileOpen w0 file = Normal w' /\ P (dom w')).
  { intros w0 file Hw0. destruct (tryCatch_readOverride (host w0) file) as [o Ho].
    rewrite (handleFileOpen_normal _ _ _ Ho). eexists. split; [reflexivity|].
    now apply invariant_refreshActiveEditorDirection. }
  assert (Hclear : P (dom (clearActiveNoteOverrideAndRefreshEditor w))).
  { unfold clearActiveNoteOverrideAndRefreshEditor. case_match; [|exact Hw].
    now apply invariant_refreshActiveEditorDirection. }
  assert (Hset : forall w0 dir, P (dom w0) -> P (dom (setNoteDirection w0 dir))).
  { intros w0 dir Hw0. unfold setNoteDirection. repeat case_match; try exact Hw0.
    now apply invariant_refreshActiveEditorDirection. }
  destruct ev as [stored| |h|file|leaf| |dir|s|mutations|mutations]; cbn [handle].
  - unfold onload.
    match goal with
    | |- context [applyAllUiSettings ?w0] =>
        pose proof (invariant_applyAllUiSettings w0 Hw) as Hpass
    end.
    match goal with
    | |- exists w', match getActiveFile (host ?w2) with _ => _ end = _ /\ _ =>
        destruct (getActiveFile (host w2));
          [apply Hopen; exact Hpass|exists w2; split; [reflexivity|exact Hpass]]
    end.
  - eexists. split; [reflexivity|exact Hw].
  - eexists. split; [reflexivity|exact Hw].
  - now apply Hopen.
  - destruct leaf as [l|];
      [destruct (view_class (leaf_view l)), (view_file (leaf_view l))|];
      try (now apply Hopen); (eexists; split; [reflexivity|exact Hclear]).
  - eexists. split; [reflexivity|].
    unfold statusBarClick. repeat case_match; try exact Hw. now apply Hset.
  - eexists. split; [reflexivity|now apply Hset].
  - eexists. split; [reflexivity|]. unfold saveSettings.
    now apply (invariant_applyAllUiSettings (withPlugin w (withSettings (plugin w) s))).
  - eexists. split; [reflexivity|now apply invariant_handleEditorMutationInner].
  - eexists. split; [reflexivity|now apply invariant_handleCanvasMutation].
Qed.

Lemma invariant_run (evs : list Event) : forall w,
  P (dom w) -> exists w', run w evs = Normal w' /\ P (dom w').
Proof.
  induction evs as [|ev evs IH]; intros w Hw; cbn [run].
  - exists w. split; [reflexivity|exact Hw].
  - destruct (invariant_handle w ev Hw) as (w1 & Hw1 & HP1). rewrite Hw1.
    exact (IH w1 HP1).
Qed.
End DomInvariant.

Lemma modeClass_inj (v v' : DirectionSetting) : modeClass v = modeClass v' -> v = v'.
Proof. destruct v, v'; intros Heq; try reflexivity; discriminate. Qed.

Lemma markedClasses_coherent (classes : list string) (direction v : DirectionSetting) :
  modeClass v ∈ markedClasses classes direction v
  /\ (forall v', v' <> v -> modeClass v' ∉ markedClasses classes direction v).
Proof.
  unfold markedClasses. split.
  - apply elem_of_app. right. apply elem_of_app. right. now left.
  - intros v' Hne Hin.
    apply elem_of_app in Hin as [Hin|Hin].
    { revert Hin. apply not_directionClass_filter, modeClass_directionClass. }
    apply elem_of_app in Hin as [Hin|Hin].
    + destruct (bool_decide (direction = auto)).
      * apply list_elem_of_singleton in Hin. destruct v'; discriminate.
      * inversion Hin.
    + apply list_elem_of_singleton in Hin. now apply modeClass_inj in Hin.
Qed.

Section CoherentMarks.
Context `{UnicodeData}.
#[local] Arguments getBlockDirection : simpl never.

Lemma coherent_applyDirectionToElement (w : World) (element : option Element)
      (direction : DirectionSetting) :
  coherentDom (dom w) -> coherentDom (dom (applyDirectionToElement w element direction)).
Proof.
  intros Hw e.
  destruct (decide (element = Some e)) as [->|Hne].
  - destruct (bodyContains (host w) e) eqn:Hbody.
    + rewrite (applyDirectionToElement_state w e direction Hbody).
      intros v [= <-]. cbn [classList].
      destruct (markedClasses_coherent (classList (attrs (dom w) e)) direction
                  (effectiveDirectionOf w e direction)) as [Hin Hout].
      split; [exact Hin|]. intros v' _ Hne. now apply Hout.
    + rewrite (applyDirectionToElement_off_page w e direction Hbody). apply Hw.
  - rewrite (applyDirectionToElement_other w element direction e Hne). apply Hw.
Qed.

Lemma coherent_reclassifyEditor (w : World) (el : Element) :
  coherentDom (dom w) -> coherentDom (dom (reclassifyEditor w el)).
Proof.
  intros Hw. unfold reclassifyEditor.
  destruct (getActiveFile (host w)); [|exact Hw].
  destruct (owningLeaf (host w) el); [|exact Hw].
  destruct (negb _); [exact Hw|].
  destruct (_ && _); [|exact Hw].
  destruct (bool_decide (_ = Some _)); [exact Hw|].
  intros e. cbn [dom withDom classList_add classList_remove set_data_effective_direction
                 onElement attrs].
  unfold insert, fn_insert.
  destruct (decide (el = e)) as [<-|Hne].
  2:{ apply Hw. }
  cbn [classList data_direction data_effective_direction].
  rewrite !decide_True by reflexivity.
  cbn [classList data_direction data_effective_direction].
  rewrite getBlockDirection_ltr.
  set (L := List.filter (fun c : string => negb (bool_decide (c ∈ ["ltr-mode"; "rtl-mode"])))
                        (classList (attrs (dom w) el))).
  assert (Hfilter : modeClass rtl ∉ L).
  { intros Hf. apply list_elem_of_In, filter_In in Hf as [_ Hf].
    rewrite bool_decide_eq_true_2 in Hf; [discriminate|]. set_solver. }
  intros v [= <-]. cbn [classList]. split.
  - destruct (bool_decide (modeClass ltr ∈ L)) eqn:Hb.
    + now apply bool_decide_eq_true in Hb.
    + apply elem_of_app. right. now left.
  - intros v' Hv' Hne Hin.
    assert (Hv'rtl : v' = rtl) by (destruct Hv'; congruence). subst v'.
    destruct (bool_decide (modeClass ltr ∈ L)); [contradiction|].
    apply elem_of_app in Hin as [Hin|Hin]; [contradiction|].
    apply list_elem_of_singleton in Hin. discriminate.
Qed.

(** X6.  The attribute and the classes of an element stay coherent:
    once every element that carries [data-effective-direction] has the
    mode class of that direction and not the class of the opposite
    direction, this holds after every sequence of events, and every
    sequence of events completes. *)
Theorem marks_stay_coherent (w : World) (evs : list Event) :
  coherentDom (dom w) ->
  exists w', run w evs = Normal w' /\ coherentDom (dom w').
Proof.
  apply (invariant_run coherentDom).
  - exact coherent_applyDirectionToElement.
  - exact coherent_reclassifyEditor.
Qed.
End CoherentMarks.

Lemma marks_stay_coherent_witness :
  exists w',
    @run basicLatinData oneEditorWorld
         [EvSettingsChanged DEFAULT_SETTINGS; EvCommand (Some rtl); EvStatusBarClick]
    = Normal w'
    /\ coherentDom (dom w').
Proof.
  apply (@marks_stay_coherent basicLatinData oneEditorWorld).
  intros e v Hv. simpl in Hv. discriminate.
Defined.

(** ** The mutation handlers *)

Lemma fold_left_fixed {A B} (f : A -> B -> A) (l : list B) (a : A) :
  (forall x, f a x = a) -> fold_left f l a = a.
Proof.
  intros Hf. induction l as [|x l IH]; simpl; [reflexivity|]. now rewrite Hf.
Qed.

Lemma setAdd_elem (el x : Element) (l : list Element) :
  x ∈ setAdd el l -> x = el \/ x ∈ l.
Proof.
  unfold setAdd. case_bool_decide; [now right|].
  intros Hin. apply elem_of_app in Hin as [Hin|Hin]; [now right|].
  apply list_elem_of_singleton in Hin. now left.
Qed.

Section MutationHandlers.
Context `{UnicodeData}.
#[local] Arguments getBlockDirection : simpl never.

Lemma observedEditorOf_observed (w : World) (targetNode el : Element) :
  observedEditorOf w targetNode = Some el -> el ∈ observedEditorElements (plugin w).
Proof.
  unfold observedEditorOf. intros Hfind. apply find_some in Hfind as [_ Hp].
  apply andb_true_iff in Hp as [_ Hp]. now apply bool_decide_eq_true in Hp.
Qed.

Lemma changedEditorElements_observed (w : World) (mutations : list MutationRecord)
      (el : Element) :
  el ∈ changedEditorElements w mutations -> el ∈ observedEditorElements (plugin w).
Proof.
  unfold changedEditorElements.
  assert (Hgen : forall acc,
             (forall x, x ∈ acc -> x ∈ observedEditorElements (plugin w)) ->
             el ∈ fold_left (fun changed mutation =>
                               match observedEditorOf w (target mutation) with
                               | Some el => setAdd el changed
                               | None => changed
                               end) mutations acc ->
             el ∈ observedEditorElements (plugin w)).
  { induction mutations as [|m mutations IH]; intros acc Hacc; cbn [fold_left].
    - apply Hacc.
    - apply IH. destruct (observedEditorOf w (target m)) as [x|] eqn:Hx; [|exact Hacc].
      intros y Hy. apply setAdd_elem in Hy as [->|Hy]; [|now apply Hacc].
      exact (observedEditorOf_observed w (target m) x Hx). }
  apply Hgen. intros x Hx. inversion Hx.
Qed.

Lemma reclassifyEditor_other (w : World) (el e : Element) :
  el <> e -> attrs (dom (reclassifyEditor w el)) e = attrs (dom w) e.
Proof.
  intros Hne. unfold reclassifyEditor.
  destruct (getActiveFile (host w)); [|reflexivity].
  destruct (owningLeaf (host w) el); [|reflexivity].
  destruct (negb _); [reflexivity|].
  destruct (_ && _); [|reflexivity].
  destruct (bool_decide (_ = Some _)); [reflexivity|].
  cbn [dom withDom classList_add classList_remove set_data_effective_direction onElement attrs].
  unfold insert, fn_insert. now rewrite !decide_False by exact Hne.
Qed.

Lemma reclassifyEditor_gated (w : World) (el : Element) :
  getActiveFile (host w) = None
  \/ enableAdvancedTextDetection (settings (plugin w)) = false
  \/ userDirectionForThisEditor (plugin w) <> auto ->
  reclassifyEditor w el = w.
Proof.
  intros Hgate. unfold reclassifyEditor.
  destruct (getActiveFile (host w)) as [f|] eqn:Hf; [|reflexivity].
  destruct (owningLeaf (host w) el); [|reflexivity].
  destruct (negb _); [reflexivity|].
  destruct Hgate as [Hg|[Hg|Hg]]; [discriminate| |].
  - rewrite Hg, andb_false_r. reflexivity.
  - now rewrite (bool_decide_eq_false_2 _ Hg).
Qed.

(** X7.  The editor mutation handler is gated: it leaves the whole state
    as it is when there is no active file, when detection is off, when
    the direction resolved for the editor is not auto-detect, and when no
    element is observed; and whatever the mutations are, an element that
    is not in [observedEditorElements] keeps its classes and
    attributes. *)
Theorem handleEditorMutationInner_gated (w : World) (mutations : list MutationRecord) :
  (getActiveFile (host w) = None -> handleEditorMutationInner w mutations = w)
  /\ (enableAdvancedTextDetection (settings (plugin w)) = false ->
      handleEditorMutationInner w mutations = w)
  /\ (userDirectionForThisEditor (plugin w) <> auto ->
      handleEditorMutationInner w mutations = w)
  /\ (observedEditorElements (plugin w) = ∅ -> handleEditorMutationInner w mutations = w)
  /\ (forall e,
         e ∉ observedEditorElements (plugin w) ->
         attrs (dom (handleEditorMutationInner w mutations)) e = attrs (dom w) e).
Proof.
  unfold handleEditorMutationInner.
  split; [|split; [|split; [|split]]].
  - intros Hg. apply fold_left_fixed. intros el. apply reclassifyEditor_gated. auto.
  - intros Hg. apply fold_left_fixed. intros el. apply reclassifyEditor_gated. auto.
  - intros Hg. apply fold_left_fixed. intros el. apply reclassifyEditor_gated. auto.
  - intros Hempty.
    destruct (changedEditorElements w mutations) as [|el l] eqn:Hchanged; [reflexivity|].
    assert (Hin : el ∈ changedEditorElements w mutations) by (rewrite Hchanged; now left).
    apply changedEditorElements_observed in Hin. rewrite Hempty in Hin. set_solver.
  - intros e He.
    assert (Hall : Forall (fun el => el <> e) (changedEditorElements w mutations)).
    { apply List.Forall_forall. intros el Hin ->. apply He.
      apply (changedEditorElements_observed w mutations). now apply list_elem_of_In. }
    revert Hall. generalize (changedEditorElements w mutations) as changed.
    intros changed. generalize w as w0.
    induction changed as [|el changed IH]; intros w0 Hall; cbn [fold_left]; [reflexivity|].
    inversion Hall as [|? ? Hel Hrest]; subst.
    rewrite (IH _ Hrest). now apply reclassifyEditor_other.
Qed.

(** Reclassifying an element a second time changes nothing. *)
Lemma reclassifyEditor_again (w : World) (el : Element) :
  reclassifyEditor (reclassifyEditor w el) el = reclassifyEditor w el.
Proof.
  unfold reclassifyEditor at 2.
  destruct (getActiveFile (host w)) as [f|] eqn:Hf;
    [|unfold reclassifyEditor; now rewrite Hf].
  destruct (owningLeaf (host w) el) as [l|] eqn:Hl;
    [|unfold reclassifyEditor; now rewrite Hf, Hl].
  destruct (negb (bool_decide (view_file (leaf_view l) = Some f))) eqn:Hv;
    [unfold reclassifyEditor; now rewrite Hf, Hl, Hv|].
  destruct (bool_decide (userDirectionForThisEditor (plugin w) = auto)
            && enableAdvancedTextDetection (settings (plugin w))) eqn:Hg;
    [|unfold reclassifyEditor; now rewrite Hf, Hl, Hv, Hg].
  destruct (bool_decide (data_effective_direction (attrs (dom w) el)
                         = Some (getBlockDirection (JsString (textContent (host w) el)))))
    eqn:Hc; [unfold reclassifyEditor; now rewrite Hf, Hl, Hv, Hg, Hc|].
  set (detectedDir := getBlockDirection (JsString (textContent (host w) el))) in *.
  set (d1 := classList_add (modeClass detectedDir) el
               (classList_remove ["ltr-mode"; "rtl-mode"] el
                  (set_data_effective_direction detectedDir el (dom w)))).
  assert (Hfirst : reclassifyEditor w el = withDom w d1).
  { unfold reclassifyEditor. rewrite Hf, Hl, Hv, Hg. fold detectedDir. now rewrite Hc. }
  assert (Heff : data_effective_direction (attrs d1 el) = Some detectedDir).
  { subst d1.
    cbn [classList_add classList_remove set_data_effective_direction onElement attrs].
    unfold insert, fn_insert. now rewrite !decide_True by reflexivity. }
  rewrite Hfirst. unfold reclassifyEditor.
  cbn [host plugin dom withDom]. rewrite Hf, Hl, Hv, Hg. fold detectedDir.
  now rewrite Heff, bool_decide_eq_true_2 by reflexivity.
Qed.
End MutationHandlers.

Lemma handleEditorMutationInner_gated_witness :
  @handleEditorMutationInner basicLatinData (overrideWorld rtl)
     [mkMutation "characterData" 11%positive []]
  = overrideWorld rtl
  /\ attrs (dom (@handleEditorMutationInner basicLatinData observedLtrWorld
                   [mkMutation "characterData" 11%positive []])) 10%positive
     = attrs (dom observedLtrWorld) 10%positive.
Proof.
  split.
  - apply (proj1 (proj2 (proj2 (@handleEditorMutationInner_gated basicLatinData
                                  (overrideWorld rtl) _)))).
    discriminate.
  - apply (proj2 (proj2 (proj2 (proj2 (@handleEditorMutationInner_gated basicLatinData
                                         observedLtrWorld _))))).
    intros Hin. change (10%positive ∈ ({[ 11%positive ]} : gset Element)) in Hin.
    apply elem_of_singleton in Hin. discriminate.
Defined.

Lemma find_pointwise {A} (p q : A -> bool) (l : list A) :
  (forall x, p x = q x) -> List.find p l = List.find q l.
Proof.
  intros Hpq. induction l as [|x l IH]; simpl; [reflexivity|].
  now rewrite Hpq, IH.
Qed.

Section HandlerIdempotent.
Context `{UnicodeData}.
#[local] Arguments getBlockDirection : simpl never.

Lemma reclassifyEditor_host (w : World) (el : Element) :
  host (reclassifyEditor w el) = host w.
Proof. apply reclassifyEditor_reconciles. Qed.

Lemma reclassifyEditor_settled (w : World) (el : Element) :
  needsReclassify w el = false -> reclassifyEditor w el = w.
Proof.
  unfold needsReclassify, reclassifyEditor.
  destruct (getActiveFile (host w)); [|reflexivity].
  destruct (owningLeaf (host w) el); [|reflexivity].
  destruct (bool_decide (view_file _ = _)); [|reflexivity]. cbn [negb andb].
  destruct (bool_decide (userDirectionForThisEditor _ = auto)); [|reflexivity]. cbn [andb].
  destruct (enableAdvancedTextDetection _); [|reflexivity]. cbn [andb].
  destruct (bool_decide (data_effective_direction _ = _)); [reflexivity|discriminate].
Qed.

Lemma reclassifyEditor_written (w : World) (el : Element) :
  needsReclassify w el = true ->
  data_effective_direction (attrs (dom (reclassifyEditor w el)) el)
  = Some (getBlockDirection (JsString (textContent (host w) el))).
Proof.
  unfold needsReclassify, reclassifyEditor.
  destruct (getActiveFile (host w)); [|discriminate].
  destruct (owningLeaf (host w) el); [|discriminate].
  destruct (bool_decide (view_file _ = _)); [|discriminate]. cbn [negb andb].
  destruct (bool_decide (userDirectionForThisEditor _ = auto)); [|discriminate]. cbn [andb].
  destruct (enableAdvancedTextDetection _); [|discriminate]. cbn [andb].
  destruct (bool_decide (data_effective_direction _ = _)); [discriminate|]. intros _.
  cbn [dom withDom classList_add classList_remove set_data_effective_direction onElement attrs].
  unfold insert, fn_insert. now rewrite !decide_True by reflexivity.
Qed.

Lemma needsReclassify_same (w : World) (el : Element) :
  needsReclassify (reclassifyEditor w el) el = false.
Proof.
  destruct (needsReclassify w el) eqn:Hn.
  - pose proof (reclassifyEditor_written w el Hn) as Hattr.
    unfold needsReclassify. rewrite reclassifyEditor_host, reclassifyEditor_plugin.
    destruct (getActiveFile (host w)); [|reflexivity].
    destruct (owningLeaf (host w) el); [|reflexivity].
    rewrite (bool_decide_eq_true_2 _ Hattr). cbn [negb]. now rewrite andb_false_r.
  - now rewrite (reclassifyEditor_settled w el Hn).
Qed.

Lemma needsReclassify_other (w : World) (el e : Element) :
  el <> e -> needsReclassify (reclassifyEditor w el) e = needsReclassify w e.
Proof.
  intros Hne. unfold needsReclassify.
  rewrite reclassifyEditor_host, reclassifyEditor_plugin.
  now rewrite (reclassifyEditor_other w el e Hne).
Qed.

Lemma fold_reclassify_settles (changed : list Element) : forall w e,
  In e changed \/ needsReclassify w e = false ->
  needsReclassify (fold_left reclassifyEditor changed w) e = false.
Proof.
  induction changed as [|el changed IH]; intros w e He; cbn [fold_left].
  - destruct He as [[]|He]; exact He.
  - apply IH. destruct (decide (el = e)) as [<-|Hne].
    + right. apply needsReclassify_same.
    + destruct He as [[Heq|Hin]|Hn]; [contradiction|now left|].
      right. now rewrite needsReclassify_other.
Qed.

Lemma reclassifyEditor_cm_content (w : World) (el e : Element) :
  classList_contains (dom (reclassifyEditor w el)) e "cm-content"
  = classList_contains (dom w) e "cm-content".
Proof.
  destruct (decide (el = e)) as [<-|Hne].
  2:{ unfold classList_contains. now rewrite (reclassifyEditor_other w el e Hne). }
  unfold reclassifyEditor.
  destruct (getActiveFile (host w)); [|reflexivity].
  destruct (owningLeaf (host w) el); [|reflexivity].
  destruct (negb _); [reflexivity|].
  destruct (_ && _); [|reflexivity].
  destruct (bool_decide (_ = Some _)); [reflexivity|].
  unfold classList_contains.
  cbn [dom withDom classList_add classList_remove set_data_effective_direction onElement attrs].
  unfold insert, fn_insert. rewrite !decide_True by reflexivity. cbn [classList].
  rewrite getBlockDirection_ltr.
  set (L := List.filter _ _).
  assert (HL : "cm-content" ∈ L <-> "cm-content" ∈ classList (attrs (dom w) el)).
  { subst L. rewrite !list_elem_of_In, filter_In. split; [tauto|]. intros Hin. split; [exact Hin|].
    reflexivity. }
  apply bool_decide_ext.
  destruct (bool_decide (modeClass ltr ∈ L)); [exact HL|].
  rewrite elem_of_app, HL. split; [|tauto].
  intros [Hin|Hin]; [exact Hin|]. apply list_elem_of_singleton in Hin. discriminate.
Qed.

Lemma changedEditorElements_after_reclassify (w : World) (el : Element)
      (mutations : list MutationRecord) :
  changedEditorElements (reclassifyEditor w el) mutations = changedEditorElements w mutations.
Proof.
  unfold changedEditorElements.
  assert (Hobs : forall t, observedEditorOf (reclassifyEditor w el) t = observedEditorOf w t).
  { intros t. unfold observedEditorOf.
    rewrite reclassifyEditor_host, reclassifyEditor_plugin.
    apply find_pointwise. intros n. now rewrite reclassifyEditor_cm_content. }
  generalize (@nil Element) as acc.
  induction mutations as [|m mutations IH]; intros acc; cbn [fold_left]; [reflexivity|].
  now rewrite Hobs, IH.
Qed.

(** X8.  The editor mutation handler writes only what differs: handling
    the same batch of mutations a second time changes nothing, in the
    state or in the record of writes. *)
Theorem handleEditorMutationInner_idempotent (w : World) (mutations : list MutationRecord) :
  handleEditorMutationInner (handleEditorMutationInner w mutations) mutations
  = handleEditorMutationInner w mutations.
Proof.
  unfold handleEditorMutationInner at 1.
  assert (Hsame : changedEditorElements (handleEditorMutationInner w mutations) mutations
                  = changedEditorElements w mutations).
  { unfold handleEditorMutationInner.
    generalize (changedEditorElements w mutations) at 1 as changed. intros changed.
    revert w. induction changed as [|el changed IH]; intros w; cbn [fold_left]; [reflexivity|].
    now rewrite IH, changedEditorElements_after_reclassify. }
  rewrite Hsame.
  set (w1 := handleEditorMutationInner w mutations).
  assert (Hsettled : forall e, In e (changedEditorElements w mutations) ->
                               needsReclassify w1 e = false).
  { intros e He. subst w1. unfold handleEditorMutationInner.
    apply fold_reclassify_settles. now left. }
  revert Hsettled. generalize (changedEditorElements w mutations) as changed.
  induction changed as [|el changed IH]; intros Hsettled; cbn [fold_left]; [reflexivity|].
  rewrite (reclassifyEditor_settled w1 el (Hsettled el (or_introl eq_refl))).
  apply IH. intros e He. apply Hsettled. now right.
Qed.
End HandlerIdempotent.

Section CanvasHandler.
Context `{UnicodeData}.
#[local] Arguments getBlockDirection : simpl never.



End CanvasHandler.


(** ** The override and the front matter *)

Section NoteOverride.
Context `{UnicodeData}.
#[local] Arguments getBlockDirection : simpl never.

Lemma applyDirectionToElement_frontmatter (w : World) (element : option Element)
      (direction : DirectionSetting) :
  frontmatterWrites (applyDirectionToElement w element direction) = frontmatterWrites w.
Proof.
  unfold applyDirectionToElement.
  destruct element as [el|]; [|reflexivity].
  destruct (negb (bodyContains (host w) el)); [reflexivity|].
  destruct direction; try reflexivity.
  destruct (enableAdvancedTextDetection (settings (plugin w))); reflexivity.
Qed.

Lemma frontmatter_fold {A} (f : World -> A -> World) (l : list A) (w : World) :
  (forall w x, frontmatterWrites (f w x) = frontmatterWrites w) ->
  frontmatterWrites (fold_left f l w) = frontmatterWrites w.
Proof.
  intros Hf. revert w. induction l as [|x l IH]; intros w; simpl; [reflexivity|].
  now rewrite IH, Hf.
Qed.

Lemma reclassifyEditor_frontmatter (w : World) (el : Element) :
  frontmatterWrites (reclassifyEditor w el) = frontmatterWrites w.
Proof. unfold reclassifyEditor. repeat case_match; reflexivity. Qed.

Lemma handleEditorMutationInner_frontmatter (w : World) (mutations : list MutationRecord) :
  frontmatterWrites (handleEditorMutationInner w mutations) = frontmatterWrites w.
Proof. apply frontmatter_fold, reclassifyEditor_frontmatter. Qed.

Lemma handleCanvasMutation_frontmatter (w : World) (mutations : list MutationRecord) :
  frontmatterWrites (handleCanvasMutation w mutations) = frontmatterWrites w.
Proof.
  apply frontmatter_fold. intros w1 m.
  destruct (String.eqb (mutation_type m) "childList"); [|reflexivity].
  apply frontmatter_fold. intros w2 node.
  destruct (_ && _); [apply applyDirectionToElement_frontmatter|reflexivity].
Qed.

Lemma refreshActiveEditorDirection_frontmatter (w : World) :
  frontmatterWrites (refreshActiveEditorDirection w) = frontmatterWrites w.
Proof.
  unfold refreshActiveEditorDirection.
  repeat case_match; try reflexivity;
    rewrite ?handleEditorMutationInner_frontmatter; apply applyDirectionToElement_frontmatter.
Qed.

Lemma manageObserver_frontmatter (k : ObserverKind) (w : World) (element : option Element)
      (shouldObserve : bool) (logName : string) :
  frontmatterWrites (manageObserver k w element shouldObserve logName) = frontmatterWrites w.
Proof.
  unfold manageObserver.
  repeat case_match; try reflexivity. now rewrite handleEditorMutationInner_frontmatter.
Qed.

Lemma cleanupOldObservers_frontmatter (k : ObserverKind) (w : World) (current : gset Element) :
  frontmatterWrites (cleanupOldObservers k w current) = frontmatterWrites w.
Proof. unfold cleanupOldObservers. repeat case_match; reflexivity. Qed.

Lemma applyLeafEditorOrCanvas_frontmatter (acc : World * gset Element * gset Element)
      (leaf : Leaf) :
  frontmatterWrites (applyLeafEditorOrCanvas acc leaf).1.1 = frontmatterWrites acc.1.1.
Proof.
  destruct acc as [[w ed] cv]. cbn [fst]. unfold applyLeafEditorOrCanvas.
  destruct (bool_decide (view_class (leaf_view leaf) = MarkdownView)).
  - destruct (querySelector (host w) (containerEl (leaf_view leaf)) ".cm-content");
      [|reflexivity].
    cbn [fst]. now rewrite manageObserver_frontmatter, applyDirectionToElement_frontmatter.
  - destruct (String.eqb (viewType (leaf_view leaf)) "canvas"); [|reflexivity].
    destruct (querySelector (host w) (containerEl (leaf_view leaf)) ".canvas-nodes");
      cbn [fst]; rewrite frontmatter_fold;
      rewrite ?manageObserver_frontmatter; try reflexivity;
      intros; apply applyDirectionToElement_frontmatter.
Qed.

Lemma applyAllUiSettings_frontmatter (w : World) :
  frontmatterWrites (applyAllUiSettings w) = frontmatterWrites w.
Proof.
  unfold applyAllUiSettings.
  assert (Hfold : forall l acc,
             frontmatterWrites (fold_left applyLeafEditorOrCanvas l acc).1.1
             = frontmatterWrites acc.1.1).
  { induction l as [|leaf l IH]; intros acc; simpl; [reflexivity|].
    now rewrite IH, applyLeafEditorOrCanvas_frontmatter. }
  specialize (Hfold (leaves (host w)) (w, ∅, ∅)).
  destruct (fold_left applyLeafEditorOrCanvas (leaves (host w)) (w, ∅, ∅)) as [[w1 ed] cv].
  cbn [fst] in Hfold.
  rewrite frontmatter_fold.
  - now rewrite !applyDirectionToElement_frontmatter, !cleanupOldObservers_frontmatter.
  - intros w2 leaf. unfold applyLeafOther.
    repeat case_match; try reflexivity; apply applyDirectionToElement_frontmatter.
Qed.

(** X10.  Only the user's commands write a note's direction.  The
    mutation handlers, a pass over the workspace, opening a file and
    leaving a note never call [processFrontMatter], and the first three
    never change the override; [setNoteDirection] on a markdown note
    sets the override and records exactly one front-matter write for the
    active file, with that direction; without a markdown note it changes
    nothing. *)
Theorem only_commands_write_frontmatter (w : World) :
  (forall mutations,
      activeNoteOverride (plugin (handleEditorMutationInner w mutations))
      = activeNoteOverride (plugin w)
      /\ frontmatterWrites (handleEditorMutationInner w mutations) = frontmatterWrites w)
  /\ (forall mutations,
         activeNoteOverride (plugin (handleCanvasMutation w mutations))
         = activeNoteOverride (plugin w)
         /\ frontmatterWrites (handleCanvasMutation w mutations) = frontmatterWrites w)
  /\ (activeNoteOverride (plugin (applyAllUiSettings w)) = activeNoteOverride (plugin w)
      /\ frontmatterWrites (applyAllUiSettings w) = frontmatterWrites w)
  /\ (forall file, exists w',
         handleFileOpen w file = Normal w' /\ frontmatterWrites w' = frontmatterWrites w)
  /\ (activeNoteOverride (plugin (clearActiveNoteOverrideAndRefreshEditor w)) = None
      /\ frontmatterWrites (clearActiveNoteOverrideAndRefreshEditor w) = frontmatterWrites w)
  /\ (forall direction activeFile,
         getActiveFile (host w) = Some activeFile -> extension activeFile = "md" ->
         activeNoteOverride (plugin (setNoteDirection w direction)) = direction
         /\ frontmatterWrites (setNoteDirection w direction)
            = frontmatterWrites w ++ [(activeFile, direction)])
  /\ (forall direction,
         (forall activeFile, getActiveFile (host w) = Some activeFile ->
                             extension activeFile <> "md") ->
         setNoteDirection w direction = w).
Proof.
  split; [|split; [|split; [|split; [|split; [|split]]]]].
  - intros mutations. split;
      [apply handleEditorMutationInner_reconciles|apply handleEditorMutationInner_frontmatter].
  - intros mutations. split;
      [apply handleCanvasMutation_reconciles|apply handleCanvasMutation_frontmatter].
  - split; [apply applyAllUiSettings_reconciles|apply applyAllUiSettings_frontmatter].
  - intros file. destruct (tryCatch_readOverride (host w) file) as [o Ho].
    rewrite (handleFileOpen_normal _ _ _ Ho). eexists. split; [reflexivity|].
    now rewrite refreshActiveEditorDirection_frontmatter.
  - unfold clearActiveNoteOverrideAndRefreshEditor.
    destruct (bool_decide (activeNoteOverride (plugin w) ≠ None)); [|split; reflexivity].
    split; [|now rewrite refreshActiveEditorDirection_frontmatter].
    match goal with
    | |- context [refreshActiveEditorDirection ?w0] =>
        destruct (refreshActiveEditorDirection_reconciles w0) as (_ & _ & Hov & _)
    end.
    now rewrite Hov.
  - intros direction activeFile Hfile Hext.
    split; [exact (proj1 (setNoteDirection_override w activeFile direction Hfile Hext))|].
    unfold setNoteDirection. rewrite Hfile, Hext, String.eqb_refl. cbn [negb].
    now rewrite refreshActiveEditorDirection_frontmatter.
  - intros direction Hno. unfold setNoteDirection.
    destruct (getActiveFile (host w)) as [f|]; [|reflexivity].
    destruct (String.eqb_spec (extension f) "md") as [Hmd|_]; [|reflexivity].
    now destruct (Hno f eq_refl).
Qed.

(** X11.  What a command writes to the front matter is what opening the
    note reads back: when the front matter of a markdown note is the
    result of the update for [direction], [handleFileOpen] completes with
    that [direction] as the override, a cleared direction giving no
    override; the update changes no other key. *)
Theorem frontmatter_write_then_read (w : World) (file : TFile)
        (fm : gmap string JsValue) (direction : option DirectionSetting) :
  extension file = "md" ->
  getFileCache (host w) file
  = Normal (Some (mkCache (Some (frontmatterUpdate direction fm)))) ->
  overrideAfterOpen w file direction
  /\ (forall key, key <> "direction" -> frontmatterUpdate direction fm !! key = fm !! key).
Proof.
  intros Hext Hcache. split.
  - apply handleFileOpen_override.
    unfold readOverride. rewrite Hext, String.eqb_refl, Hcache.
    cbn [mbind Completion_bind mret Completion_ret tryCatch frontmatter option_bind].
    unfold directionFromFm, frontmatterUpdate.
    destruct direction as [d|].
    + rewrite lookup_insert_eq. cbn [default]. destruct d; reflexivity.
    + rewrite lookup_delete_eq. reflexivity.
  - intros key Hkey. unfold frontmatterUpdate. destruct direction as [d|].
    + now apply lookup_insert_ne.
    + now apply lookup_delete_ne.
Qed.
End NoteOverride.

Lemma only_commands_write_frontmatter_witness :
  frontmatterWrites (@setNoteDirection basicLatinData oneEditorWorld (Some rtl))
  = [(noteFile, Some rtl)]
  /\ activeNoteOverride (plugin (@setNoteDirection basicLatinData oneEditorWorld (Some rtl)))
     = Some rtl.
Proof.
  destruct (proj1 (proj2 (proj2 (proj2 (proj2 (proj2
              (@only_commands_write_frontmatter basicLatinData oneEditorWorld))))))
              (Some rtl) noteFile eq_refl eq_refl) as [Ho Hf].
  split; [exact Hf|exact Ho].
Defined.

Lemma frontmatter_write_then_read_witness :
  @overrideAfterOpen basicLatinData
     (cacheWorld (Normal (Some (mkCache (Some (frontmatterUpdate (Some auto) rtlFrontmatter))))))
     noteFile (Some auto).
Proof.
  exact (proj1 (@frontmatter_write_then_read basicLatinData
                  (cacheWorld (Normal (Some (mkCache
                     (Some (frontmatterUpdate (Some auto) rtlFrontmatter))))))
                  noteFile rtlFrontmatter (Some auto) eq_refl eq_refl)).
Defined.

(** ** Observers across a pass *)

Lemma observedLe_refl (k : ObserverKind) (p : Plugin) : observedLe k p p.
Proof. split; [set_solver|auto]. Qed.

Lemma observedLe_trans (k : ObserverKind) (p1 p2 p3 : Plugin) :
  observedLe k p1 p2 -> observedLe k p2 p3 -> observedLe k p1 p3.
Proof. intros [Hs1 Ho1] [Hs2 Ho2]. split; [set_solver|auto]. Qed.

Lemma observedLe_eq (k : ObserverKind) (p p' : Plugin) : p' = p -> observedLe k p p'.
Proof. intros ->. apply observedLe_refl. Qed.

Section ObserversAcrossPass.
Context `{UnicodeData}.
#[local] Arguments getBlockDirection : simpl never.

Lemma manageObserver_observedLe (k k' : ObserverKind) (w : World) (element : option Element)
      (shouldObserve : bool) (logName : string) :
  observedLe k (plugin w) (plugin (manageObserver k' w element shouldObserve logName)).
Proof.
  unfold manageObserver.
  destruct (observerOf k' (plugin w)) as [targets|] eqn:Hobs; [|apply observedLe_refl].
  destruct element as [el|]; [|apply observedLe_refl].
  destruct shouldObserve; [|apply observedLe_refl].
  destruct (bool_decide (el ∈ observedSetOf k' (plugin w))); [apply observedLe_refl|].
  match goal with
  | |- observedLe _ _ (plugin (if ?c then _ else _)) => destruct c
  end; rewrite ?handleEditorMutationInner_plugin;
    destruct k, k'; simpl; split; simpl; try set_solver; auto.
Qed.

Lemma applyLeafEditorOrCanvas_observedLe (k : ObserverKind)
      (acc : World * gset Element * gset Element) (leaf : Leaf) :
  observedLe k (plugin acc.1.1) (plugin (applyLeafEditorOrCanvas acc leaf).1.1).
Proof.
  destruct acc as [[w ed] cv]. unfold applyLeafEditorOrCanvas. cbn [fst].
  destruct (bool_decide (view_class (leaf_view leaf) = MarkdownView)).
  - destruct (querySelector (host w) (containerEl (leaf_view leaf)) ".cm-content");
      cbn [fst]; [|apply observedLe_refl].
    eapply observedLe_trans; [|apply manageObserver_observedLe].
    apply observedLe_eq, applyDirectionToElement_plugin.
  - destruct (String.eqb (viewType (leaf_view leaf)) "canvas"); [|apply observedLe_refl].
    destruct (querySelector (host w) (containerEl (leaf_view leaf)) ".canvas-nodes");
      cbn [fst]; rewrite fold_applyDirectionToElement_plugin;
      [apply manageObserver_observedLe|apply observedLe_refl].
Qed.

Lemma applyLeafEditorOrCanvas_current (k : ObserverKind)
      (acc : World * gset Element * gset Element) (leaf : Leaf) (el : Element) :
  el ∈ currentOf k (applyLeafEditorOrCanvas acc leaf) ->
  el ∈ currentOf k acc
  \/ match k with
     | EditorObserver =>
         view_class (leaf_view leaf) = MarkdownView
         /\ querySelector (host acc.1.1) (containerEl (leaf_view leaf)) ".cm-content" = Some el
     | CanvasObserver =>
         view_class (leaf_view leaf) <> MarkdownView
         /\ viewType (leaf_view leaf) = "canvas"
         /\ querySelector (host acc.1.1) (containerEl (leaf_view leaf)) ".canvas-nodes" = Some el
     end.
Proof.
  destruct acc as [[w ed] cv]. unfold applyLeafEditorOrCanvas. cbn [fst snd].
  destruct (bool_decide (view_class (leaf_view leaf) = MarkdownView)) eqn:Hmd.
  - apply bool_decide_eq_true in Hmd.
    destruct (querySelector (host w) (containerEl (leaf_view leaf)) ".cm-content") as [x|];
      destruct k; cbn [currentOf fst snd]; intros Hin; try (now left).
    apply elem_of_union in Hin as [Hin|Hin]; [now left|].
    apply elem_of_singleton in Hin. subst. right. split; [exact Hmd|reflexivity].
  - apply bool_decide_eq_false in Hmd.
    destruct (String.eqb_spec (viewType (leaf_view leaf)) "canvas") as [Hcv|_];
      [|intros Hin; now left].
    destruct (querySelector (host w) (containerEl (leaf_view leaf)) ".canvas-nodes") as [x|];
      destruct k; cbn [currentOf fst snd]; intros Hin; try (now left).
    apply elem_of_union in Hin as [Hin|Hin]; [now left|].
    apply elem_of_singleton in Hin. subst. right. repeat split; assumption.
Qed.

Lemma fold_applyLeafEditorOrCanvas_pass (k : ObserverKind) (l : list Leaf) :
  forall (acc : World * gset Element * gset Element) (h : Host),
    host acc.1.1 = h ->
    (forall leaf, In leaf l -> In leaf (leaves h)) ->
    let acc' := fold_left applyLeafEditorOrCanvas l acc in
    observedLe k (plugin acc.1.1) (plugin acc'.1.1)
    /\ host acc'.1.1 = h
    /\ (forall el, el ∈ currentOf k acc' -> el ∈ currentOf k acc \/ liveOf k h el).
Proof.
  induction l as [|leaf l IH]; intros acc h Hh Hl; cbn [fold_left].
  - split; [apply observedLe_refl|]. split; [exact Hh|]. intros el Hin. now left.
  - pose proof (applyLeafEditorOrCanvas_observedLe k acc leaf) as Hle0.
    destruct (applyLeafEditorOrCanvas_reconciles acc leaf) as (Hhost & _).
    destruct (IH (applyLeafEditorOrCanvas acc leaf) h (eq_trans Hhost Hh)
                 (fun lf Hin => Hl lf (or_intror Hin))) as (Hle & Hh' & Hcur).
    split; [eapply observedLe_trans; eassumption|]. split; [exact Hh'|].
    intros el Hin. destruct (Hcur el Hin) as [Hin0|Hlive]; [|now right].
    destruct (applyLeafEditorOrCanvas_current k acc leaf el Hin0) as [Hacc|Hleaf]; [now left|].
    right. rewrite Hh in Hleaf.
    destruct k; cbn [liveOf]; exists leaf;
      (split; [apply Hl; now left|exact Hleaf]).
Qed.

Lemma cleanupOldObservers_same_kind (k : ObserverKind) (w : World) (current : gset Element)
      (el : Element) :
  is_Some (observerOf k (plugin w)) ->
  el ∈ observedSetOf k (plugin (cleanupOldObservers k w current)) ->
  el ∈ observedSetOf k (plugin w) /\ bodyContains (host w) el = true /\ el ∈ current.
Proof.
  intros [targets Hobs]. unfold cleanupOldObservers. rewrite Hobs.
  match goal with
  | |- context [if ?c then _ else _] => destruct c
  end; destruct k; cbn; intros Hin; apply elem_of_filter in Hin as [[Hb Hc] Ho];
    (split; [exact Ho|split; [now apply Is_true_true|exact Hc]]).
Qed.

Lemma cleanupOldObservers_other_kind (k k' : ObserverKind) (w : World)
      (current : gset Element) :
  k <> k' ->
  observedSetOf k (plugin (cleanupOldObservers k' w current)) = observedSetOf k (plugin w)
  /\ observerOf k (plugin (cleanupOldObservers k' w current)) = observerOf k (plugin w).
Proof.
  intros Hne. unfold cleanupOldObservers.
  destruct (observerOf k' (plugin w)) as [targets|]; [|split; reflexivity].
  match goal with
  | |- context [if ?c then _ else _] => destruct c
  end; destruct k, k'; try congruence; split; reflexivity.
Qed.

Lemma cleanupOldObservers_disconnects (k : ObserverKind) (w : World)
      (current : gset Element) :
  is_Some (observerOf k (plugin w)) ->
  observedSetOf k (plugin w) <> ∅ ->
  (forall el, el ∈ observedSetOf k (plugin w) ->
              ~ (bodyContains (host w) el = true /\ el ∈ current)) ->
  observerOf k (plugin (cleanupOldObservers k w current)) = Some ∅
  /\ observedSetOf k (plugin (cleanupOldObservers k w current)) = ∅.
Proof.
  intros [targets Hobs] Hne Hnone. unfold cleanupOldObservers. rewrite Hobs.
  set (new := filter _ (observedSetOf k (plugin w))).
  assert (Hnew : new = ∅).
  { apply leibniz_equiv. apply elem_of_equiv_empty. intros el Hin.
    subst new. apply elem_of_filter in Hin as [[Hb Hc] Ho].
    apply (Hnone el Ho). split; [now apply Is_true_true|exact Hc]. }
  rewrite Hnew.
  assert (Hsize : (0 < size (observedSetOf k (plugin w)))%nat).
  { pose proof (size_empty_iff (observedSetOf k (plugin w))) as Hiff.
    destruct (size (observedSetOf k (plugin w))); [|lia].
    exfalso. apply Hne. apply leibniz_equiv. now apply Hiff. }
  rewrite size_empty. change (Nat.eqb 0 0) with true.
  rewrite (proj2 (Nat.ltb_lt _ _) Hsize). cbn [andb].
  destruct k; split; reflexivity.
Qed.
End ObserversAcrossPass.

Section PassProperties.
Context `{UnicodeData}.
#[local] Arguments getBlockDirection : simpl never.

Lemma applyAllUiSettings_plugin_after_cleanup (w : World) :
  let acc := fold_left applyLeafEditorOrCanvas (leaves (host w)) (w, ∅, ∅) in
  plugin (applyAllUiSettings w)
  = plugin (cleanupOldObservers CanvasObserver
              (cleanupOldObservers EditorObserver acc.1.1 acc.1.2) acc.2).
Proof.
  unfold applyAllUiSettings.
  destruct (fold_left applyLeafEditorOrCanvas (leaves (host w)) (w, ∅, ∅)) as [[w1 ed] cv].
  cbn [fst snd].
  rewrite fold_applyLeafOther_plugin, !applyDirectionToElement_plugin. reflexivity.
Qed.

Lemma cleanupOldObservers_congr (k : ObserverKind) (w w' : World) (current : gset Element) :
  host w' = host w ->
  observerOf k (plugin w') = observerOf k (plugin w) ->
  observedSetOf k (plugin w') = observedSetOf k (plugin w) ->
  observedSetOf k (plugin (cleanupOldObservers k w' current))
  = observedSetOf k (plugin (cleanupOldObservers k w current))
  /\ observerOf k (plugin (cleanupOldObservers k w' current))
     = observerOf k (plugin (cleanupOldObservers k w current)).
Proof.
  intros Hhost Hobs Hset. unfold cleanupOldObservers. rewrite Hobs, Hset, Hhost.
  destruct (observerOf k (plugin w)) as [targets|] eqn:Ho; [|split; [assumption|congruence]].
  match goal with
  | |- context [if ?c then _ else _] => destruct c
  end; destruct k; cbn in *; split; try reflexivity; congruence.
Qed.

Lemma applyAllUiSettings_observed_of (k : ObserverKind) (w : World) :
  let acc := fold_left applyLeafEditorOrCanvas (leaves (host w)) (w, ∅, ∅) in
  observedSetOf k (plugin (applyAllUiSettings w))
  = observedSetOf k (plugin (cleanupOldObservers k acc.1.1 (currentOf k acc)))
  /\ observerOf k (plugin (applyAllUiSettings w))
     = observerOf k (plugin (cleanupOldObservers k acc.1.1 (currentOf k acc))).
Proof.
  cbv zeta. rewrite applyAllUiSettings_plugin_after_cleanup.
  destruct (fold_left applyLeafEditorOrCanvas (leaves (host w)) (w, ∅, ∅)) as [[w1 ed] cv].
  cbn [fst snd currentOf]. destruct k; cbn [currentOf fst snd].
  - apply (cleanupOldObservers_other_kind EditorObserver CanvasObserver); discriminate.
  - destruct (cleanupOldObservers_other_kind CanvasObserver EditorObserver w1 ed
                ltac:(discriminate)) as [Hset Hobs].
    destruct (cleanupOldObservers_reconciles EditorObserver w1 ed) as (Hhost & _).
    apply cleanupOldObservers_congr; assumption.
Qed.

(** X12. After a pass of [applyAllUiSettings] in a plugin that has the
    observer of a kind, every element still recorded as observed is on the
    page and is the editor content of a markdown leaf of the workspace (the
    [.canvas-nodes] element of a canvas leaf, for the canvas observer); and
    if something was recorded and no such element is on the page any more,
    the observer is disconnected and nothing is recorded. *)
Theorem pass_records_only_live_elements (k : ObserverKind) (w : World) :
  is_Some (observerOf k (plugin w)) ->
  (forall el, el ∈ observedSetOf k (plugin (applyAllUiSettings w)) ->
              bodyContains (host w) el = true /\ liveOf k (host w) el)
  /\ (observedSetOf k (plugin w) <> ∅ ->
      (forall el, liveOf k (host w) el -> bodyContains (host w) el = false) ->
      observerOf k (plugin (applyAllUiSettings w)) = Some ∅
      /\ observedSetOf k (plugin (applyAllUiSettings w)) = ∅).
Proof.
  intros Hobs.
  destruct (applyAllUiSettings_observed_of k w) as [Hset Hobserver].
  destruct (fold_applyLeafEditorOrCanvas_pass k (leaves (host w)) (w, ∅, ∅) (host w)
              eq_refl (fun _ Hin => Hin)) as ([Hsub Hsome] & Hhost & Hcur).
  set (acc := fold_left applyLeafEditorOrCanvas (leaves (host w)) (w, ∅, ∅)) in *.
  cbn [fst] in Hsub, Hsome.
  assert (Hlive : forall el, el ∈ currentOf k acc -> liveOf k (host w) el).
  { intros el Hin. destruct (Hcur el Hin) as [Hempty|Hl]; [|exact Hl].
    destruct k; cbn in Hempty; set_solver. }
  split.
  - intros el Hin. rewrite Hset in Hin.
    apply cleanupOldObservers_same_kind in Hin as (_ & Hbody & Hc); [|auto].
    rewrite Hhost in Hbody. split; [exact Hbody|apply Hlive, Hc].
  - intros Hne Hgone. rewrite Hset, Hobserver.
    apply cleanupOldObservers_disconnects; [auto| |].
    + intros Hempty. apply Hne. set_solver.
    + intros el _ [Hbody Hc]. rewrite Hhost in Hbody.
      rewrite (Hgone el (Hlive el Hc)) in Hbody. discriminate.
Qed.



Lemma manageObserver_adds (k : ObserverKind) (w : World) (el : Element) (logName : string) :
  is_Some (observerOf k (plugin w)) ->
  el ∈ observedSetOf k (plugin (manageObserver k w (Some el) true logName)).
Proof.
  intros [targets Hobs]. unfold manageObserver. rewrite Hobs.
  destruct (bool_decide (el ∈ observedSetOf k (plugin w))) eqn:Hin.
  - now apply bool_decide_eq_true in Hin.
  - match goal with
    | |- _ ∈ observedSetOf _ (plugin (if ?c then _ else _)) => destruct c
    end; rewrite ?handleEditorMutationInner_plugin; destruct k; simpl; set_solver.
Qed.





End PassProperties.

Section PassObserves.
Context `{UnicodeData}.
#[local] Arguments getBlockDirection : simpl never.



Lemma manageObserver_unloaded (k : ObserverKind) (w : World) (element : option Element)
      (shouldObserve : bool) (logName : string) :
  observerOf k (plugin w) = None ->
  manageObserver k w element shouldObserve logName = w.
Proof. intros Hobs. unfold manageObserver. now rewrite Hobs. Qed.

Lemma applyLeafEditorOrCanvas_unloaded (acc : World * gset Element * gset Element)
      (leaf : Leaf) :
  editorMutationObserver (plugin acc.1.1) = None ->
  canvasObserver (plugin acc.1.1) = None ->
  plugin (applyLeafEditorOrCanvas acc leaf).1.1 = plugin acc.1.1.
Proof.
  destruct acc as [[w ed] cv]. cbn [fst]. intros Hed Hcv. unfold applyLeafEditorOrCanvas.
  destruct (bool_decide (view_class (leaf_view leaf) = MarkdownView)).
  - destruct (querySelector (host w) (containerEl (leaf_view leaf)) ".cm-content");
      cbn [fst]; [|reflexivity].
    rewrite manageObserver_unloaded; rewrite applyDirectionToElement_plugin; auto.
  - destruct (String.eqb (viewType (leaf_view leaf)) "canvas"); [|reflexivity].
    destruct (querySelector (host w) (containerEl (leaf_view leaf)) ".canvas-nodes");
      cbn [fst]; rewrite fold_applyDirectionToElement_plugin; [|reflexivity].
    rewrite manageObserver_unloaded; auto.
Qed.

Lemma fold_applyLeafEditorOrCanvas_unloaded (l : list Leaf) :
  forall acc : World * gset Element * gset Element,
    editorMutationObserver (plugin acc.1.1) = None ->
    canvasObserver (plugin acc.1.1) = None ->
    plugin (fold_left applyLeafEditorOrCanvas l acc).1.1 = plugin acc.1.1.
Proof.
  induction l as [|leaf l IH]; intros acc Hed Hcv; cbn [fold_left]; [reflexivity|].
  pose proof (applyLeafEditorOrCanvas_unloaded acc leaf Hed Hcv) as Hstep.
  rewrite IH; rewrite Hstep; auto.
Qed.

Lemma applyAllUiSettings_unloaded (w : World) :
  editorMutationObserver (plugin w) = None ->
  canvasObserver (plugin w) = None ->
  plugin (applyAllUiSettings w) = plugin w.
Proof.
  intros Hed Hcv. rewrite applyAllUiSettings_plugin_after_cleanup.
  pose proof (fold_applyLeafEditorOrCanvas_unloaded (leaves (host w)) (w, ∅, ∅) Hed Hcv)
    as Hfold.
  destruct (fold_left applyLeafEditorOrCanvas (leaves (host w)) (w, ∅, ∅)) as [[w1 ed] cv].
  cbn [fst snd] in *.
  assert (H1 : cleanupOldObservers EditorObserver w1 ed = w1).
  { unfold cleanupOldObservers. cbn [observerOf]. now rewrite Hfold, Hed. }
  rewrite H1.
  assert (H2 : cleanupOldObservers CanvasObserver w1 cv = w1).
  { unfold cleanupOldObservers. cbn [observerOf]. now rewrite Hfold, Hcv. }
  now rewrite H2.
Qed.

Lemma refreshActiveEditorDirection_plugin (w : World) :
  plugin (refreshActiveEditorDirection w) = plugin w.
Proof.
  unfold refreshActiveEditorDirection.
  destruct (getActiveMarkdownLeaf (host w)) as [activeLeaf|]; [|reflexivity].
  destruct (view_file (leaf_view activeLeaf)); [|reflexivity].
  destruct (querySelector (host w) (containerEl (leaf_view activeLeaf)) ".cm-content");
    [|reflexivity].
  match goal with
  | |- plugin (if ?c then _ else _) = _ => destruct c
  end; rewrite ?handleEditorMutationInner_plugin; apply applyDirectionToElement_plugin.
Qed.

Lemma handleEditorMutationInner_nothing_observed (w : World)
      (mutations : list MutationRecord) :
  observedEditorElements (plugin w) = ∅ ->
  handleEditorMutationInner w mutations = w.
Proof.
  intros Hempty. unfold handleEditorMutationInner.
  assert (Hch : changedEditorElements w mutations = []).
  { destruct (changedEditorElements w mutations) as [|el l] eqn:Hl; [reflexivity|].
    assert (Hin : el ∈ changedEditorElements w mutations)
      by (rewrite Hl; apply elem_of_cons; now left).
    apply changedEditorElements_observed in Hin. rewrite Hempty in Hin. set_solver. }
  now rewrite Hch.
Qed.

(** X14. [onload] of a plugin object as its class declares it (no
    observer, nothing recorded as observed) completes with the stored
    settings (or the defaults) in force and with both observers made, but
    with nothing observed: the pass of [applyAllUiSettings] runs before the
    observers exist.  Until a later pass, a report of editor mutations
    therefore changes nothing. *)
Theorem onload_observes_nothing (w : World) (stored : option IntelligentRtlSettings) :
  editorMutationObserver (plugin w) = None ->
  canvasObserver (plugin w) = None ->
  observedEditorElements (plugin w) = ∅ ->
  observedCanvasContainers (plugin w) = ∅ ->
  exists w',
    onload w stored = Normal w'
    /\ settings (plugin w') = default DEFAULT_SETTINGS stored
    /\ editorMutationObserver (plugin w') = Some ∅
    /\ canvasObserver (plugin w') = Some ∅
    /\ observedEditorElements (plugin w') = ∅
    /\ observedCanvasContainers (plugin w') = ∅
    /\ forall mutations, handleEditorMutationInner w' mutations = w'.
Proof.
  intros Hed Hcv Hoe Hoc. unfold onload.
  set (w0 := withPlugin w (withSettings (plugin w) (default DEFAULT_SETTINGS stored))).
  assert (Hp : plugin (applyAllUiSettings w0) = plugin w0)
    by (apply applyAllUiSettings_unloaded; assumption).
  set (w1 := applyAllUiSettings w0) in *.
  set (w2 := withPlugin _ (withObserver CanvasObserver _ _)).
  assert (Hw2 : settings (plugin w2) = default DEFAULT_SETTINGS stored
                /\ editorMutationObserver (plugin w2) = Some ∅
                /\ canvasObserver (plugin w2) = Some ∅
                /\ observedEditorElements (plugin w2) = ∅
                /\ observedCanvasContainers (plugin w2) = ∅).
  { subst w2. cbn. rewrite Hp. subst w0. cbn. auto. }
  destruct Hw2 as (Hs & He & Hc & Hse & Hsc).
  destruct (getActiveFile (host w2)) as [activeFile|].
  - destruct (tryCatch_readOverride (host w2) (Some activeFile)) as [o Ho].
    rewrite (handleFileOpen_normal _ _ _ Ho).
    eexists. split; [reflexivity|].
    rewrite refreshActiveEditorDirection_plugin.
    repeat (split; [assumption|]).
    intros mutations. apply handleEditorMutationInner_nothing_observed.
    rewrite refreshActiveEditorDirection_plugin. exact Hse.
  - exists w2. split; [reflexivity|].
    repeat (split; [assumption|]).
    intros mutations. now apply handleEditorMutationInner_nothing_observed.
Qed.
End PassObserves.

Lemma pass_records_only_live_elements_witness :
  bodyContains (host observedLtrWorld) 11%positive = true
  /\ liveOf EditorObserver (host observedLtrWorld) 11%positive.
Proof.
  apply (proj1 (@pass_records_only_live_elements basicLatinData EditorObserver
                  observedLtrWorld (ex_intro _ _ eq_refl)) 11%positive).
  assert (Hset : observedSetOf EditorObserver
                   (plugin (@applyAllUiSettings basicLatinData observedLtrWorld))
                 = {[ 11%positive ]}) by (vm_compute; reflexivity).
  rewrite Hset. now apply elem_of_singleton.
Defined.


Lemma onload_observes_nothing_witness :
  exists w',
    @onload basicLatinData unloadedWorld None = Normal w'
    /\ observedEditorElements (plugin w') = ∅
    /\ forall mutations, @handleEditorMutationInner basicLatinData w' mutations = w'.
Proof.
  destruct (@onload_observes_nothing basicLatinData unloadedWorld None
              eq_refl eq_refl eq_refl eq_refl)
    as (w' & Hload & _ & _ & _ & Hempty & _ & Hquiet).
  exists w'. split; [exact Hload|]. split; [exact Hempty|exact Hquiet].
Defined.

(** ** The override and the editor setting *)

Section OverridePrecedence.
Context `{UnicodeData}.
#[local] Arguments getBlockDirection : simpl never.

Lemma needsReclassify_false_detected (w : World) (el : Element) (activeFile : TFile)
      (leaf : Leaf) :
  needsReclassify w el = false ->
  getActiveFile (host w) = Some activeFile ->
  owningLeaf (host w) el = Some leaf ->
  view_file (leaf_view leaf) = Some activeFile ->
  userDirectionForThisEditor (plugin w) = auto ->
  enableAdvancedTextDetection (settings (plugin w)) = true ->
  data_effective_direction (attrs (dom w) el)
  = Some (getBlockDirection (JsString (textContent (host w) el))).
Proof.
  unfold needsReclassify. intros Hn Hfile Hleaf Hview Hdir Hdet.
  rewrite Hfile, Hleaf, Hdet in Hn.
  rewrite (bool_decide_eq_true_2 _ Hview), (bool_decide_eq_true_2 _ Hdir) in Hn.
  cbn [andb] in Hn. apply negb_false_iff in Hn. now apply bool_decide_eq_true in Hn.
Qed.

Lemma handleEditorMutationInner_detects (w : World) (mutations : list MutationRecord)
      (activeFile : TFile) (leaf : Leaf) (el : Element) :
  el ∈ changedEditorElements w mutations ->
  getActiveFile (host w) = Some activeFile ->
  owningLeaf (host w) el = Some leaf ->
  view_file (leaf_view leaf) = Some activeFile ->
  userDirectionForThisEditor (plugin w) = auto ->
  enableAdvancedTextDetection (settings (plugin w)) = true ->
  data_effective_direction (attrs (dom (handleEditorMutationInner w mutations)) el)
  = Some (getBlockDirection (JsString (textContent (host w) el))).
Proof.
  intros Hin Hfile Hleaf Hview Hdir Hdet.
  pose proof (fold_reclassify_settles (changedEditorElements w mutations) w el
                (or_introl (proj1 (list_elem_of_In _ _) Hin))) as Hsettled.
  fold (handleEditorMutationInner w mutations) in Hsettled.
  destruct (handleEditorMutationInner_reconciles w mutations) as (Hhost & _).
  pose proof (handleEditorMutationInner_plugin w mutations) as Hplugin.
  rewrite <- Hhost.
  apply (needsReclassify_false_detected _ el activeFile leaf Hsettled);
    rewrite ?Hhost, ?Hplugin; assumption.
Qed.

Lemma handleEditorMutationInner_keeps_effective (w : World) (mutations : list MutationRecord)
      (el : Element) (v : DirectionSetting) :
  data_effective_direction (attrs (dom w) el) = Some v ->
  (userDirectionForThisEditor (plugin w) = auto ->
   enableAdvancedTextDetection (settings (plugin w)) = true ->
   v = getBlockDirection (JsString (textContent (host w) el))) ->
  data_effective_direction (attrs (dom (handleEditorMutationInner w mutations)) el) = Some v.
Proof.
  unfold handleEditorMutationInner.
  generalize (changedEditorElements w mutations) as changed. intros changed.
  revert w. induction changed as [|x changed IH]; intros w Hv Hdet; cbn [fold_left];
    [exact Hv|].
  destruct (reclassifyEditor_reconciles w x) as (Hhost & _).
  pose proof (reclassifyEditor_plugin w x) as Hplugin.
  apply IH; [|rewrite Hhost, Hplugin; exact Hdet].
  destruct (decide (x = el)) as [->|Hne];
    [|now rewrite (reclassifyEditor_other w x el Hne)].
  destruct (needsReclassify w el) eqn:Hn;
    [|now rewrite (reclassifyEditor_settled w el Hn)].
  rewrite (reclassifyEditor_written w el Hn). f_equal. symmetry.
  unfold needsReclassify in Hn.
  destruct (getActiveFile (host w)); [|discriminate].
  destruct (owningLeaf (host w) el); [|discriminate].
  apply andb_true_iff in Hn as [Hn _]. apply andb_true_iff in Hn as [Hn Hd].
  apply andb_true_iff in Hn as [_ Ha]. apply bool_decide_eq_true in Ha. auto.
Qed.

(** C5.  With an override on the active note, the direction resolved for
    the editor that shows the note is the override and never the editor
    setting, whatever the settings hold.  [refreshActiveEditorDirection]
    marks the active editor with the override, and a concrete override is
    its effective direction.  The mutation handler goes by the override
    alone: under a concrete override it changes nothing (also when the
    editor setting is auto-detect), and under an auto-detect override,
    with detection on, it leaves the changed editor of the active note
    classified by its text (also when the editor setting is concrete).
    The pass of [applyAllUiSettings] marks the editor of a markdown leaf
    that shows the active note with the override; under a concrete
    override the effective direction is the override and the leaf changes
    nothing in the plugin's observers, and under an auto-detect override
    with detection on the editor is recorded as observed. *)
Theorem override_beats_editor_setting (w : World) (o : DirectionSetting) :
  activeNoteOverride (plugin w) = Some o ->
  directionToApply (plugin w) = o
  /\ userDirectionForThisEditor (plugin w) = o
  /\ (forall activeLeaf file el,
        getActiveMarkdownLeaf (host w) = Some activeLeaf ->
        view_file (leaf_view activeLeaf) = Some file ->
        querySelector (host w) (containerEl (leaf_view activeLeaf)) ".cm-content" = Some el ->
        bodyContains (host w) el = true ->
        data_direction (attrs (dom (refreshActiveEditorDirection w)) el) = Some o
        /\ (o <> auto ->
            data_effective_direction (attrs (dom (refreshActiveEditorDirection w)) el)
            = Some o))
  /\ (o <> auto ->
      (forall el, reclassifyEditor w el = w)
      /\ forall mutations, handleEditorMutationInner w mutations = w)
  /\ (o = auto ->
      forall mutations activeFile leaf el,
        el ∈ changedEditorElements w mutations ->
        getActiveFile (host w) = Some activeFile ->
        owningLeaf (host w) el = Some leaf ->
        view_file (leaf_view leaf) = Some activeFile ->
        enableAdvancedTextDetection (settings (plugin w)) = true ->
        data_effective_direction (attrs (dom (handleEditorMutationInner w mutations)) el)
        = Some (getBlockDirection (JsString (textContent (host w) el))))
  /\ (forall currentEditors currentCanvases leaf activeFile el,
        getActiveFile (host w) = Some activeFile ->
        view_class (leaf_view leaf) = MarkdownView ->
        view_file (leaf_view leaf) = Some activeFile ->
        querySelector (host w) (containerEl (leaf_view leaf)) ".cm-content" = Some el ->
        bodyContains (host w) el = true ->
        let w' := (applyLeafEditorOrCanvas (w, currentEditors, currentCanvases) leaf).1.1 in
        data_direction (attrs (dom w') el) = Some o
        /\ (o <> auto ->
            data_effective_direction (attrs (dom w') el) = Some o
            /\ plugin w' = plugin w)
        /\ (o = auto ->
            enableAdvancedTextDetection (settings (plugin w)) = true ->
            is_Some (editorMutationObserver (plugin w)) ->
            el ∈ observedEditorElements (plugin w'))).
Proof.
  intros Ho.
  assert (Hquiet : o <> auto -> forall el, reclassifyEditor w el = w).
  { intros Hna el. unfold reclassifyEditor, userDirectionForThisEditor. rewrite Ho.
    rewrite (bool_decide_eq_false_2 _ Hna). cbn [andb].
    repeat case_match; reflexivity. }
  assert (Huser : userDirectionForThisEditor (plugin w) = o)
    by (unfold userDirectionForThisEditor; now rewrite Ho).
  split; [unfold directionToApply; now rewrite Ho|]. split; [exact Huser|].
  split; [|split; [|split]].
  - intros activeLeaf file el Hleaf Hfile Hq Hbody.
    unfold refreshActiveEditorDirection. rewrite Hleaf, Hfile, Hq.
    unfold directionToApply. rewrite Ho.
    pose proof (applyDirectionToElement_attrs w el o Hbody) as (Hdir & Heff & _).
    split.
    + match goal with
      | |- context [if ?c then _ else _] => destruct c
      end; [rewrite handleEditorMutationInner_data_direction|]; exact Hdir.
    + intros Hna. rewrite (bool_decide_eq_false_2 _ Hna). cbn [andb].
      destruct o; [exact Heff|exact Heff|now destruct Hna].
  - intros Hna. split; [exact (Hquiet Hna)|].
    intros mutations. apply fold_left_fixed. exact (Hquiet Hna).
  - intros -> mutations activeFile leaf el Hin Hfile Hleaf Hview Hdet.
    now apply (handleEditorMutationInner_detects w mutations activeFile leaf el).
  - intros ed cv leaf activeFile el Hfile Hmd Hview Hq Hbody.
    unfold applyLeafEditorOrCanvas.
    rewrite (bool_decide_eq_true_2 _ Hmd), Hq, Hfile, Ho.
    rewrite (bool_decide_eq_true_2 _ Hview). cbn [fst].
    pose proof (applyDirectionToElement_attrs w el o Hbody) as (Hdir & Heff & _).
    pose proof (applyDirectionToElement_plugin w (Some el) o) as Hplugin.
    split; [|split].
    + clear Heff. unfold manageObserver.
      repeat case_match; rewrite ?handleEditorMutationInner_data_direction; exact Hdir.
    + intros Hna. rewrite (bool_decide_eq_false_2 _ Hna). cbn [andb].
      unfold manageObserver.
      assert (Hsame : forall x : World,
                 match observerOf EditorObserver (plugin x) with
                 | Some _ => x
                 | None => x
                 end = x) by (intros x; now destruct (observerOf EditorObserver (plugin x))).
      rewrite Hsame. split; [|exact Hplugin].
      destruct o; [exact Heff|exact Heff|now destruct Hna].
    + intros -> Hdet Hobs. rewrite Hplugin, Hdet.
      rewrite (bool_decide_eq_true_2 _ (eq_refl auto)). cbn [andb].
      apply (manageObserver_adds EditorObserver). cbn [observerOf]. now rewrite Hplugin.
Qed.
End OverridePrecedence.

Lemma override_beats_editor_setting_witness :
  (direction (editor (settings (plugin (overrideWorld rtl)))) = auto
   /\ data_direction
        (attrs (dom (@refreshActiveEditorDirection basicLatinData (overrideWorld rtl)))
               11%positive) = Some rtl
   /\ @handleEditorMutationInner basicLatinData (overrideWorld rtl)
        [mkMutation "characterData" 11%positive []] = overrideWorld rtl
   /\ data_direction
        (attrs (dom (@applyLeafEditorOrCanvas basicLatinData (overrideWorld rtl, ∅, ∅)
                       editorLeaf).1.1) 11%positive) = Some rtl)
  /\ direction (editor (settings (plugin autoOverrideWorld))) = ltr
  /\ data_effective_direction
       (attrs (dom (@handleEditorMutationInner basicLatinData autoOverrideWorld
                      [mkMutation "characterData" 11%positive []])) 11%positive)
     = Some (@getBlockDirection basicLatinData
               (JsString (textContent (host autoOverrideWorld) 11%positive)))
  /\ 11%positive ∈ observedEditorElements
                     (plugin (@applyLeafEditorOrCanvas basicLatinData
                                (autoOverrideWorld, ∅, ∅) editorLeaf).1.1).
Proof.
  destruct (@override_beats_editor_setting basicLatinData (overrideWorld rtl) rtl eq_refl)
    as (_ & _ & Hr & Hm & _ & Hp).
  destruct (@override_beats_editor_setting basicLatinData autoOverrideWorld auto eq_refl)
    as (_ & _ & _ & _ & Hma & Hpa).
  split; [split; [reflexivity|split; [|split]]|split; [reflexivity|split]].
  - exact (proj1 (Hr editorLeaf noteFile 11%positive eq_refl eq_refl eq_refl eq_refl)).
  - assert (Hne : rtl <> auto) by discriminate.
    exact (proj2 (Hm Hne) [mkMutation "characterData" 11%positive []]).
  - exact (proj1 (Hp ∅ ∅ editorLeaf noteFile 11%positive
                     eq_refl eq_refl eq_refl eq_refl eq_refl)).
  - apply (Hma eq_refl [mkMutation "characterData" 11%positive []] noteFile editorLeaf
               11%positive); try reflexivity.
    assert (Hch : changedEditorElements autoOverrideWorld
                    [mkMutation "characterData" 11%positive []] = [11%positive])
      by (vm_compute; reflexivity).
    rewrite Hch. apply elem_of_cons. now left.
  - apply (proj2 (proj2 (Hpa ∅ ∅ editorLeaf noteFile 11%positive
                             eq_refl eq_refl eq_refl eq_refl eq_refl)) eq_refl eq_refl).
    exists ({[ 11%positive ]} : gset Element). reflexivity.
Defined.
